(** * Smart Trader Cockpit: retry wrapper and trading journal

    A shallow embedding of [src/lib/retryUtils.ts] (the retry wrapper with
    exponential backoff) and [src/lib/journalStorage.ts] (the journal kept in
    [localStorage] and its statistics), followed by the properties that the
    specification states about them.

    Conventions of the embedding:
    - JavaScript numbers that hold counts, HTTP statuses and millisecond
      clocks are integers ([nat], [Z]); ratios ([winRate], [pnl]) are exact
      rationals ([Q]), so floating-point rounding is not modelled;
    - strings are [string] (8-bit characters); [toLowerCase] acts on the
      letters A-Z, which is all that the ASCII keywords searched for can see;
    - code that can throw runs in a small state-and-exception monad over the
      browser's [localStorage]; [try]/[catch] is [try_catch]. *)

From Stdlib Require Import ZArith QArith String Ascii Bool Sorting.Permutation Sorting.Sorted.
From Stdlib Require Import Qminmax Lqa.
From stdpp Require Import base tactics option list relations strings sorting.

Local Open Scope Z_scope.
Local Open Scope string_scope.
Local Open Scope list_scope.
Local Open Scope bool_scope.

(* ===================================================================== *)
(** ** retryUtils.ts *)
(* ===================================================================== *)

Module Retry.

Record RetryConfig := {
  MAX_RETRIES : nat;
  INITIAL_DELAY_MS : Z;
  MAX_DELAY_MS : Z;
  BACKOFF_MULTIPLIER : Z
}.

Definition RETRY_CONFIG : RetryConfig := {|
  MAX_RETRIES := 3;
  INITIAL_DELAY_MS := 2000;
  MAX_DELAY_MS := 8000;
  BACKOFF_MULTIPLIER := 2
|}.

(** [min(INITIAL_DELAY * (MULTIPLIER ^ attempt), MAX_DELAY)] *)
Definition getBackoffDelay (attempt : nat) : Z :=
  let delay := INITIAL_DELAY_MS RETRY_CONFIG
               * BACKOFF_MULTIPLIER RETRY_CONFIG ^ Z.of_nat attempt in
  Z.min delay (MAX_DELAY_MS RETRY_CONFIG).

(** Values that can be thrown.  [isRetryableError] takes [unknown], rejects
    everything that is falsy or not an object, and reads the rest at the
    shape [{ status?: number; message?: string }]. *)
Inductive JsPrim :=
| PUndefined
| PNull
| PBool (b : bool)
| PNum (n : Z)
| PStr (s : string).

Inductive ErrValue :=
| EPrim (p : JsPrim)
| EObj (status : option Z) (message : option string).

(** [!error || typeof error !== 'object'] : [null] is falsy, the other
    primitives are not objects. *)
Definition not_an_object (error : ErrValue) : bool :=
  match error with
  | EPrim _ => true
  | EObj _ _ => false
  end.

Definition ascii_toLowerCase (c : ascii) : ascii :=
  let n := nat_of_ascii c in
  if ((65 <=? n) && (n <=? 90))%nat then ascii_of_nat (n + 32) else c.

(** [String.prototype.toLowerCase] *)
Fixpoint toLowerCase (s : string) : string :=
  match s with
  | EmptyString => EmptyString
  | String c rest => String (ascii_toLowerCase c) (toLowerCase rest)
  end.

(** [String.prototype.includes]: [search] occurs in [s] at some position. *)
Fixpoint includes (s search : string) : bool :=
  String.prefix search s
  || match s with
     | EmptyString => false
     | String _ rest => includes rest search
     end.

(** [errorObj.status === n] *)
Definition status_is (status : option Z) (n : Z) : bool :=
  match status with
  | Some s => (s =? n)%Z
  | None => false
  end.

Definition isRetryableError (error : ErrValue) : bool :=
  if not_an_object error then false
  else
    match error with
    | EPrim _ => false
    | EObj status msg =>
        if status_is status 429 || status_is status 503 then true
        else
          (* errorObj.message?.toLowerCase() || '' *)
          let message := match msg with
                         | Some m => toLowerCase m
                         | None => EmptyString
                         end in
          if includes message "quota"
             || includes message "rate limit"
             || includes message "too many requests"
          then true
          else false
    end.

(** What a run of [withRetry] does that an observer can see: the pauses and
    the invocations of the operation, in order. *)
Inductive Event :=
| Sleep (ms : Z)
| Call.

Inductive Outcome (T : Type) :=
| Returned (result : T)
| Thrown (error : ErrValue).
Arguments Returned {T} _.
Arguments Thrown {T} _.

Record Run (St T : Type) := {
  outcome : Outcome T;
  final : St;
  trace : list Event
}.
Arguments outcome {St T} _.
Arguments final {St T} _.
Arguments trace {St T} _.

Section WithRetry.
Context {St T : Type}.

(** The wrapped operation [() => Promise<T>]: it may read and change state
    of its own ([St]) and settles with a rejection ([inl]) or a value
    ([inr]). *)
Variable operation : St -> (ErrValue + T) * St.

(** The body of [for (attempt = 0; attempt <= MAX_RETRIES; attempt++)].
    [remaining] counts the iterations the loop header still allows
    ([MAX_RETRIES + 1 - attempt]); when none is left the loop is left and
    [throw lastError] runs. *)
Fixpoint retry_loop (remaining attempt : nat) (lastError : ErrValue)
         (s : St) (tr : list Event) : Run St T :=
  match remaining with
  | O => {| outcome := Thrown lastError; final := s; trace := tr |}
  | S remaining' =>
      let tr :=
        if (0 <? attempt)%nat
        then tr ++ [Sleep (getBackoffDelay (attempt - 1))]
        else tr in
      match operation s with
      | (inr result, s') =>
          {| outcome := Returned result; final := s'; trace := tr ++ [Call] |}
      | (inl error, s') =>
          if negb (isRetryableError error) then
            {| outcome := Thrown error; final := s'; trace := tr ++ [Call] |}
          else if (attempt =? MAX_RETRIES RETRY_CONFIG)%nat then
            {| outcome := Thrown error; final := s'; trace := tr ++ [Call] |}
          else
            retry_loop remaining' (attempt + 1) error s' (tr ++ [Call])
      end
  end.

Definition withRetry (s : St) : Run St T :=
  retry_loop (MAX_RETRIES RETRY_CONFIG + 1) 0 (EPrim PUndefined) s [].

(** How the [k]-th invocation (counting from 0) of the operation settles
    when it is invoked again and again from state [s]. *)
Fixpoint nth_call (k : nat) (s : St) : (ErrValue + T) * St :=
  match k with
  | O => operation s
  | S k' => nth_call k' (snd (operation s))
  end.
End WithRetry.

(** Number of invocations of the operation in a trace. *)
Fixpoint calls (tr : list Event) : nat :=
  match tr with
  | [] => 0
  | Call :: rest => S (calls rest)
  | Sleep _ :: rest => calls rest
  end.

(** The pauses of a trace, in order. *)
Fixpoint sleeps (tr : list Event) : list Z :=
  match tr with
  | [] => []
  | Sleep ms :: rest => ms :: sleeps rest
  | Call :: rest => sleeps rest
  end.

End Retry.

(* ===================================================================== *)
(** ** journalStorage.ts *)
(* ===================================================================== *)

Module Analysis.
Inductive Decision := BUY | WAIT | SELL.
Inductive Confidence := High | Medium | Low.

Record TradingPlan := {
  entry_area : string;
  target_price : string;
  stop_loss : string;
  risk_reward_ratio : string
}.

Record AnalysisResponse := {
  decision : Decision;
  confidence_score : Confidence;
  is_demo : option bool;
  analysis_summary : string;
  trading_plan : TradingPlan
}.
End Analysis.

Inductive TradeOutcome := WIN | LOSS | BREAKEVEN | PENDING.

Inductive Mode := scalping | swing.

(** [interface JournalEntry]; a field declared with [?] is an [option]. *)
Module JournalEntry.
Record t := mk {
  id : string;
  timestamp : Z;
  mode : Mode;
  imageThumbnail : string;
  imageFileName : string;
  decision : Analysis.Decision;
  confidence : Analysis.Confidence;
  analysis : Analysis.AnalysisResponse;
  outcome : option TradeOutcome;
  outcomeUpdatedAt : option Z;
  pair : option string;
  notes : option string;
  pnl : option Q;
  isConfluence : option bool
}.
End JournalEntry.

Module Journal.

(** ['WIN' | 'LOSS' | 'NONE']: the streak type is the literal ['NONE'] or
    the [outcome] value of an entry, which the source casts to
    ['WIN' | 'LOSS'] and passes on as it is. *)
Inductive StreakType :=
| NONE
| OfOutcome (firstOutcome : option TradeOutcome).

Record JournalStats := {
  total : nat;
  winCount : nat;
  lossCount : nat;
  breakEvenCount : nat;
  pendingCount : nat;
  winRate : Q;
  winRateScalping : Q;
  winRateSwing : Q;
  currentStreak : nat;
  streakType : StreakType;
  totalPnl : Q;
  avgPnl : Q
}.

Record JournalStore := { entries : list JournalEntry.t }.

Definition MAX_ENTRIES : nat := 50.

(** *** Exceptions and the browser's storage *)

Inductive JsError :=
| TypeError
| SyntaxError
| QuotaExceededError
| SecurityError
| ImageError (message : string).

Inductive Res (A : Type) :=
| Val (a : A)
| Exn (e : JsError).
Arguments Val {A} _.
Arguments Exn {A} _.

(** What [JSON.parse] makes of a stored text that is valid JSON.  The code
    casts the value to [JournalStore] without looking at it, so values of
    another shape flow on: [DocNoEntries] is an object without an [entries]
    property (the text [{}]), [DocNull] is the text [null]. *)
Inductive JsonDoc :=
| DocStore (journal : JournalStore)
| DocNoEntries
| DocNull.

(** What [localStorage] holds under [STORAGE_KEY]. *)
Inductive StoredItem :=
| ItemAbsent                (* getItem gives null *)
| ItemEmpty                 (* the empty text *)
| ItemUnparseable           (* a text that JSON.parse rejects *)
| ItemJson (doc : JsonDoc). (* a text that JSON.parse accepts *)

(** The browser's [localStorage] as the journal sees it: the item under the
    journal's key, how the three calls behave (they can throw: storage
    disabled, quota used up), and a record of the journals handed to
    [setItem], oldest first. *)
Record LocalStorage := {
  item : StoredItem;
  getItem_throws : option JsError;
  setItem_throws : JournalStore -> option JsError;
  removeItem_throws : option JsError;
  setItem_calls : list JournalStore
}.

(** State and exceptions: a computation reads and changes the storage and
    ends with a value or a thrown error. *)
Definition M (A : Type) : Type := LocalStorage -> Res A * LocalStorage.

Definition ret {A} (a : A) : M A := fun ls => (Val a, ls).

Definition throw {A} (e : JsError) : M A := fun ls => (Exn e, ls).

Definition bind {A B} (c : M A) (k : A -> M B) : M B :=
  fun ls =>
    match c ls with
    | (Val a, ls') => k a ls'
    | (Exn e, ls') => (Exn e, ls')
    end.

Definition try_catch {A} (body : M A) (handler : JsError -> M A) : M A :=
  fun ls =>
    match body ls with
    | (Val a, ls') => (Val a, ls')
    | (Exn e, ls') => handler e ls'
    end.

Definition lift {A} (r : Res A) : M A := fun ls => (r, ls).

Notation "x <- c ;; k" := (bind c (fun x => k))
  (at level 100, c at next level, right associativity).

(** [localStorage.getItem(STORAGE_KEY)] *)
Definition getItem : M StoredItem :=
  fun ls =>
    match getItem_throws ls with
    | Some e => (Exn e, ls)
    | None => (Val (item ls), ls)
    end.

(** [localStorage.setItem(STORAGE_KEY, JSON.stringify(journal))] *)
Definition setItem (journal : JournalStore) : M unit :=
  fun ls =>
    let logged := setItem_calls ls ++ [journal] in
    match setItem_throws ls journal with
    | Some e =>
        (Exn e, {| item := item ls;
                   getItem_throws := getItem_throws ls;
                   setItem_throws := setItem_throws ls;
                   removeItem_throws := removeItem_throws ls;
                   setItem_calls := logged |})
    | None =>
        (Val tt, {| item := ItemJson (DocStore journal);
                    getItem_throws := getItem_throws ls;
                    setItem_throws := setItem_throws ls;
                    removeItem_throws := removeItem_throws ls;
                    setItem_calls := logged |})
    end.

(** [localStorage.removeItem(STORAGE_KEY)] *)
Definition removeItem : M unit :=
  fun ls =>
    match removeItem_throws ls with
    | Some e => (Exn e, ls)
    | None =>
        (Val tt, {| item := ItemAbsent;
                    getItem_throws := getItem_throws ls;
                    setItem_throws := setItem_throws ls;
                    removeItem_throws := removeItem_throws ls;
                    setItem_calls := setItem_calls ls |})
    end.

(** [JSON.parse(data)]: [null] is read as the text [null]; the empty text
    is not JSON.  (Neither gets here: both are caught by the [!data] test
    of [getJournal].) *)
Definition JSON_parse (data : StoredItem) : Res JsonDoc :=
  match data with
  | ItemJson doc => Val doc
  | ItemUnparseable => Exn SyntaxError
  | ItemAbsent => Val DocNull
  | ItemEmpty => Exn SyntaxError
  end.

(** [!data]: [null] and the empty text are falsy. *)
Definition falsy_item (data : StoredItem) : bool :=
  match data with
  | ItemAbsent | ItemEmpty => true
  | _ => false
  end.

Definition empty_store : JsonDoc := DocStore {| entries := [] |}.

Definition getJournal : M JsonDoc :=
  try_catch
    (data <- getItem ;;
     if falsy_item data then ret empty_store
     else
       parsed <- lift (JSON_parse data) ;;
       ret parsed)
    (fun _ => ret empty_store).

(** [journal.entries] followed by the first use of the array
    ([.length], [.unshift], [.findIndex], [.filter]): reading a property of
    [null] throws, and so does using the [undefined] that an object without
    [entries] gives. *)
Definition entries_of (journal : JsonDoc) : Res (list JournalEntry.t) :=
  match journal with
  | DocStore j => Val (entries j)
  | DocNoEntries => Exn TypeError
  | DocNull => Exn TypeError
  end.

(** [error instanceof Error && error.name === 'QuotaExceededError'] *)
Definition is_quota_exceeded (error : JsError) : bool :=
  match error with
  | QuotaExceededError => true
  | _ => false
  end.

(** [saveJournalToStorage] assigns to [journal.entries], and its callers go
    on using the same object: the journal as the call leaves it is returned
    next to the boolean. *)
Definition saveJournalToStorage (journal : JournalStore) : M (bool * JournalStore) :=
  try_catch
    (_ <- setItem journal ;;
     ret (true, journal))
    (fun error =>
       if is_quota_exceeded error then
         if (1 <? length (entries journal))%nat then
           (* journal.entries = journal.entries.slice(0, -1) *)
           let journal := {| entries := removelast (entries journal) |} in
           try_catch
             (_ <- setItem journal ;;
              ret (true, journal))
             (fun _retryError => ret (false, journal))
         else ret (false, journal)
       else ret (false, journal)).

(** What one call of [saveJournalEntry] reads from the browser: how
    [createThumbnail(imageFile)] settles, [crypto.randomUUID()] and
    [Date.now()]. *)
Record Browser := {
  createThumbnail : Res string;
  randomUUID : string;
  Date_now : Z
}.

(** [thumbnail] as a condition: the empty text is falsy. *)
Definition truthy_string (s : string) : bool :=
  match s with
  | EmptyString => false
  | String _ _ => true
  end.

(** [pair || undefined] *)
Definition pair_or_undefined (pair : option string) : option string :=
  match pair with
  | Some p => if truthy_string p then Some p else None
  | None => None
  end.

(** [isConfluence || false] *)
Definition isConfluence_or_false (isConfluence : option bool) : bool :=
  match isConfluence with
  | Some b => b
  | None => false
  end.

Definition new_entry (b : Browser) (mode : Mode) (thumbnail imageFileName : string)
           (analysis : Analysis.AnalysisResponse) (pair : option string)
           (isConfluence : option bool) : JournalEntry.t :=
  {| JournalEntry.id := randomUUID b;
     JournalEntry.timestamp := Date_now b;
     JournalEntry.mode := mode;
     JournalEntry.imageThumbnail := thumbnail;
     JournalEntry.imageFileName := imageFileName;
     JournalEntry.decision := Analysis.decision analysis;
     JournalEntry.confidence := Analysis.confidence_score analysis;
     JournalEntry.analysis := analysis;
     JournalEntry.outcome := Some PENDING;
     JournalEntry.outcomeUpdatedAt := None;
     JournalEntry.pair := pair_or_undefined pair;
     JournalEntry.notes := None;
     JournalEntry.pnl := None;
     JournalEntry.isConfluence := Some (isConfluence_or_false isConfluence) |}.

(** [entry.imageThumbnail = ''] *)
Definition clear_thumbnail (e : JournalEntry.t) : JournalEntry.t :=
  {| JournalEntry.id := JournalEntry.id e;
     JournalEntry.timestamp := JournalEntry.timestamp e;
     JournalEntry.mode := JournalEntry.mode e;
     JournalEntry.imageThumbnail := EmptyString;
     JournalEntry.imageFileName := JournalEntry.imageFileName e;
     JournalEntry.decision := JournalEntry.decision e;
     JournalEntry.confidence := JournalEntry.confidence e;
     JournalEntry.analysis := JournalEntry.analysis e;
     JournalEntry.outcome := JournalEntry.outcome e;
     JournalEntry.outcomeUpdatedAt := JournalEntry.outcomeUpdatedAt e;
     JournalEntry.pair := JournalEntry.pair e;
     JournalEntry.notes := JournalEntry.notes e;
     JournalEntry.pnl := JournalEntry.pnl e;
     JournalEntry.isConfluence := JournalEntry.isConfluence e |}.

(** [journal.entries[0] = entry]: index 0 is overwritten, or created when
    the array is empty. *)
Definition set_first (entry : JournalEntry.t) (l : list JournalEntry.t) : list JournalEntry.t :=
  match l with
  | [] => [entry]
  | _ :: rest => entry :: rest
  end.

(** [if (journal.entries.length > MAX_ENTRIES)
       journal.entries = journal.entries.slice(0, MAX_ENTRIES)] *)
Definition keep_max_entries (l : list JournalEntry.t) : list JournalEntry.t :=
  if (MAX_ENTRIES <? length l)%nat then take MAX_ENTRIES l else l.

Definition saveJournalEntry (b : Browser) (mode : Mode) (imageFileName : string)
           (analysis : Analysis.AnalysisResponse) (pair : option string)
           (isConfluence : option bool) : M unit :=
  try_catch
    (thumbnail <- try_catch (lift (createThumbnail b))
                            (fun _thumbError => ret EmptyString) ;;
     let entry := new_entry b mode thumbnail imageFileName analysis pair isConfluence in
     journal <- getJournal ;;
     old <- lift (entries_of journal) ;;
     (* journal.entries.unshift(entry) *)
     let journal := {| entries := keep_max_entries (entry :: old) |} in
     r <- saveJournalToStorage journal ;;
     let saved := fst r in
     let journal := snd r in
     if negb saved && truthy_string thumbnail then
       let entry := clear_thumbnail entry in
       let journal := {| entries := set_first entry (entries journal) |} in
       _ <- saveJournalToStorage journal ;;
       ret tt
     else ret tt)
    (fun _error => ret tt).

(** The object literal of [updateJournalOutcome]: the old entry spread, then
    [outcome], [outcomeUpdatedAt], [notes] and [pnl]. *)
Definition with_outcome (old : JournalEntry.t) (outcome : TradeOutcome)
           (notes : option string) (pnl : option Q) (now : Z) : JournalEntry.t :=
  {| JournalEntry.id := JournalEntry.id old;
     JournalEntry.timestamp := JournalEntry.timestamp old;
     JournalEntry.mode := JournalEntry.mode old;
     JournalEntry.imageThumbnail := JournalEntry.imageThumbnail old;
     JournalEntry.imageFileName := JournalEntry.imageFileName old;
     JournalEntry.decision := JournalEntry.decision old;
     JournalEntry.confidence := JournalEntry.confidence old;
     JournalEntry.analysis := JournalEntry.analysis old;
     JournalEntry.outcome := Some outcome;
     JournalEntry.outcomeUpdatedAt := Some now;
     JournalEntry.pair := JournalEntry.pair old;
     JournalEntry.notes := match notes with
                           | Some n => Some n
                           | None => JournalEntry.notes old
                           end;
     JournalEntry.pnl := match pnl with
                         | Some p => Some p
                         | None => JournalEntry.pnl old
                         end;
     JournalEntry.isConfluence := JournalEntry.isConfluence old |}.

(** [journal.entries.findIndex(e => e.id === id)]: the first index whose
    entry has the id, with that entry; [None] is the source's [-1]. *)
Definition findIndex_id (id : string) (l : list JournalEntry.t) : option (nat * JournalEntry.t) :=
  list_find (fun e => JournalEntry.id e = id) l.

Definition updateJournalOutcome (id : string) (outcome : TradeOutcome)
           (notes : option string) (pnl : option Q) (now : Z) : M bool :=
  try_catch
    (journal <- getJournal ;;
     old <- lift (entries_of journal) ;;
     match findIndex_id id old with
     | None => ret false
     | Some (entryIndex, e) =>
         let journal :=
           {| entries := <[entryIndex := with_outcome e outcome notes pnl now]> old |} in
         r <- saveJournalToStorage journal ;;
         ret (fst r)
     end)
    (fun _error => ret false).

(** [journal.entries[entryIndex].pair = pair] *)
Definition with_pair (e : JournalEntry.t) (pair : string) : JournalEntry.t :=
  {| JournalEntry.id := JournalEntry.id e;
     JournalEntry.timestamp := JournalEntry.timestamp e;
     JournalEntry.mode := JournalEntry.mode e;
     JournalEntry.imageThumbnail := JournalEntry.imageThumbnail e;
     JournalEntry.imageFileName := JournalEntry.imageFileName e;
     JournalEntry.decision := JournalEntry.decision e;
     JournalEntry.confidence := JournalEntry.confidence e;
     JournalEntry.analysis := JournalEntry.analysis e;
     JournalEntry.outcome := JournalEntry.outcome e;
     JournalEntry.outcomeUpdatedAt := JournalEntry.outcomeUpdatedAt e;
     JournalEntry.pair := Some pair;
     JournalEntry.notes := JournalEntry.notes e;
     JournalEntry.pnl := JournalEntry.pnl e;
     JournalEntry.isConfluence := JournalEntry.isConfluence e |}.

Definition updateJournalPair (id : string) (pair : string) : M bool :=
  try_catch
    (journal <- getJournal ;;
     old <- lift (entries_of journal) ;;
     match findIndex_id id old with
     | None => ret false
     | Some (entryIndex, e) =>
         let journal := {| entries := <[entryIndex := with_pair e pair]> old |} in
         r <- saveJournalToStorage journal ;;
         ret (fst r)
     end)
    (fun _error => ret false).

Definition deleteJournalEntry (id : string) : M unit :=
  try_catch
    (journal <- getJournal ;;
     old <- lift (entries_of journal) ;;
     let journal :=
       {| entries := List.filter (fun e => negb (String.eqb (JournalEntry.id e) id)) old |} in
     _ <- saveJournalToStorage journal ;;
     ret tt)
    (fun _error => ret tt).

Definition clearJournal : M unit :=
  try_catch removeItem (fun _error => ret tt).

(** *** Statistics *)

Definition TradeOutcome_eqb (a b : TradeOutcome) : bool :=
  match a, b with
  | WIN, WIN | LOSS, LOSS | BREAKEVEN, BREAKEVEN | PENDING, PENDING => true
  | _, _ => false
  end.

(** [x === y] on two [outcome] values, either of which may be [undefined] *)
Definition outcome_strict_eq (x y : option TradeOutcome) : bool :=
  match x, y with
  | Some a, Some b => TradeOutcome_eqb a b
  | None, None => true
  | _, _ => false
  end.

(** [e.outcome === lit] *)
Definition outcome_is (lit : TradeOutcome) (e : JournalEntry.t) : bool :=
  outcome_strict_eq (JournalEntry.outcome e) (Some lit).

(** [!e.outcome || e.outcome === 'PENDING'] *)
Definition is_pending (e : JournalEntry.t) : bool :=
  match JournalEntry.outcome e with
  | None => true
  | Some _ => outcome_is PENDING e
  end.

(** [e.outcome && e.outcome !== 'PENDING'] *)
Definition is_resolved (e : JournalEntry.t) : bool :=
  match JournalEntry.outcome e with
  | None => false
  | Some _ => negb (outcome_is PENDING e)
  end.

(** [e.outcome && e.outcome !== 'PENDING' && e.outcome !== 'BREAKEVEN'] *)
Definition is_win_or_loss (e : JournalEntry.t) : bool :=
  match JournalEntry.outcome e with
  | None => false
  | Some _ => negb (outcome_is PENDING e) && negb (outcome_is BREAKEVEN e)
  end.

(** [e.mode === m] *)
Definition mode_is (m : Mode) (e : JournalEntry.t) : bool :=
  match JournalEntry.mode e, m with
  | scalping, scalping | swing, swing => true
  | _, _ => false
  end.

(** [resolved > 0 ? (wins / resolved) * 100 : 0] *)
Definition win_rate (wins resolved : nat) : Q :=
  if (0 <? resolved)%nat
  then ((inject_Z (Z.of_nat wins) / inject_Z (Z.of_nat resolved)) * 100)%Q
  else 0%Q.

(** [e.outcomeUpdatedAt || e.timestamp]: an absent and a zero
    [outcomeUpdatedAt] both give way to [timestamp]. *)
Definition outcome_time (e : JournalEntry.t) : Z :=
  match JournalEntry.outcomeUpdatedAt e with
  | Some t => if (t =? 0)%Z then JournalEntry.timestamp e else t
  | None => JournalEntry.timestamp e
  end.

(** [(a, b) => (b.outcomeUpdatedAt || b.timestamp) - (a.outcomeUpdatedAt || a.timestamp)] *)
Definition by_outcome_time_desc (a b : JournalEntry.t) : Z :=
  outcome_time b - outcome_time a.

(** [Array.prototype.sort(compareFn)]: the sort is stable, so with a
    consistent [compareFn] its result is the one of a stable insertion
    sort: [x] stays in front of every [y] that followed it unless
    [compareFn(x, y) > 0]. *)
Fixpoint sort_insert {A} (compareFn : A -> A -> Z) (x : A) (sorted : list A) : list A :=
  match sorted with
  | [] => [x]
  | y :: rest =>
      if (compareFn x y <=? 0)%Z then x :: y :: rest
      else y :: sort_insert compareFn x rest
  end.

Fixpoint sort {A} (compareFn : A -> A -> Z) (l : list A) : list A :=
  match l with
  | [] => []
  | x :: rest => sort_insert compareFn x (sort compareFn rest)
  end.

Definition sortedByOutcome (entries : list JournalEntry.t) : list JournalEntry.t :=
  sort by_outcome_time_desc (List.filter is_win_or_loss entries).

(** [for (const entry of sortedByOutcome)
       { if (entry.outcome === firstOutcome) currentStreak++; else break; }] *)
Fixpoint streak_loop (firstOutcome : option TradeOutcome)
         (rest : list JournalEntry.t) (currentStreak : nat) : nat :=
  match rest with
  | [] => currentStreak
  | entry :: rest' =>
      if outcome_strict_eq (JournalEntry.outcome entry) firstOutcome
      then streak_loop firstOutcome rest' (S currentStreak)
      else currentStreak
  end.

(** [e.pnl || 0] *)
Definition pnl_or_0 (e : JournalEntry.t) : Q :=
  match JournalEntry.pnl e with
  | Some p => p
  | None => 0%Q
  end.

(** [e.pnl !== undefined] *)
Definition has_pnl (e : JournalEntry.t) : bool :=
  match JournalEntry.pnl e with
  | Some _ => true
  | None => false
  end.

(** The part of [getJournalStats] below [const entries = journal.entries]. *)
Definition computeStats (entries : list JournalEntry.t) : JournalStats :=
  let total := length entries in
  let winCount := length (List.filter (outcome_is WIN) entries) in
  let lossCount := length (List.filter (outcome_is LOSS) entries) in
  let breakEvenCount := length (List.filter (outcome_is BREAKEVEN) entries) in
  let pendingCount := length (List.filter is_pending entries) in
  let resolvedTrades := (winCount + lossCount + breakEvenCount)%nat in
  let winRate := win_rate winCount resolvedTrades in
  let scalpingEntries := List.filter (mode_is scalping) entries in
  let swingEntries := List.filter (mode_is swing) entries in
  let scalpingWins := length (List.filter (outcome_is WIN) scalpingEntries) in
  let scalpingResolved := length (List.filter is_resolved scalpingEntries) in
  let winRateScalping := win_rate scalpingWins scalpingResolved in
  let swingWins := length (List.filter (outcome_is WIN) swingEntries) in
  let swingResolved := length (List.filter is_resolved swingEntries) in
  let winRateSwing := win_rate swingWins swingResolved in
  let sorted := sortedByOutcome entries in
  let streak :=
    match sorted with
    | [] => (0%nat, NONE)
    | first :: _ =>
        let firstOutcome := JournalEntry.outcome first in
        (streak_loop firstOutcome sorted 0, OfOutcome firstOutcome)
    end in
  let entriesWithPnl := List.filter has_pnl entries in
  let totalPnl := fold_left (fun sum e => (sum + pnl_or_0 e)%Q) entriesWithPnl 0%Q in
  let avgPnl :=
    if (0 <? length entriesWithPnl)%nat
    then (totalPnl / inject_Z (Z.of_nat (length entriesWithPnl)))%Q
    else 0%Q in
  {| total := total;
     winCount := winCount;
     lossCount := lossCount;
     breakEvenCount := breakEvenCount;
     pendingCount := pendingCount;
     winRate := winRate;
     winRateScalping := winRateScalping;
     winRateSwing := winRateSwing;
     currentStreak := fst streak;
     streakType := snd streak;
     totalPnl := totalPnl;
     avgPnl := avgPnl |}.

Definition getJournalStats : M JournalStats :=
  journal <- getJournal ;;
  entries <- lift (entries_of journal) ;;
  ret (computeStats entries).

(** *** The journal over time *)

Inductive Op :=
| SaveEntry (b : Browser) (mode : Mode) (imageFileName : string)
            (analysis : Analysis.AnalysisResponse) (pair : option string)
            (isConfluence : option bool)
| UpdateOutcome (id : string) (outcome : TradeOutcome) (notes : option string)
                (pnl : option Q) (now : Z)
| UpdatePair (id pair : string)
| DeleteEntry (id : string)
| ClearJournal.

Definition run (o : Op) (ls : LocalStorage) : LocalStorage :=
  match o with
  | SaveEntry b mode imageFileName analysis pair' isConfluence =>
      snd (saveJournalEntry b mode imageFileName analysis pair' isConfluence ls)
  | UpdateOutcome id outcome notes pnl now =>
      snd (updateJournalOutcome id outcome notes pnl now ls)
  | UpdatePair id pair' => snd (updateJournalPair id pair' ls)
  | DeleteEntry id => snd (deleteJournalEntry id ls)
  | ClearJournal => snd (clearJournal ls)
  end.

(** One step of the journal's life: the application runs an operation, or
    the browser changes how the storage calls behave (the quota fills up,
    storage gets disabled) without touching the journal's item. *)
Inductive step : LocalStorage -> LocalStorage -> Prop :=
| step_op (o : Op) (ls : LocalStorage) : step ls (run o ls)
| step_browser (ls ls' : LocalStorage) : item ls' = item ls -> step ls ls'.

(** A storage that the journal can get into from a browser in which the
    journal's key has never been written. *)
Definition reachable (ls : LocalStorage) : Prop :=
  exists ls0, item ls0 = ItemAbsent /\ rtc step ls0 ls.

(** The entries that a reader finds in the storage. *)
Definition stored_entries (ls : LocalStorage) : list JournalEntry.t :=
  match item ls with
  | ItemJson (DocStore j) => entries j
  | _ => []
  end.

End Journal.

(* ===================================================================== *)
(** ** Vocabulary of the statements about the retry wrapper *)
(* ===================================================================== *)

Module RetrySpec.
Import Retry.

(** [text] contains [keyword] when letter case is ignored: some stretch of
    [text] equals [keyword] once both are put in lower case. *)
Definition contains_ignoring_case (text keyword : string) : Prop :=
  exists before found after,
    text = before +:+ found +:+ after
    /\ toLowerCase found = toLowerCase keyword.

(** The error is an object whose [status] is the number [n]. *)
Definition has_status (e : ErrValue) (n : Z) : Prop :=
  exists message, e = EObj (Some n) message.

(** The error is an object whose [message] contains [keyword], whatever the
    letter case. *)
Definition message_mentions (e : ErrValue) (keyword : string) : Prop :=
  exists status message,
    e = EObj status (Some message) /\ contains_ignoring_case message keyword.

Definition retryable (e : ErrValue) : Prop :=
  has_status e 429 \/ has_status e 503
  \/ message_mentions e "quota"
  \/ message_mentions e "rate limit"
  \/ message_mentions e "too many requests".

(** The text that [isRetryableError] searches: the message in lower case,
    or the empty text when there is none. *)
Definition lower_message (msg : option string) : string :=
  match msg with
  | Some m => toLowerCase m
  | None => EmptyString
  end.

(** The invocation settles with an error that [isRetryableError] accepts. *)
Definition fails_retryably {St T : Type} (r : (ErrValue + T) * St) : Prop :=
  exists e, fst r = inl e /\ isRetryableError e = true.

(** What [withRetry] makes of the invocation that ends the loop. *)
Definition settle {St T : Type} (r : (ErrValue + T) * St) : Outcome T :=
  match fst r with
  | inr result => Returned result
  | inl error => Thrown error
  end.

(** The loop stops at an invocation that succeeds, that fails with an
    error that is not retryable, or that is the last one allowed. *)
Definition stops_at {St T : Type} (attempt : nat) (r : (ErrValue + T) * St) : Prop :=
  match fst r with
  | inr _ => True
  | inl error =>
      isRetryableError error = false \/ attempt = MAX_RETRIES RETRY_CONFIG
  end.

(** An operation that is rejected with status 429 twice and then settles
    with a value; its state counts the invocations. *)
Definition fails_twice_with_429 (n : nat) : (ErrValue + string) * nat :=
  (if (n <? 2)%nat
   then inl (EObj (Some 429) (Some "Too Many Requests"))
   else inr "analysis",
   S n).

(** An operation that is always rejected with status 503. *)
Definition always_503 (n : nat) : (ErrValue + string) * nat :=
  (inl (EObj (Some 503) (Some "Service Unavailable")), S n).

(** An operation that is always rejected with a plain error, message
    "boom", no status. *)
Definition always_boom (n : nat) : (ErrValue + string) * nat :=
  (inl (EObj None (Some "boom")), S n).

(** The trace of a run with [retries] retries: the first invocation, then
    for the retries 1, 2, ... a pause of [getBackoffDelay (retry - 1)]
    followed by the invocation. *)
Definition retry_trace (retries : nat) : list Event :=
  Call :: concat (map (fun retry => [Sleep (getBackoffDelay (retry - 1)); Call])
                      (seq 1 retries)).

End RetrySpec.

(* ===================================================================== *)
(** ** Vocabulary of the statements about the journal *)
(* ===================================================================== *)

Module JournalSpec.
Import Journal.

(** The list of entries that an operation finds when it reads the journal:
    [getJournal()] followed by the first use of [journal.entries]. *)
Definition journal_read (ls : LocalStorage) : Res (list JournalEntry.t) :=
  match fst (getJournal ls) with
  | Val doc => entries_of doc
  | Exn e => Exn e
  end.

(** The arguments of one call of [saveJournalEntry], with what the call
    reads from the browser. *)
Record SaveArgs := {
  arg_browser : Browser;
  arg_mode : Mode;
  arg_imageFileName : string;
  arg_analysis : Analysis.AnalysisResponse;
  arg_pair : option string;
  arg_isConfluence : option bool
}.

Definition save (a : SaveArgs) : M unit :=
  saveJournalEntry (arg_browser a) (arg_mode a) (arg_imageFileName a)
                   (arg_analysis a) (arg_pair a) (arg_isConfluence a).

(** The thumbnail that the call ends up with: the generated one, or the
    empty text when generation failed. *)
Definition thumbnail_of (a : SaveArgs) : string :=
  match createThumbnail (arg_browser a) with
  | Val t => t
  | Exn _ => EmptyString
  end.

(** The entry that the call creates. *)
Definition entry_of (a : SaveArgs) : JournalEntry.t :=
  new_entry (arg_browser a) (arg_mode a) (thumbnail_of a) (arg_imageFileName a)
            (arg_analysis a) (arg_pair a) (arg_isConfluence a).

(** Calls of [saveJournalEntry] one after the other. *)
Definition save_all (l : list SaveArgs) (ls : LocalStorage) : LocalStorage :=
  fold_left (fun ls a => snd (save a ls)) l ls.

(** A storage whose calls never throw. *)
Definition accepts_all (ls : LocalStorage) : Prop :=
  getItem_throws ls = None /\ forall journal, setItem_throws ls journal = None.

(** The writes of one run of the persistence step [saveJournalToStorage] on
    [journal], against a storage whose [setItem] behaves as [throws]: the
    journal itself and, after a quota failure of a journal with more than
    one entry, the journal without its oldest entry. *)
Definition persist_writes (throws : JournalStore -> option JsError)
           (journal : JournalStore) : list JournalStore :=
  match throws journal with
  | None => [journal]
  | Some e =>
      if is_quota_exceeded e && (1 <? length (entries journal))%nat
      then [journal; {| entries := removelast (entries journal) |}]
      else [journal]
  end.

(** The journal object as that run leaves it. *)
Definition persist_journal (throws : JournalStore -> option JsError)
           (journal : JournalStore) : JournalStore :=
  List.last (persist_writes throws journal) journal.

(** Whether that run reports success: its last write was accepted. *)
Definition persist_saved (throws : JournalStore -> option JsError)
           (journal : JournalStore) : bool :=
  match throws (persist_journal throws journal) with
  | None => true
  | Some _ => false
  end.

(** The item under the journal's key after the writes [writes], in order:
    the last accepted one, or [it] when none was accepted. *)
Definition item_after (throws : JournalStore -> option JsError)
           (writes : list JournalStore) (it : StoredItem) : StoredItem :=
  fold_left (fun it journal =>
               match throws journal with
               | None => ItemJson (DocStore journal)
               | Some _ => it
               end) writes it.

(** All the writes of one call of [saveJournalEntry] that found the entries
    [old] and created [entry]: the persistence step on the new list and,
    when it failed and the entry has a thumbnail, the persistence step
    again on the journal it left, with the entry's thumbnail cleared. *)
Definition save_writes (throws : JournalStore -> option JsError)
           (entry : JournalEntry.t) (old : list JournalEntry.t) : list JournalStore :=
  let first := {| entries := keep_max_entries (entry :: old) |} in
  persist_writes throws first
  ++ (if negb (persist_saved throws first)
         && truthy_string (JournalEntry.imageThumbnail entry)
      then persist_writes throws
             {| entries := set_first (clear_thumbnail entry)
                                     (entries (persist_journal throws first)) |}
      else []).

(** The ladder as the specification words it: the new list; the new list
    without its oldest entry; that list with the new entry's thumbnail
    cleared. *)
Definition ladder_of_spec (entry : JournalEntry.t) (old : list JournalEntry.t)
  : list JournalStore :=
  let first := keep_max_entries (entry :: old) in
  [ {| entries := first |};
    {| entries := removelast first |};
    {| entries := set_first (clear_thumbnail entry) (removelast first) |} ].

(** *** Sample data *)

Definition sample_analysis : Analysis.AnalysisResponse :=
  {| Analysis.decision := Analysis.BUY;
     Analysis.confidence_score := Analysis.High;
     Analysis.is_demo := Some true;
     Analysis.analysis_summary := "Bullish engulfing at support";
     Analysis.trading_plan :=
       {| Analysis.entry_area := "105.50 - 105.80";
          Analysis.target_price := "108.00";
          Analysis.stop_loss := "104.90";
          Analysis.risk_reward_ratio := "1:2.5" |} |}.

Definition sample_entry (id : string) (timestamp : Z) (mode : Mode)
           (outcome : option TradeOutcome) (outcomeUpdatedAt : option Z)
  : JournalEntry.t :=
  {| JournalEntry.id := id;
     JournalEntry.timestamp := timestamp;
     JournalEntry.mode := mode;
     JournalEntry.imageThumbnail := "data:image/jpeg;base64,AAAA";
     JournalEntry.imageFileName := "chart.png";
     JournalEntry.decision := Analysis.BUY;
     JournalEntry.confidence := Analysis.High;
     JournalEntry.analysis := sample_analysis;
     JournalEntry.outcome := outcome;
     JournalEntry.outcomeUpdatedAt := outcomeUpdatedAt;
     JournalEntry.pair := Some "BTCUSD";
     JournalEntry.notes := Some "first notes";
     JournalEntry.pnl := None;
     JournalEntry.isConfluence := Some false |}.

(** A storage holding [it] whose [getItem] and [removeItem] work and whose
    [setItem] behaves as [throws]. *)
Definition storage (it : StoredItem) (throws : JournalStore -> option JsError)
  : LocalStorage :=
  {| item := it;
     getItem_throws := None;
     setItem_throws := throws;
     removeItem_throws := None;
     setItem_calls := [] |}.

Definition no_quota (journal : JournalStore) : option JsError := None.

(** A quota counted in characters: an entry takes 100 characters, its
    thumbnail and its notes; a journal above [capacity] is refused. *)
Definition entry_size (e : JournalEntry.t) : nat :=
  100 + String.length (JournalEntry.imageThumbnail e)
  + match JournalEntry.notes e with
    | Some n => String.length n
    | None => 0
    end.

Definition journal_size (journal : JournalStore) : nat :=
  sum_list (map entry_size (entries journal)).

Definition quota (capacity : nat) (journal : JournalStore) : option JsError :=
  if (capacity <? journal_size journal)%nat then Some QuotaExceededError else None.

(** The call of [saveJournalEntry] number [n] of a session: the clock and
    the identifier follow [n]. *)
Definition nth_save (n : nat) : SaveArgs :=
  {| arg_browser := {| createThumbnail := Val "data:image/jpeg;base64,AAAA";
                       randomUUID := String (ascii_of_nat n) "-uuid";
                       Date_now := 1700000000000 + Z.of_nat n |};
     arg_mode := scalping;
     arg_imageFileName := "chart.png";
     arg_analysis := sample_analysis;
     arg_pair := Some "BTCUSD";
     arg_isConfluence := None |}.

(** The storage after the writes [writes], in order. *)
Definition with_writes (ls : LocalStorage) (writes : list JournalStore) : LocalStorage :=
  {| item := item_after (setItem_throws ls) writes (item ls);
     getItem_throws := getItem_throws ls;
     setItem_throws := setItem_throws ls;
     removeItem_throws := removeItem_throws ls;
     setItem_calls := setItem_calls ls ++ writes |}.

(** The same call with [createThumbnail] settling as [r]. *)
Definition with_thumbnail (r : Res string) (a : SaveArgs) : SaveArgs :=
  {| arg_browser := {| createThumbnail := r;
                       randomUUID := randomUUID (arg_browser a);
                       Date_now := Date_now (arg_browser a) |};
     arg_mode := arg_mode a;
     arg_imageFileName := arg_imageFileName a;
     arg_analysis := arg_analysis a;
     arg_pair := arg_pair a;
     arg_isConfluence := arg_isConfluence a |}.

(** Two entries of an earlier session, [older] the older one. *)
Definition older : JournalEntry.t := sample_entry "older" 1600000000000 scalping (Some WIN) None.
Definition newer : JournalEntry.t := sample_entry "newer" 1650000000000 swing (Some LOSS) None.

(** A storage holding these two entries, with room for one entry without
    thumbnail and no more. *)
Definition tight_storage : LocalStorage :=
  storage (ItemJson (DocStore {| entries := [newer; older] |})) (quota 110).

(** A storage whose item is the text [{}]. *)
Definition storage_with_empty_object : LocalStorage :=
  storage (ItemJson DocNoEntries) no_quota.

(** A storage holding the two entries that is full: the journal as it is
    fits, six characters more do not. *)
Definition full_storage : LocalStorage :=
  storage (ItemJson (DocStore {| entries := [newer; older] |})) (quota 280).

(** A storage holding the two entries with room to spare. *)
Definition roomy_storage : LocalStorage :=
  storage (ItemJson (DocStore {| entries := [newer; older] |})) no_quota.

(** The entries that a reader finds in an item. *)
Definition entries_in (it : StoredItem) : list JournalEntry.t :=
  match it with
  | ItemJson (DocStore j) => entries j
  | _ => []
  end.

(** A browser in which the journal's key has never been written and whose
    storage calls never throw. *)
Definition fresh_storage : LocalStorage := storage ItemAbsent no_quota.

(** *** Vocabulary of the statistics *)

(** The entry's outcome is WIN or LOSS. *)
Definition won_or_lost (e : JournalEntry.t) : Prop :=
  JournalEntry.outcome e = Some WIN \/ JournalEntry.outcome e = Some LOSS.

(** The time that orders the entries for the streak: [outcomeUpdatedAt] if
    present, else the creation [timestamp]. *)
Definition relevant_time (e : JournalEntry.t) : Z :=
  match JournalEntry.outcomeUpdatedAt e with
  | Some t => t
  | None => JournalEntry.timestamp e
  end.

(** Every entry comes before the entries that are not more recent. *)
Definition newest_first (l : list JournalEntry.t) : Prop :=
  StronglySorted (fun a b => relevant_time b <= relevant_time a) l.

(** The order that [by_outcome_time_desc] asks for. *)
Definition later_first (a b : JournalEntry.t) : Prop :=
  outcome_time b <= outcome_time a.

(** The clock that stamped an outcome update did not read 0, the first
    millisecond of 1970. *)
Definition stamped_after_epoch (e : JournalEntry.t) : Prop :=
  JournalEntry.outcomeUpdatedAt e <> Some 0.

(** The win rate of a mode in the statistics. *)
Definition win_rate_of_mode (m : Mode) (stats : JournalStats) : Q :=
  match m with
  | scalping => winRateScalping stats
  | swing => winRateSwing stats
  end.

(** [entries.filter(p).length] *)
Definition count (p : JournalEntry.t -> bool) (l : list JournalEntry.t) : nat :=
  length (List.filter p l).


(** Four entries with the outcomes WIN, WIN, LOSS, WIN, newest first; the
    newest one had its outcome set after it was created. *)
Definition four_outcomes : list JournalEntry.t :=
  [ sample_entry "d" 1700000003000 scalping (Some WIN) (Some 1700000009000);
    sample_entry "c" 1700000002000 swing (Some WIN) None;
    sample_entry "b" 1700000001000 scalping (Some LOSS) None;
    sample_entry "a" 1700000000000 scalping (Some WIN) None ].

(** A win whose [outcomeUpdatedAt] is 0 and a loss that was never
    re-stamped, created a second before the win. *)
Definition zero_stamped : list JournalEntry.t :=
  [ sample_entry "w" 1700000002000 scalping (Some WIN) (Some 0);
    sample_entry "l" 1700000001000 scalping (Some LOSS) None ].

(** Scalping entries with the outcomes WIN, BREAKEVEN, LOSS, PENDING and
    one without outcome. *)
Definition scalping_only : list JournalEntry.t :=
  [ sample_entry "e" 1700000004000 scalping None None;
    sample_entry "d" 1700000003000 scalping (Some PENDING) None;
    sample_entry "c" 1700000002000 scalping (Some LOSS) None;
    sample_entry "b" 1700000001000 scalping (Some BREAKEVEN) None;
    sample_entry "a" 1700000000000 scalping (Some WIN) None ].

End JournalSpec.

(* ===================================================================== *)
(** ** retryUtils.ts: the message shown for an error *)
(* ===================================================================== *)

Module RetryMessages.
Import Retry.

(** A text as a condition: the empty text is falsy. *)
Definition truthy (s : string) : bool :=
  match s with
  | EmptyString => false
  | String _ _ => true
  end.

Definition getErrorMessage (error : ErrValue) : string :=
  if not_an_object error then "Unknown error occurred"
  else
    match error with
    | EPrim _ => "Unknown error occurred"
    | EObj status msg =>
        (* errorObj.message?.toLowerCase() || '' *)
        let message := match msg with
                       | Some m => toLowerCase m
                       | None => EmptyString
                       end in
        if status_is status 429 then
          if includes message "daily"
          then "API quota exceeded for today. Please try again tomorrow or enable billing in Google AI Studio."
          else "Rate limit exceeded. System is retrying automatically..."
        else if status_is status 503 then
          "Gemini service temporarily unavailable. Retrying automatically..."
        else
          (* errorObj.message || 'Analysis request failed' *)
          match msg with
          | Some m => if truthy m then m else "Analysis request failed"
          | None => "Analysis request failed"
          end
    end.

End RetryMessages.

(* ===================================================================== *)
(** ** components/TradingJournal.tsx and components/PerformanceStats.tsx *)
(* ===================================================================== *)

Module Views.
Import Journal.

(** ['ALL' | 'WIN' | 'LOSS' | 'BREAKEVEN' | 'PENDING'] *)
Inductive FilterType :=
| ALL
| Only (outcome : TradeOutcome).

(** [e.outcome || 'PENDING'] *)
Definition outcome_or_pending (e : JournalEntry.t) : TradeOutcome :=
  match JournalEntry.outcome e with
  | Some o => o
  | None => PENDING
  end.

(** The list that the journal panel shows under a filter. *)
Definition filteredEntries (entries : list JournalEntry.t) (filter : FilterType)
  : list JournalEntry.t :=
  match filter with
  | ALL => entries
  | Only f => List.filter (fun e => TradeOutcome_eqb (outcome_or_pending e) f) entries
  end.

(** [const resolvedTrades = winCount + lossCount + breakEvenCount] of the
    statistics panel. *)
Definition resolvedTrades (stats : JournalStats) : nat :=
  winCount stats + lossCount stats + breakEvenCount stats.

(** The width of the win-rate bar, in percent: [Math.min(winRate, 100)]. *)
Definition bar_width (stats : JournalStats) : Q :=
  Qmin (winRate stats) 100.

End Views.

(* ===================================================================== *)
(** ** app/api/analyze/route.ts *)
(* ===================================================================== *)

(** A [File] of the browser or of a form, as far as the program reads it. *)
Record File := {
  file_name : string;
  file_size : Z;
  file_type : string;
  lastModified : Z
}.

Module Route.
Import Retry RetryMessages.

(** What [FormData.get] gives for a field that is present: a text or a
    file. *)
Inductive FormValue :=
| FText (s : string)
| FFile (f : File).

(** [formData.get(name)]; [None] is [null]. *)
Definition FormData := string -> option FormValue.

(** A form value as a condition: [null] and the empty text are falsy. *)
Definition js_truthy (v : option FormValue) : bool :=
  match v with
  | None => false
  | Some (FText s) => truthy s
  | Some (FFile _) => true
  end.

(** [a || b] *)
Definition js_or (a b : option FormValue) : option FormValue :=
  if js_truthy a then a else b.

(** [process.env] *)
Record Env := {
  DEMO_MODE : option string;
  GEMINI_API_KEY : option string
}.

Inductive PromptTemplate :=
| SCALPING_PROMPT_SINGLE
| SWING_PROMPT_SINGLE
| SCALPING_PROMPT_MULTI
| SWING_PROMPT_MULTI.

(** [fullPrompt]: a template and the context that replaces its
    placeholder.  The text of the templates and the replacement itself are
    not modelled. *)
Record Prompt := {
  promptTemplate : PromptTemplate;
  context : FormValue
}.

(** [interface ImagePart]: [data] is the base64 text of the content of
    [source]. *)
Record ImagePart := {
  source : File;
  mimeType : string
}.

Definition MOCK_RESPONSE_SINGLE : Analysis.AnalysisResponse :=
  {| Analysis.decision := Analysis.BUY;
     Analysis.confidence_score := Analysis.High;
     Analysis.is_demo := Some true;
     Analysis.analysis_summary :=
       "Pola Bullish Engulfing yang kuat terdeteksi di area Support. Volume mengkonfirmasi pergerakan naik.";
     Analysis.trading_plan :=
       {| Analysis.entry_area := "105.50 - 105.80";
          Analysis.target_price := "108.00";
          Analysis.stop_loss := "104.90";
          Analysis.risk_reward_ratio := "1:2.5" |} |}.

Definition MOCK_RESPONSE_MULTI : Analysis.AnalysisResponse :=
  {| Analysis.decision := Analysis.BUY;
     Analysis.confidence_score := Analysis.High;
     Analysis.is_demo := Some true;
     Analysis.analysis_summary :=
       "KONFLUENSI TERKONFIRMASI: H4 (Gambar 1) menunjukkan Breakout bersih dari Bullish Flag. M5 (Gambar 2) baru saja Retest level breakout dengan Pinbar. Setup sangat solid.";
     Analysis.trading_plan :=
       {| Analysis.entry_area := "Entry Agresif di 2050";
          Analysis.target_price := "2100 (Swing High H4)";
          Analysis.stop_loss := "Di bawah 2040 (Low M5)";
          Analysis.risk_reward_ratio := "1:5" |} |}.

(** The JSON body of a response. *)
Inductive Body :=
| ErrorBody (error : string)
| AnalysisBody (analysis : Analysis.AnalysisResponse).

Record Response := {
  status : Z;
  body : Body
}.

(** [NextResponse.json(body)] and [NextResponse.json(body, { status })] *)
Definition NextResponse_json (b : Body) (init : option Z) : Response :=
  {| status := match init with Some s => s | None => 200 end; body := b |}.

(** What handling a request amounts to: the response, the pauses and the
    calls of the model in their order, and the state of the model's
    service afterwards. *)
Record Handled (St : Type) := {
  response : Response;
  events : list Event;
  after : St
}.
Arguments response {St} _.
Arguments events {St} _.
Arguments after {St} _.

(** [imageFile.arrayBuffer()]: a text has no such method, the call throws. *)
Definition arrayBuffer (v : option FormValue) : option ImagePart :=
  match v with
  | Some (FFile f) => Some {| source := f; mimeType := file_type f |}
  | _ => None
  end.

(** [mode === "scalping"] *)
Definition is_scalping (mode : option FormValue) : bool :=
  match mode with
  | Some (FText s) => String.eqb s "scalping"
  | _ => false
  end.

(** [process.env.DEMO_MODE === 'true'] *)
Definition isDemoMode (env : Env) : bool :=
  match DEMO_MODE env with
  | Some s => String.eqb s "true"
  | None => false
  end.

(** [!apiKey] *)
Definition no_apiKey (env : Env) : bool :=
  match GEMINI_API_KEY env with
  | Some s => negb (truthy s)
  | None => true
  end.

Section Handler.
Context {St : Type}.

(** The body of the operation given to [withRetry]: the call of the model
    with the prompt and the images, settling with the text of the answer
    or with what was thrown. *)
Variable generateContent : Prompt -> list ImagePart -> St -> (ErrValue + string) * St.

(** Removing the code fences of the answer, [JSON.parse] and the schema's
    [parse], together: [None] when one of the two throws. *)
Variable parse : string -> option Analysis.AnalysisResponse.

(** The [catch] around the whole handler. *)
Definition internal_error (s : St) : Handled St :=
  {| response := NextResponse_json (ErrorBody "Internal server error.") (Some 500);
     events := []; after := s |}.

(** [req] is [None] when [req.formData()] throws. *)
Definition POST (env : Env) (req : option FormData) (s : St) : Handled St :=
  match req with
  | None => internal_error s
  | Some formData =>
      let mode := formData "mode" in
      let context :=
        match js_or (formData "context")
                    (Some (FText "No additional context provided.")) with
        | Some v => v
        | None => FText "No additional context provided."
        end in
      let imageFile1 := js_or (formData "image") (formData "image_htf") in
      let imageFile2 := formData "image_ltf" in
      if negb (js_truthy imageFile1) || negb (js_truthy mode) then
        {| response := NextResponse_json (ErrorBody "Missing required image or mode.")
                                         (Some 400);
           events := []; after := s |}
      else
        let isMultiTimeframe := js_truthy imageFile2 in
        if isDemoMode env then
          {| response :=
               NextResponse_json
                 (AnalysisBody (if isMultiTimeframe then MOCK_RESPONSE_MULTI
                                else MOCK_RESPONSE_SINGLE)) None;
             events := [Sleep 2000]; after := s |}
        else if no_apiKey env then
          {| response := NextResponse_json (ErrorBody "API key not configured.")
                                           (Some 500);
             events := []; after := s |}
        else
          let promptTemplate :=
            if isMultiTimeframe then
              if is_scalping mode then SCALPING_PROMPT_MULTI else SWING_PROMPT_MULTI
            else
              if is_scalping mode then SCALPING_PROMPT_SINGLE else SWING_PROMPT_SINGLE in
          let fullPrompt := {| promptTemplate := promptTemplate; context := context |} in
          match arrayBuffer imageFile1 with
          | None => internal_error s
          | Some part1 =>
              match (if js_truthy imageFile2 && isMultiTimeframe
                     then option_map (fun part2 => [part1; part2]) (arrayBuffer imageFile2)
                     else Some [part1]) with
              | None => internal_error s
              | Some imageParts =>
                  let run := withRetry (generateContent fullPrompt imageParts) s in
                  let responseText :=
                    match outcome run with
                    | Returned text => text
                    | Thrown _ => EmptyString
                    end in
                  let lastError :=
                    match outcome run with
                    | Returned _ => EPrim PNull
                    | Thrown e => e
                    end in
                  if negb (truthy responseText) then
                    {| response :=
                         NextResponse_json (ErrorBody (getErrorMessage lastError))
                                           (Some 503);
                       events := trace run; after := final run |}
                  else
                    match parse responseText with
                    | Some validatedResponse =>
                        {| response :=
                             NextResponse_json (AnalysisBody validatedResponse) None;
                           events := trace run; after := final run |}
                    | None =>
                        {| response :=
                             NextResponse_json
                               (ErrorBody "Failed to parse AI response.") (Some 500);
                           events := trace run; after := final run |}
                    end
              end
          end
  end.
End Handler.

End Route.

(* ===================================================================== *)
(** ** utils/imageCompression.ts *)
(* ===================================================================== *)

Module ImageCompression.
Import RetryMessages.

(** How a promise ends; [Pending] is a promise that never settles. *)
Inductive Promise (A : Type) :=
| Resolved (value : A)
| Rejected
| Pending.
Arguments Resolved {A} _.
Arguments Rejected {A}.
Arguments Pending {A}.

(** What the browser does with the file. *)
Record Browser := {
  (** [FileReader.readAsDataURL]: [onload] ([true]) or [onerror] *)
  reader_loads : bool;
  (** [Image]: its width and height once loaded, [None] when it fails to
      load *)
  image_size : option (Z * Z);
  (** [canvas.getContext('2d')] is not [null] *)
  has_context : bool;
  (** [canvas.toBlob] for a canvas of this width and height: the size of
      the blob, [None] for [null] *)
  toBlob : Z -> Z -> option Z;
  Date_now : Z
}.

Definition MAX_WIDTH : Z := 1920.

(** [Math.round(a / b)] for [0 <= a] and [0 < b]: the nearest integer, the
    upper one of two.  The quotient of the code is a double; for an
    image's dimensions it is far from the double's precision. *)
Definition Math_round_div (a b : Z) : Z := (2 * a + b) / (2 * b).

(** The width and height of the canvas for an image of this width and
    height. *)
Definition canvas_size (width height : Z) : Z * Z :=
  if width >? MAX_WIDTH
  then (MAX_WIDTH, Math_round_div (height * MAX_WIDTH) width)
  else (width, height).

(** [[^/.]] *)
Definition not_slash_or_dot (c : ascii) : bool :=
  negb (Ascii.eqb c "/") && negb (Ascii.eqb c ".").

Fixpoint all_chars (p : ascii -> bool) (s : string) : bool :=
  match s with
  | EmptyString => true
  | String c rest => p c && all_chars p rest
  end.

(** [s] as a whole matches [\.[^/.]+] *)
Definition is_extension (s : string) : bool :=
  match s with
  | String c rest => Ascii.eqb c "." && truthy rest && all_chars not_slash_or_dot rest
  | EmptyString => false
  end.

(** [name.replace(/\.[^/.]+$/, '')]: the text without the leftmost suffix
    that matches. *)
Fixpoint strip_extension (name : string) : string :=
  match name with
  | EmptyString => EmptyString
  | String c rest =>
      if is_extension name then EmptyString else String c (strip_extension rest)
  end.

(** The name of the compressed file. *)
Definition compressed_name (name : string) : string :=
  strip_extension name +:+ ".jpg".

Definition compressImage (browser : Browser) (file : File) : Promise File :=
  if (file_size file <? 1024 * 1024)%Z then Resolved file
  else if negb (reader_loads browser) then Rejected
  else
    match image_size browser with
    | None => Pending
    | Some (width, height) =>
        let size := canvas_size width height in
        if negb (has_context browser) then Rejected
        else
          match toBlob browser (fst size) (snd size) with
          | None => Rejected
          | Some blob_size =>
              Resolved {| file_name := compressed_name (file_name file);
                          file_type := "image/jpeg";
                          file_size := blob_size;
                          lastModified := Date_now browser |}
          end
    end.

End ImageCompression.

(* ===================================================================== *)
(** ** Vocabulary of the further statements *)
(* ===================================================================== *)

Module MoreSpec.
Import Retry RetrySpec Journal JournalSpec.

(** The entries whose id is not [id], in their order. *)
Definition without_id (id : string) (l : list JournalEntry.t) : list JournalEntry.t :=
  List.filter (fun e => negb (String.eqb (JournalEntry.id e) id)) l.

(** What identifies an entry for good: its id and its creation time. *)
Definition identity (e : JournalEntry.t) : string * Z :=
  (JournalEntry.id e, JournalEntry.timestamp e).

(** The identities of the stored entries, in their order. *)
Definition trail (ls : LocalStorage) : list (string * Z) :=
  identity <$> stored_entries ls.

(** A storage whose [setItem] always throws. *)
Definition rejects_all (ls : LocalStorage) : Prop :=
  forall journal, setItem_throws ls journal <> None.

(** The identity that an operation adds: the one of the entry that
    [saveJournalEntry] creates. *)
Definition added_identity (o : Op) : list (string * Z) :=
  match o with
  | SaveEntry b _ _ _ _ _ => [(randomUUID b, Date_now b)]
  | _ => []
  end.

(** The sum of the pauses of a trace. *)
Definition total_sleep (tr : list Event) : Z :=
  fold_right Z.add 0 (sleeps tr).

(** The sum of a list of rationals. *)
Definition Qsum (l : list Q) : Q := fold_right Qplus 0%Q l.

(** The [pnl] values that are defined, in the order of the entries. *)
Definition defined_pnls (l : list JournalEntry.t) : list Q :=
  omap JournalEntry.pnl l.

(** 1 when the condition holds, else 0. *)
Definition indicator (b : bool) : nat := if b then 1 else 0.

(** A storage that refuses every write, holding two entries. *)
Definition readonly_storage : LocalStorage :=
  storage (ItemJson (DocStore {| entries := [newer; older] |}))
          (fun _ => Some QuotaExceededError).

(** Two entries that the statistics cannot tell apart. *)
Definition same_for_stats (e e' : JournalEntry.t) : Prop :=
  JournalEntry.outcome e = JournalEntry.outcome e'
  /\ JournalEntry.mode e = JournalEntry.mode e'
  /\ JournalEntry.timestamp e = JournalEntry.timestamp e'
  /\ JournalEntry.outcomeUpdatedAt e = JournalEntry.outcomeUpdatedAt e'
  /\ JournalEntry.pnl e = JournalEntry.pnl e'.

(** The statistics of the empty journal. *)
Definition no_stats : JournalStats :=
  {| total := 0; winCount := 0; lossCount := 0; breakEvenCount := 0;
     pendingCount := 0; winRate := 0; winRateScalping := 0; winRateSwing := 0;
     currentStreak := 0; streakType := NONE; totalPnl := 0; avgPnl := 0 |}.

(** The statistics [stats] with one more pending entry. *)
Definition one_more_pending (stats : JournalStats) : JournalStats :=
  {| total := S (total stats);
     winCount := winCount stats;
     lossCount := lossCount stats;
     breakEvenCount := breakEvenCount stats;
     pendingCount := S (pendingCount stats);
     winRate := winRate stats;
     winRateScalping := winRateScalping stats;
     winRateSwing := winRateSwing stats;
     currentStreak := currentStreak stats;
     streakType := streakType stats;
     totalPnl := totalPnl stats;
     avgPnl := avgPnl stats |}.

(** A storage holding the text [{}] whose calls work. *)
Definition corrupt_storage : LocalStorage := storage (ItemJson DocNoEntries) no_quota.

End MoreSpec.

Module RouteSpec.
Import Retry RetryMessages Route.

(** The request has an image and a mode, as the handler asks. *)
Definition complete (form : FormData) : bool :=
  js_truthy (js_or (form "image") (form "image_htf")) && js_truthy (form "mode").

(** The form with another value for [mode]. *)
Definition with_mode (mode : option FormValue) (form : FormData) : FormData :=
  fun name => if String.eqb name "mode" then mode else form name.

(** The fixed texts of [getErrorMessage]. *)
Definition fixed_messages : list string :=
  [ "API quota exceeded for today. Please try again tomorrow or enable billing in Google AI Studio.";
    "Rate limit exceeded. System is retrying automatically...";
    "Gemini service temporarily unavailable. Retrying automatically...";
    "Analysis request failed";
    "Unknown error occurred" ].

Definition chart : File :=
  {| file_name := "chart.png"; file_size := 20000; file_type := "image/png";
     lastModified := 1700000000000 |}.

(** A request for a swing analysis of one chart. *)
Definition upload : FormData :=
  fun name =>
    if String.eqb name "mode" then Some (FText "swing")
    else if String.eqb name "image_htf" then Some (FFile chart)
    else None.

(** A request without a mode. *)
Definition upload_without_mode : FormData := with_mode None upload.

Definition production : Env :=
  {| DEMO_MODE := None; GEMINI_API_KEY := Some "key" |}.

(** A service that is overloaded; its state counts the calls. *)
Definition overloaded (p : Prompt) (parts : list ImagePart) (n : nat)
  : (ErrValue + string) * nat :=
  (inl (EObj (Some 503) (Some "The model is overloaded")), S n).

(** A service that answers with a text that is not JSON. *)
Definition chatty (p : Prompt) (parts : list ImagePart) (n : nat)
  : (ErrValue + string) * nat :=
  (inr "Sure! Here is the analysis.", S n).

(** A parser that accepts nothing. *)
Definition rejects (text : string) : option Analysis.AnalysisResponse := None.

End RouteSpec.

Module ImageSpec.
Import ImageCompression.

(** A browser in which every step works; the blob has one byte for each
    ten pixels. *)
Definition working_browser (width height : Z) : Browser :=
  {| reader_loads := true;
     image_size := Some (width, height);
     has_context := true;
     toBlob := fun w h => Some (w * h / 10);
     Date_now := 1700000000000 |}.

Definition screenshot : File :=
  {| file_name := "btc.4h.png"; file_size := 3000000; file_type := "image/png";
     lastModified := 1600000000000 |}.

End ImageSpec.

(* ===================================================================== *)
(** ** Properties of the retry wrapper *)
(* ===================================================================== *)

Module RetryProofs.
Import Retry RetrySpec.

(** *** Backoff delays *)

Lemma getBackoffDelay_unfold (k : nat) :
  getBackoffDelay k = Z.min (2000 * 2 ^ Z.of_nat k) 8000.
Proof. reflexivity. Qed.

(** From the third delay on, the cap of 8000 ms applies. *)
Lemma getBackoffDelay_capped (k : nat) :
  (2 <= k)%nat -> getBackoffDelay k = 8000.
Proof.
  intros Hk. rewrite getBackoffDelay_unfold.
  assert (2 ^ 2 <= 2 ^ Z.of_nat k) by (apply Z.pow_le_mono_r; lia).
  change (2 ^ 2) with 4 in *. lia.
Qed.

(** *** Substring search and letter case *)

Lemma prefix_append (a s : string) :
  String.prefix a s = true <-> exists rest, s = a +:+ rest.
Proof.
  revert s. induction a as [|c a IH]; intros [|d s]; simpl.
  - split; [intros _; by exists EmptyString | done].
  - split; [intros _; by exists (String d s) | done].
  - split; [done | intros [rest Hrest]; discriminate].
  - destruct (ascii_dec c d) as [->|Hne].
    + rewrite IH. split; intros [rest Hrest]; exists rest.
      * by rewrite Hrest.
      * by injection Hrest.
    + split; [done | intros [rest Hrest]; injection Hrest; congruence].
Qed.

Lemma includes_unfold (s search : string) :
  includes s search =
  String.prefix search s
  || match s with
     | EmptyString => false
     | String _ rest => includes rest search
     end.
Proof. by destruct s. Qed.

Lemma includes_occurs (s search : string) :
  includes s search = true <->
  exists before after, s = before +:+ search +:+ after.
Proof.
  split.
  - induction s as [|c s IH]; rewrite includes_unfold, orb_true_iff.
    + intros [Hp|Hf]; [|done].
      apply prefix_append in Hp as [rest ->]. by exists EmptyString, rest.
    + intros [Hp|Hi].
      * apply prefix_append in Hp as [rest Hrest]. by exists EmptyString, rest.
      * destruct (IH Hi) as (before & after & ->).
        by exists (String c before), after.
  - intros (before & after & ->).
    induction before as [|c before IH].
    + rewrite includes_unfold, orb_true_iff. left.
      apply prefix_append. by exists after.
    + change (String c before +:+ search +:+ after)
        with (String c (before +:+ search +:+ after)).
      rewrite includes_unfold, orb_true_iff. by right.
Qed.

Lemma toLowerCase_append (a b : string) :
  toLowerCase (a +:+ b) = toLowerCase a +:+ toLowerCase b.
Proof. induction a as [|c a IH]; simpl; [done | by rewrite IH]. Qed.

Lemma toLowerCase_split (s x y : string) :
  toLowerCase s = x +:+ y ->
  exists a b, s = a +:+ b /\ toLowerCase a = x /\ toLowerCase b = y.
Proof.
  revert s. induction x as [|c x IH]; intros s Hs; simpl in Hs.
  - by exists EmptyString, s.
  - destruct s as [|d s]; simpl in Hs; [discriminate|].
    injection Hs as Hc Hrest.
    destruct (IH _ Hrest) as (a & b & -> & Ha & Hb).
    exists (String d a), b. simpl. by rewrite Hc, Ha.
Qed.

Lemma includes_toLowerCase (text keyword : string) :
  toLowerCase keyword = keyword ->
  includes (toLowerCase text) keyword = true <-> contains_ignoring_case text keyword.
Proof.
  intros Hkw. rewrite includes_occurs. split.
  - intros (before & after & H).
    apply toLowerCase_split in H as (a & rest & -> & Ha & Hrest).
    apply toLowerCase_split in Hrest as (found & b & -> & Hfound & Hb).
    exists a, found, b. by rewrite Hkw.
  - intros (before & found & after & -> & Hfound).
    exists (toLowerCase before), (toLowerCase after).
    by rewrite !toLowerCase_append, Hfound, Hkw.
Qed.

Lemma status_is_true (status : option Z) (n : Z) :
  status_is status n = true <-> status = Some n.
Proof.
  destruct status as [s|]; simpl; [|done].
  rewrite Z.eqb_eq. split; congruence.
Qed.

Lemma not_contains_in_empty (keyword : string) :
  keyword <> EmptyString -> toLowerCase keyword = keyword -> ~ contains_ignoring_case EmptyString keyword.
Proof.
  intros Hne Hkw (before & found & after & H & Hfound).
  destruct before; [|discriminate]. destruct found; [|discriminate].
  simpl in Hfound. congruence.
Qed.

Lemma isRetryableError_object (status : option Z) (msg : option string) :
  isRetryableError (EObj status msg) =
  (status_is status 429 || status_is status 503)
  || (includes (lower_message msg) "quota"
      || includes (lower_message msg) "rate limit"
      || includes (lower_message msg) "too many requests").
Proof.
  unfold isRetryableError, lower_message; simpl.
  destruct (status_is status 429 || status_is status 503); [done|].
  simpl. by destruct (_ || _ || _).
Qed.

Lemma includes_lower_message (msg : option string) (keyword : string) :
  keyword <> EmptyString -> toLowerCase keyword = keyword ->
  includes (lower_message msg) keyword = true <->
  exists m, msg = Some m /\ contains_ignoring_case m keyword.
Proof.
  intros Hne Hkw. destruct msg as [m|]; simpl.
  - rewrite includes_toLowerCase by done. split; [eauto|].
    by intros (? & [= <-] & ?).
  - split.
    + intros H. change (includes (toLowerCase EmptyString) keyword = true) in H.
      apply includes_toLowerCase in H; [|done].
      by apply not_contains_in_empty in H.
    + by intros (? & ? & ?).
Qed.

(** C2. For every error value, [isRetryableError] answers [true] exactly
    when the error carries the numeric status 429 or 503, or its message
    contains "quota", "rate limit" or "too many requests" with letter case
    ignored; every other error is classified as not retryable. *)
Theorem isRetryableError_iff (e : ErrValue) :
  (isRetryableError e = true <-> retryable e)
  /\ (isRetryableError e = false <-> ~ retryable e).
Proof.
  assert (Hiff : isRetryableError e = true <-> retryable e).
  { unfold retryable, has_status, message_mentions.
    destruct e as [p|status msg].
    - split; [done|].
      intros [[? ?]|[[? ?]|[(?&?&?&?)|[(?&?&?&?)|(?&?&?&?)]]]]; discriminate.
    - rewrite isRetryableError_object, !orb_true_iff, !status_is_true.
      rewrite !includes_lower_message by done.
      split.
      + intros [[->| ->]|[[(m&->&?)|(m&->&?)]|(m&->&?)]]; eauto 10.
      + intros [[? ?]|[[? ?]|[(?&?&?&?)|[(?&?&?&?)|(?&?&?&?)]]]];
          simplify_eq; eauto 10. }
  split; [exact Hiff|].
  rewrite <- Hiff. destruct (isRetryableError e); intuition congruence.
Qed.

(** *** The retry loop *)

Lemma calls_app (tr tr' : list Event) :
  calls (tr ++ tr') = (calls tr + calls tr')%nat.
Proof.
  induction tr as [|[ms|] tr IH]; simpl; [done | done | by rewrite IH].
Qed.

Section RetryLoop.
Context {St T : Type}.
Variable operation : St -> (ErrValue + T) * St.

Lemma retry_loop_stops (k : nat) :
  forall remaining attempt lastError s tr,
    (k < remaining)%nat ->
    (forall j, (j < k)%nat -> fails_retryably (nth_call operation j s)) ->
    (forall j, (j < k)%nat -> (attempt + j)%nat <> MAX_RETRIES RETRY_CONFIG) ->
    stops_at (attempt + k) (nth_call operation k s) ->
    let r := retry_loop operation remaining attempt lastError s tr in
    outcome r = settle (nth_call operation k s)
    /\ final r = snd (nth_call operation k s)
    /\ calls (trace r) = (calls tr + k + 1)%nat.
Proof.
  induction k as [|k IH]; intros remaining attempt lastError s tr Hk Hfail Hmax Hstop;
    (destruct remaining as [|remaining]; [lia|]); simpl.
  - unfold stops_at, settle in *. simpl in *.
    rewrite Nat.add_0_r in Hstop.
    destruct (operation s) as [[e|v] s'] eqn:Hop; simpl in *.
    + destruct Hstop as [Hnr|Hlast].
      * rewrite Hnr. simpl. rewrite calls_app.
        destruct (0 <? attempt)%nat; rewrite ?calls_app; simpl; repeat split; lia.
      * destruct (isRetryableError e); simpl.
        -- apply Nat.eqb_eq in Hlast. simpl in Hlast. rewrite Hlast. simpl. rewrite calls_app.
           destruct (0 <? attempt)%nat; rewrite ?calls_app; simpl; repeat split; lia.
        -- rewrite calls_app.
           destruct (0 <? attempt)%nat; rewrite ?calls_app; simpl; repeat split; lia.
    + rewrite calls_app.
      destruct (0 <? attempt)%nat; rewrite ?calls_app; simpl; repeat split; lia.
  - destruct (Hfail 0%nat ltac:(lia)) as (e & He & Hre). simpl in He.
    destruct (operation s) as [r0 s'] eqn:Hop. simpl in He. subst r0.
    rewrite Hre. simpl.
    specialize (Hmax 0%nat ltac:(lia)) as Hne. rewrite Nat.add_0_r in Hne.
    apply Nat.eqb_neq in Hne. simpl in Hne. rewrite Hne.
    edestruct (IH remaining (attempt + 1)%nat e s') as (Ho & Hf & Hc).
    + lia.
    + intros j Hj. specialize (Hfail (S j) ltac:(lia)). simpl in Hfail.
      by rewrite Hop in Hfail.
    + intros j Hj. specialize (Hmax (S j) ltac:(lia)). lia.
    + replace (attempt + 1 + k)%nat with (attempt + S k)%nat by lia.
      simpl in Hstop. rewrite Hop in Hstop. exact Hstop.
    + rewrite Ho, Hf, Hc, calls_app.
      destruct (0 <? attempt)%nat; rewrite ?calls_app; simpl; repeat split; lia.
Qed.

Lemma withRetry_stops (s : St) (k : nat) :
  (k <= MAX_RETRIES RETRY_CONFIG)%nat ->
  (forall j, (j < k)%nat -> fails_retryably (nth_call operation j s)) ->
  stops_at k (nth_call operation k s) ->
  outcome (withRetry operation s) = settle (nth_call operation k s)
  /\ final (withRetry operation s) = snd (nth_call operation k s)
  /\ calls (trace (withRetry operation s)) = (k + 1)%nat.
Proof.
  intros Hk Hfail Hstop. unfold withRetry.
  apply (retry_loop_stops k); simpl in *; try done; lia.
Qed.
End RetryLoop.

(** C1. [withRetry] returns the operation's result as soon as an attempt
    succeeds; an attempt that fails with an error that is not retryable has
    that error thrown at once, with no further attempt; and when every
    attempt fails with a retryable error, the fourth attempt (the initial
    one and three retries) is the last and its error is thrown.  Here the
    attempts before attempt [k] failed with retryable errors. *)
Theorem withRetry_propagation {St T : Type}
        (operation : St -> (ErrValue + T) * St) (s : St) (k : nat) :
  (k <= 3)%nat ->
  (forall j, (j < k)%nat -> fails_retryably (nth_call operation j s)) ->
  (forall result,
      fst (nth_call operation k s) = inr result ->
      outcome (withRetry operation s) = Returned result
      /\ calls (trace (withRetry operation s)) = (k + 1)%nat)
  /\ (forall e,
         fst (nth_call operation k s) = inl e ->
         isRetryableError e = false ->
         outcome (withRetry operation s) = Thrown e
         /\ calls (trace (withRetry operation s)) = (k + 1)%nat)
  /\ (forall e,
         fst (nth_call operation k s) = inl e ->
         isRetryableError e = true ->
         k = 3%nat ->
         outcome (withRetry operation s) = Thrown e
         /\ calls (trace (withRetry operation s)) = 4%nat).
Proof.
  intros Hk Hfail.
  assert (Hgen : stops_at k (nth_call operation k s) ->
                 outcome (withRetry operation s) = settle (nth_call operation k s)
                 /\ calls (trace (withRetry operation s)) = (k + 1)%nat).
  { intros Hstop.
    by destruct (withRetry_stops operation s k Hk Hfail Hstop) as (Ho & _ & Hc). }
  unfold stops_at, settle in Hgen.
  split; [|split].
  - intros result Hres. rewrite Hres in Hgen. by apply Hgen.
  - intros e He Hnr. rewrite He in Hgen. apply Hgen. by left.
  - intros e He Hr ->. rewrite He in Hgen. apply Hgen. by right.
Qed.

(** An operation that fails twice with a 429 and then succeeds: the value is
    returned after exactly two retries. *)
Lemma withRetry_propagation_witness :
  outcome (withRetry fails_twice_with_429 0%nat) = Returned "analysis"
  /\ calls (trace (withRetry fails_twice_with_429 0%nat)) = 3%nat.
Proof.
  refine (proj1 (withRetry_propagation fails_twice_with_429 0%nat 2 _ _) "analysis" _).
  - lia.
  - intros [|[|j]] Hj.
    + eexists. split; reflexivity.
    + eexists. split; reflexivity.
    + lia.
  - reflexivity.
Defined.

(** An operation that always fails with status 503 is tried four times. *)
Example withRetry_always_503 :
  outcome (withRetry always_503 0%nat)
  = Thrown (EObj (Some 503) (Some "Service Unavailable"))
  /\ calls (trace (withRetry always_503 0%nat)) = 4%nat
  /\ final (withRetry always_503 0%nat) = 4%nat.
Proof. by vm_compute. Qed.

(** An operation that fails with a plain "boom" is tried once. *)
Example withRetry_always_boom :
  outcome (withRetry always_boom 0%nat) = Thrown (EObj None (Some "boom"))
  /\ calls (trace (withRetry always_boom 0%nat)) = 1%nat
  /\ sleeps (trace (withRetry always_boom 0%nat)) = [].
Proof. by vm_compute. Qed.

(** Every run is an invocation followed by at most three retries, each after
    its backoff delay. *)
Lemma withRetry_trace {St T : Type} (operation : St -> (ErrValue + T) * St) (s : St) :
  exists retries,
    (retries <= 3)%nat
    /\ trace (withRetry operation s) = retry_trace retries
    /\ sleeps (trace (withRetry operation s)) = take retries [2000; 4000; 8000].
Proof.
  unfold withRetry. simpl.
  repeat match goal with
         | |- context [match ?o ?x with (_, _) => _ end] =>
             destruct (o x) as [[?|?] ?]; simpl
         | |- context [isRetryableError ?e] =>
             destruct (isRetryableError e); simpl
         end;
    first [ by exists 0%nat; repeat split; lia
          | by exists 1%nat; repeat split; lia
          | by exists 2%nat; repeat split; lia
          | by exists 3%nat; repeat split; lia ].
Qed.

(** C3. [getBackoffDelay k] is [min (2000 * 2^k) 8000] for every natural
    [k]: 2000, 4000, 8000 for 0, 1, 2 and 8000 again (capped) for 3; and a
    run of [withRetry] pauses for exactly these delays before its retries
    1, 2 and 3. *)
Theorem getBackoffDelay_schedule :
  (forall k : nat, getBackoffDelay k = Z.min (2000 * 2 ^ Z.of_nat k) 8000)
  /\ getBackoffDelay 0 = 2000
  /\ getBackoffDelay 1 = 4000
  /\ getBackoffDelay 2 = 8000
  /\ getBackoffDelay 3 = 8000
  /\ (forall (St T : Type) (operation : St -> (ErrValue + T) * St) (s : St),
        exists retries,
          (retries <= 3)%nat
          /\ trace (withRetry operation s) = retry_trace retries
          /\ sleeps (trace (withRetry operation s))
             = take retries [getBackoffDelay 0; getBackoffDelay 1; getBackoffDelay 2]).
Proof.
  split; [exact getBackoffDelay_unfold|].
  repeat split; try reflexivity.
  intros St T operation s. apply withRetry_trace.
Qed.

End RetryProofs.

(* ===================================================================== *)
(** ** Properties of the journal *)
(* ===================================================================== *)

Module JournalProofs.
Import Journal JournalSpec.

(** *** Reading the journal *)

Lemma getJournal_value (ls : LocalStorage) :
  getJournal ls =
  (Val match getItem_throws ls with
       | Some _ => empty_store
       | None => match item ls with
                 | ItemJson doc => doc
                 | _ => empty_store
                 end
       end, ls).
Proof.
  unfold getJournal, try_catch, bind, getItem, lift, ret.
  destruct (getItem_throws ls); [done|].
  by destruct (item ls).
Qed.

Lemma journal_read_value (ls : LocalStorage) :
  journal_read ls =
  match getItem_throws ls with
  | Some _ => Val []
  | None => match item ls with
            | ItemJson doc => entries_of doc
            | _ => Val []
            end
  end.
Proof.
  unfold journal_read. rewrite getJournal_value. simpl.
  destruct (getItem_throws ls); [done|]. by destruct (item ls).
Qed.

(** What an operation reads is what the storage holds, or nothing. *)
Lemma journal_read_stored (ls : LocalStorage) (old : list JournalEntry.t) :
  journal_read ls = Val old -> old = stored_entries ls \/ old = [].
Proof.
  rewrite journal_read_value. unfold stored_entries.
  destruct (getItem_throws ls); [intros [= <-]; by right|].
  destruct (item ls) as [| | |[j| |]]; simpl; intros [= <-]; auto.
Qed.

Lemma getJournalStats_value (ls : LocalStorage) :
  getJournalStats ls =
  (match journal_read ls with
   | Val entries => Val (computeStats entries)
   | Exn e => Exn e
   end, ls).
Proof.
  unfold getJournalStats, journal_read, bind, lift, ret.
  rewrite getJournal_value. simpl.
  by destruct (entries_of _).
Qed.

(** The storage holds the text [{}]: reading it gives a value without a
    list of entries, and the statistics throw. *)
Lemma getJournal_empty_object :
  fst (getJournal storage_with_empty_object) = Val DocNoEntries
  /\ fst (getJournalStats storage_with_empty_object) = Exn TypeError
  /\ ~ (exists journal, fst (getJournal storage_with_empty_object) = Val (DocStore journal))
  /\ ~ (exists stats, fst (getJournalStats storage_with_empty_object) = Val stats).
Proof.
  repeat split; try reflexivity; intros [x Hx]; vm_compute in Hx; discriminate.
Qed.

(** C6, amended. [getJournal] never throws and leaves the storage as it
    is.  When the item is absent, empty, unreadable or not valid JSON it
    returns the empty list, and [getJournalStats] returns the statistics of
    the empty list; when the item is valid JSON, [getJournal] returns the
    parsed value as it is, and for a value of the journal's shape
    [getJournalStats] returns the statistics of its entries. *)
Theorem getJournal_never_throws (ls : LocalStorage) :
  (exists doc, getJournal ls = (Val doc, ls))
  /\ (getItem_throws ls <> None
      \/ item ls = ItemAbsent \/ item ls = ItemEmpty \/ item ls = ItemUnparseable ->
      fst (getJournal ls) = Val (DocStore {| entries := [] |})
      /\ fst (getJournalStats ls) = Val (computeStats []))
  /\ (forall doc,
         getItem_throws ls = None -> item ls = ItemJson doc ->
         fst (getJournal ls) = Val doc)
  /\ (forall journal,
         getItem_throws ls = None -> item ls = ItemJson (DocStore journal) ->
         fst (getJournalStats ls) = Val (computeStats (entries journal))).
Proof.
  split; [|split; [|split]].
  - rewrite getJournal_value. eauto.
  - intros H. rewrite getJournalStats_value, journal_read_value, getJournal_value.
    simpl. destruct (getItem_throws ls); [done|].
    destruct H as [H|[->|[->| ->]]]; done.
  - intros doc Hget Hitem. by rewrite getJournal_value, Hget, Hitem.
  - intros journal Hget Hitem.
    by rewrite getJournalStats_value, journal_read_value, Hget, Hitem.
Qed.

(** A storage whose item is half a JSON text reads as the empty journal. *)
Lemma getJournal_never_throws_witness :
  fst (getJournal (storage ItemUnparseable no_quota)) = Val (DocStore {| entries := [] |})
  /\ fst (getJournalStats (storage ItemUnparseable no_quota)) = Val (computeStats []).
Proof.
  apply (proj1 (proj2 (getJournal_never_throws (storage ItemUnparseable no_quota)))).
  right; right; right. reflexivity.
Defined.

(** *** Writing the journal *)

Lemma with_writes_nil (ls : LocalStorage) : with_writes ls [] = ls.
Proof. destruct ls. unfold with_writes. simpl. by rewrite app_nil_r. Qed.

Lemma item_after_app throws (w1 w2 : list JournalStore) (it : StoredItem) :
  item_after throws (w1 ++ w2) it = item_after throws w2 (item_after throws w1 it).
Proof. unfold item_after. by rewrite fold_left_app. Qed.

Lemma with_writes_app (ls : LocalStorage) (w1 w2 : list JournalStore) :
  with_writes (with_writes ls w1) w2 = with_writes ls (w1 ++ w2).
Proof.
  unfold with_writes. simpl. by rewrite item_after_app, app_assoc.
Qed.

Lemma setItem_value (journal : JournalStore) (ls : LocalStorage) :
  setItem journal ls =
  (match setItem_throws ls journal with
   | Some e => Exn e
   | None => Val tt
   end, with_writes ls [journal]).
Proof.
  unfold setItem, with_writes. simpl.
  by destruct (setItem_throws ls journal).
Qed.

(** The persistence step never throws; it makes the writes
    [persist_writes], leaves the journal object as [persist_journal] and
    reports [persist_saved]. *)
Lemma saveJournalToStorage_value (journal : JournalStore) (ls : LocalStorage) :
  saveJournalToStorage journal ls =
  (Val (persist_saved (setItem_throws ls) journal,
        persist_journal (setItem_throws ls) journal),
   with_writes ls (persist_writes (setItem_throws ls) journal)).
Proof.
  unfold saveJournalToStorage, try_catch, bind, ret.
  unfold persist_saved, persist_journal, persist_writes.
  rewrite setItem_value.
  destruct (setItem_throws ls journal) as [e|] eqn:Hfirst; simpl.
  - destruct (is_quota_exceeded e); simpl; [|by rewrite Hfirst].
    destruct (1 <? length (entries journal))%nat; simpl; [|by rewrite Hfirst].
    rewrite setItem_value, with_writes_app. simpl.
    by destruct (setItem_throws ls {| entries := removelast (entries journal) |}).
  - by rewrite Hfirst.
Qed.

Lemma persist_writes_head throws (journal : JournalStore) :
  exists more, persist_writes throws journal = journal :: more.
Proof.
  unfold persist_writes. destruct (throws journal); [|by exists []].
  destruct (_ && _); eauto.
Qed.

(** The first write of a call is the list with the new entry in front. *)
Lemma save_writes_head throws (entry : JournalEntry.t) (old : list JournalEntry.t) :
  exists more,
    save_writes throws entry old
    = {| entries := keep_max_entries (entry :: old) |} :: more.
Proof.
  unfold save_writes.
  destruct (persist_writes_head throws {| entries := keep_max_entries (entry :: old) |})
    as [more ->].
  eauto.
Qed.

(** One call of [saveJournalEntry]: nothing is thrown; when the journal
    cannot be read as a list the storage is left alone, otherwise the writes
    are [save_writes]. *)
Lemma save_value (a : SaveArgs) (ls : LocalStorage) :
  save a ls =
  (Val tt,
   match journal_read ls with
   | Val old => with_writes ls (save_writes (setItem_throws ls) (entry_of a) old)
   | Exn _ => ls
   end).
Proof.
  unfold save, saveJournalEntry, journal_read, entry_of, thumbnail_of, save_writes.
  unfold try_catch at 1. unfold bind at 1.
  assert (Hthumb :
    try_catch (lift (createThumbnail (arg_browser a))) (fun _ => ret EmptyString) ls =
    (Val match createThumbnail (arg_browser a) with Val t => t | Exn _ => EmptyString end, ls)).
  { unfold try_catch, lift, ret. by destruct (createThumbnail (arg_browser a)). }
  rewrite Hthumb. clear Hthumb.
  set (thumbnail := match createThumbnail (arg_browser a) with Val t => t | Exn _ => EmptyString end).
  unfold bind at 1. rewrite getJournal_value. simpl fst.
  set (doc := match getItem_throws ls with Some _ => _ | None => _ end).
  unfold bind at 1, lift at 1.
  destruct (entries_of doc) as [old|e]; [|done].
  set (entry := new_entry _ _ _ _ _ _ _).
  assert (Hthumbnail : JournalEntry.imageThumbnail entry = thumbnail) by done.
  unfold bind at 1. rewrite saveJournalToStorage_value. simpl fst. simpl snd.
  rewrite Hthumbnail.
  destruct (negb _ && truthy_string thumbnail).
  - unfold bind, ret. rewrite saveJournalToStorage_value. simpl.
    by rewrite with_writes_app.
  - unfold ret. by rewrite app_nil_r.
Qed.

(** A call that finds two entries in a storage with room for one entry
    without thumbnail: four writes are attempted, the last one is accepted,
    and both older entries are gone.  The ladder of the specification stops
    after three writes and drops one entry at most. *)
Lemma saveJournalEntry_fourth_write :
  let entry := entry_of (nth_save 3) in
  let after := snd (save (nth_save 3) tight_storage) in
  setItem_calls after =
    [ {| entries := [entry; newer; older] |};
      {| entries := [entry; newer] |};
      {| entries := [clear_thumbnail entry; newer] |};
      {| entries := [clear_thumbnail entry] |} ]
  /\ stored_entries after = [clear_thumbnail entry]
  /\ ~ (setItem_calls after `prefix_of` ladder_of_spec entry [newer; older]).
Proof.
  repeat split.
  intros [k Hk]. apply (f_equal length) in Hk.
  rewrite length_app in Hk. vm_compute in Hk. lia.
Qed.

Lemma persist_writes_length throws (journal : JournalStore) :
  (1 <= length (persist_writes throws journal) <= 2)%nat.
Proof.
  unfold persist_writes. destruct (throws journal) as [e|]; simpl; [|lia].
  destruct (_ && _); simpl; lia.
Qed.

(** C4, amended. [saveJournalEntry] never throws, whatever its arguments
    and the storage.  A thumbnail that cannot be generated counts as the
    empty thumbnail and the entry is saved all the same.  The persistence
    step writes the journal and, after a quota failure of a journal with
    more than one entry, writes it once more without its oldest entry; when
    the step reports failure and the new entry has a thumbnail, the step
    runs once more with that thumbnail cleared (with its own retry without
    the then oldest entry); at most four writes are attempted, and what
    fails after that is swallowed. *)
Theorem saveJournalEntry_never_throws (a : SaveArgs) (ls : LocalStorage) :
  fst (save a ls) = Val tt
  /\ (forall err,
         save (with_thumbnail (Exn err) a) ls = save (with_thumbnail (Val EmptyString) a) ls)
  /\ (forall err old,
         createThumbnail (arg_browser a) = Exn err ->
         journal_read ls = Val old ->
         setItem_throws ls {| entries := keep_max_entries (entry_of a :: old) |} = None ->
         JournalEntry.imageThumbnail (entry_of a) = EmptyString
         /\ stored_entries (snd (save a ls)) = keep_max_entries (entry_of a :: old))
  /\ (forall old,
         journal_read ls = Val old ->
         snd (save a ls)
         = with_writes ls (save_writes (setItem_throws ls) (entry_of a) old)
         /\ (1 <= length (save_writes (setItem_throws ls) (entry_of a) old) <= 4)%nat)
  /\ (forall e, journal_read ls = Exn e -> snd (save a ls) = ls).
Proof.
  rewrite !save_value. simpl.
  split; [done|]. split; [|split; [|split]].
  - intros err. by rewrite !save_value.
  - intros err old Hthumb Hread Haccept. rewrite Hread.
    assert (Hempty : JournalEntry.imageThumbnail (entry_of a) = EmptyString).
    { unfold entry_of, thumbnail_of. by rewrite Hthumb. }
    split; [done|].
    unfold save_writes, persist_saved, persist_journal, persist_writes.
    rewrite Haccept. simpl. rewrite Haccept. simpl.
    unfold stored_entries. simpl. by rewrite Haccept.
  - intros old Hread. rewrite Hread. split; [done|].
    unfold save_writes. rewrite length_app.
    pose proof (persist_writes_length (setItem_throws ls)
                  {| entries := keep_max_entries (entry_of a :: old) |}).
    destruct (_ && _); simpl; [|lia].
    match goal with
    | |- context [length (persist_writes ?t {| entries := set_first ?e ?l |})] =>
        pose proof (persist_writes_length t {| entries := set_first e l |})
    end.
    lia.
  - intros e Hread. by rewrite Hread.
Qed.

(** In the tight storage above, the call makes the four writes of
    [save_writes]. *)
Lemma saveJournalEntry_never_throws_witness :
  snd (save (nth_save 3) tight_storage)
  = with_writes tight_storage
      (save_writes (quota 110) (entry_of (nth_save 3)) [newer; older])
  /\ (1 <= length (save_writes (quota 110) (entry_of (nth_save 3)) [newer; older]) <= 4)%nat.
Proof.
  apply (proj1 (proj2 (proj2 (proj2
           (saveJournalEntry_never_throws (nth_save 3) tight_storage))))).
  reflexivity.
Defined.

(** *** Updating an outcome *)

Lemma updateJournalOutcome_value (id : string) (outcome : TradeOutcome)
      (notes : option string) (pnl : option Q) (now : Z) (ls : LocalStorage) :
  updateJournalOutcome id outcome notes pnl now ls =
  match journal_read ls with
  | Exn _ => (Val false, ls)
  | Val old =>
      match findIndex_id id old with
      | None => (Val false, ls)
      | Some (entryIndex, e) =>
          let journal :=
            {| entries := <[entryIndex := with_outcome e outcome notes pnl now]> old |} in
          (Val (persist_saved (setItem_throws ls) journal),
           with_writes ls (persist_writes (setItem_throws ls) journal))
      end
  end.
Proof.
  unfold updateJournalOutcome, journal_read, try_catch, bind, lift, ret.
  rewrite getJournal_value. cbv beta iota delta [fst].
  destruct (entries_of _) as [old|e]; [|done].
  destruct (findIndex_id id old) as [[entryIndex e]|]; [|done].
  by rewrite saveJournalToStorage_value.
Qed.

(** The first entry with the id is found. *)
Lemma findIndex_id_first (id : string) (old : list JournalEntry.t)
      (i : nat) (e : JournalEntry.t) :
  old !! i = Some e ->
  JournalEntry.id e = id ->
  (forall j e', (j < i)%nat -> old !! j = Some e' -> JournalEntry.id e' <> id) ->
  findIndex_id id old = Some (i, e).
Proof.
  intros Hi Hid Hfirst. unfold findIndex_id.
  apply list_find_Some. repeat split; [done..|].
  intros j e' Hj Hlt. by apply (Hfirst j e').
Qed.

Lemma findIndex_id_absent (id : string) (old : list JournalEntry.t) :
  Forall (fun e => JournalEntry.id e <> id) old ->
  findIndex_id id old = None.
Proof. intros H. unfold findIndex_id. by apply list_find_None. Qed.

(** The storage is full: giving the newer entry an outcome and longer notes
    is reported as a success, and the older entry is gone; giving the older
    entry an outcome is reported as a success, and that entry is gone.  In
    a storage that refuses every write for another reason than its quota,
    giving the older entry an outcome is reported as a failure and the
    entry is as before. *)
Lemma updateJournalOutcome_drops_oldest :
  (let r := updateJournalOutcome "newer" WIN (Some "stopped out early") None
                                 1700000000000 full_storage in
   fst r = Val true
   /\ stored_entries (snd r)
      = [with_outcome newer WIN (Some "stopped out early") None 1700000000000]
   /\ stored_entries (snd r) !! 1%nat <> stored_entries full_storage !! 1%nat)
  /\ (let r := updateJournalOutcome "older" LOSS (Some "stopped out early") None
                                    1700000000000 full_storage in
      fst r = Val true
      /\ stored_entries (snd r) = [newer])
  /\ (let locked := storage (ItemJson (DocStore {| entries := [newer; older] |}))
                            (fun _ => Some SecurityError) in
      let r := updateJournalOutcome "older" LOSS None None 1700000000000 locked in
      fst r = Val false
      /\ stored_entries (snd r) = [newer; older]
      /\ JournalEntry.outcome older = Some WIN).
Proof. by vm_compute. Qed.

(** What the persistence step reports when its first write is accepted, and
    when it is refused and no entry is dropped to make room. *)
Lemma persist_first_write throws (journal : JournalStore) :
  (throws journal = None ->
   persist_saved throws journal = true
   /\ persist_writes throws journal = [journal])
  /\ (forall err,
         throws journal = Some err ->
         is_quota_exceeded err = false \/ (length (entries journal) <= 1)%nat ->
         persist_saved throws journal = false
         /\ persist_writes throws journal = [journal]).
Proof.
  unfold persist_saved, persist_journal, persist_writes. split.
  - intros Haccept. rewrite Haccept. simpl. by rewrite Haccept.
  - intros err Hrefuse Hno. rewrite Hrefuse.
    assert (is_quota_exceeded err && (1 <? length (entries journal))%nat = false)
      as ->.
    { destruct Hno as [-> | Hlen]; [done|].
      apply andb_false_iff. right. apply Nat.ltb_ge. lia. }
    simpl. by rewrite Hrefuse.
Qed.

(** A run of the persistence step that reports failure has changed
    nothing. *)
Lemma persist_failure_keeps_item throws (journal : JournalStore) (it : StoredItem) :
  persist_saved throws journal = false ->
  item_after throws (persist_writes throws journal) it = it.
Proof.
  unfold persist_saved, persist_journal, persist_writes, item_after.
  destruct (throws journal) as [err|] eqn:Hfirst; simpl; [|by rewrite Hfirst].
  destruct (is_quota_exceeded err && (1 <? length (entries journal))%nat); simpl.
  - rewrite Hfirst.
    by destruct (throws {| entries := removelast (entries journal) |}).
  - by rewrite Hfirst.
Qed.

(** C7, amended. [updateJournalOutcome] with an id present in the journal
    writes the list in which that entry has the outcome, [outcomeUpdatedAt]
    set to the current time, [notes] and [pnl] overwritten only when given,
    every other field and every other entry as before.  When the storage
    accepts this write the call returns [true] and the journal is exactly
    that list.  When the storage refuses it and no entry is dropped to
    make room (the error is not a quota error, or the journal has one
    entry) the call returns [false].  With an absent id it returns [false]
    and leaves the storage as it is.  Whenever the call returns [false],
    the stored journal is as it was. *)
Theorem updateJournalOutcome_frame (ls : LocalStorage) (id : string)
        (outcome : TradeOutcome) (notes : option string) (pnl : option Q) (now : Z)
        (old : list JournalEntry.t) :
  journal_read ls = Val old ->
  (forall (i : nat) (e : JournalEntry.t),
      old !! i = Some e ->
      JournalEntry.id e = id ->
      (forall j e', (j < i)%nat -> old !! j = Some e' -> JournalEntry.id e' <> id) ->
      let e' := with_outcome e outcome notes pnl now in
      let updated := <[i := e']> old in
      let r := updateJournalOutcome id outcome notes pnl now ls in
      (JournalEntry.outcome e' = Some outcome
       /\ JournalEntry.outcomeUpdatedAt e' = Some now
       /\ JournalEntry.notes e' = match notes with
                                  | Some n => Some n
                                  | None => JournalEntry.notes e
                                  end
       /\ JournalEntry.pnl e' = match pnl with
                                | Some p => Some p
                                | None => JournalEntry.pnl e
                                end
       /\ JournalEntry.id e' = JournalEntry.id e
       /\ JournalEntry.timestamp e' = JournalEntry.timestamp e
       /\ JournalEntry.mode e' = JournalEntry.mode e
       /\ JournalEntry.imageThumbnail e' = JournalEntry.imageThumbnail e
       /\ JournalEntry.imageFileName e' = JournalEntry.imageFileName e
       /\ JournalEntry.decision e' = JournalEntry.decision e
       /\ JournalEntry.confidence e' = JournalEntry.confidence e
       /\ JournalEntry.analysis e' = JournalEntry.analysis e
       /\ JournalEntry.pair e' = JournalEntry.pair e
       /\ JournalEntry.isConfluence e' = JournalEntry.isConfluence e)
      /\ (updated !! i = Some e'
          /\ (forall j, j <> i -> updated !! j = old !! j)
          /\ length updated = length old)
      /\ (exists more,
             setItem_calls (snd r)
             = setItem_calls ls ++ {| entries := updated |} :: more)
      /\ (setItem_throws ls {| entries := updated |} = None ->
          fst r = Val true /\ stored_entries (snd r) = updated)
      /\ (forall err,
             setItem_throws ls {| entries := updated |} = Some err ->
             is_quota_exceeded err = false \/ (length old <= 1)%nat ->
             fst r = Val false))
  /\ (Forall (fun e => JournalEntry.id e <> id) old ->
      updateJournalOutcome id outcome notes pnl now ls = (Val false, ls))
  /\ (let r := updateJournalOutcome id outcome notes pnl now ls in
      fst r = Val false ->
      item (snd r) = item ls /\ stored_entries (snd r) = stored_entries ls).
Proof.
  intros Hread. split; [|split].
  - intros i e Hi Hid Hfirst e' updated r.
    split; [by repeat split|].
    split.
    { repeat split.
      - apply list_lookup_insert_eq. by eapply lookup_lt_Some.
      - intros j Hj. by apply list_lookup_insert_ne.
      - apply length_insert. }
    subst r. rewrite updateJournalOutcome_value, Hread.
    rewrite (findIndex_id_first id old i e) by done.
    fold e'. fold updated. cbn [fst snd].
    destruct (persist_first_write (setItem_throws ls) {| entries := updated |})
      as [Haccepted Hrefused].
    split; [|split].
    + destruct (persist_writes_head (setItem_throws ls) {| entries := updated |})
        as [more Hmore].
      exists more. unfold with_writes. cbn [setItem_calls]. by rewrite Hmore.
    + intros Haccept. destruct (Haccepted Haccept) as [-> ->].
      split; [done|]. unfold stored_entries. simpl. by rewrite Haccept.
    + intros err Hrefuse Hno.
      destruct (Hrefused err Hrefuse) as [-> _]; [|done].
      destruct Hno as [Hno|Hlen]; [by left|right].
      cbn [entries]. unfold updated. by rewrite length_insert.
  - intros Habsent. rewrite updateJournalOutcome_value, Hread.
    by rewrite findIndex_id_absent.
  - intros r. subst r. rewrite updateJournalOutcome_value, Hread.
    destruct (findIndex_id id old) as [[entryIndex e]|]; [|done].
    cbv zeta. cbn [fst snd]. intros [= Hsaved].
    assert (item (with_writes ls
                    (persist_writes (setItem_throws ls)
                       {| entries := <[entryIndex := with_outcome e outcome notes pnl now]> old |}))
            = item ls) as Hitem.
    { unfold with_writes. cbn [item]. by apply persist_failure_keeps_item. }
    split; [done|]. unfold stored_entries in *. by rewrite Hitem.
Qed.

(** [updateJournalOutcome(id, 'WIN', undefined, 2.5)] on the older entry,
    in a storage with room: the call returns [true]; the entry has the
    outcome and the pnl and keeps its notes; the newer entry is as before. *)
Lemma updateJournalOutcome_frame_witness :
  let r := updateJournalOutcome "older" WIN None (Some (5 # 2)%Q)
                                1700000000000 roomy_storage in
  fst r = Val true
  /\ stored_entries (snd r)
     = [newer; with_outcome older WIN None (Some (5 # 2)%Q) 1700000000000].
Proof.
  refine (proj1 (proj2 (proj2 (proj2
    (proj1 (updateJournalOutcome_frame roomy_storage "older" WIN None
              (Some (5 # 2)%Q) 1700000000000 [newer; older] _)
           1%nat older _ _ _)))) _).
  - reflexivity.
  - reflexivity.
  - reflexivity.
  - intros [|j] e' Hj He'; [|lia].
    injection He' as <-. discriminate.
  - reflexivity.
Defined.

(** *** Capacity *)

Lemma updateJournalPair_value (id pair' : string) (ls : LocalStorage) :
  updateJournalPair id pair' ls =
  match journal_read ls with
  | Exn _ => (Val false, ls)
  | Val old =>
      match findIndex_id id old with
      | None => (Val false, ls)
      | Some (entryIndex, e) =>
          let journal := {| entries := <[entryIndex := with_pair e pair']> old |} in
          (Val (persist_saved (setItem_throws ls) journal),
           with_writes ls (persist_writes (setItem_throws ls) journal))
      end
  end.
Proof.
  unfold updateJournalPair, journal_read, try_catch, bind, lift, ret.
  rewrite getJournal_value. cbv beta iota delta [fst].
  destruct (entries_of _) as [old|e]; [|done].
  destruct (findIndex_id id old) as [[entryIndex e]|]; [|done].
  by rewrite saveJournalToStorage_value.
Qed.

Lemma deleteJournalEntry_value (id : string) (ls : LocalStorage) :
  deleteJournalEntry id ls =
  (Val tt,
   match journal_read ls with
   | Exn _ => ls
   | Val old =>
       with_writes ls
         (persist_writes (setItem_throws ls)
            {| entries := List.filter
                            (fun e => negb (String.eqb (JournalEntry.id e) id)) old |})
   end).
Proof.
  unfold deleteJournalEntry, journal_read, try_catch, bind, lift, ret.
  rewrite getJournal_value. cbv beta iota delta [fst].
  destruct (entries_of _) as [old|e]; [|done].
  by rewrite saveJournalToStorage_value.
Qed.

Lemma stored_entries_in (ls : LocalStorage) : stored_entries ls = entries_in (item ls).
Proof. done. Qed.

Lemma item_after_bound throws (n : nat) (writes : list JournalStore) :
  Forall (fun j => length (entries j) <= n)%nat writes ->
  forall it,
    (length (entries_in it) <= n)%nat ->
    (length (entries_in (item_after throws writes it)) <= n)%nat.
Proof.
  induction 1 as [|j writes Hj _ IH]; intros it Hit; simpl; [done|].
  apply IH. by destruct (throws j).
Qed.

Lemma with_writes_bound (n : nat) (ls : LocalStorage) (writes : list JournalStore) :
  Forall (fun j => length (entries j) <= n)%nat writes ->
  (length (stored_entries ls) <= n)%nat ->
  (length (stored_entries (with_writes ls writes)) <= n)%nat.
Proof. intros Hw Hls. rewrite !stored_entries_in in *. by apply item_after_bound. Qed.

Lemma length_removelast (l : list JournalEntry.t) :
  length (removelast l) = pred (length l).
Proof. rewrite removelast_firstn_len, length_take. lia. Qed.

Lemma persist_writes_bound throws (n : nat) (journal : JournalStore) :
  (length (entries journal) <= n)%nat ->
  Forall (fun j => length (entries j) <= n)%nat (persist_writes throws journal).
Proof.
  intros Hj. unfold persist_writes.
  destruct (throws journal); [|by repeat constructor].
  destruct (_ && _); repeat constructor; try done.
  simpl. rewrite length_removelast. lia.
Qed.

Lemma persist_journal_bound throws (n : nat) (journal : JournalStore) :
  (length (entries journal) <= n)%nat ->
  (length (entries (persist_journal throws journal)) <= n)%nat.
Proof.
  intros Hj. unfold persist_journal, persist_writes.
  destruct (throws journal); [|done].
  destruct (_ && _); simpl; [|done].
  rewrite length_removelast. lia.
Qed.

(** [keep_max_entries] keeps the first [MAX_ENTRIES] entries. *)
Lemma keep_max_entries_take (l : list JournalEntry.t) :
  keep_max_entries l = take MAX_ENTRIES l.
Proof.
  unfold keep_max_entries.
  destruct (MAX_ENTRIES <? length l)%nat eqn:H; [done|].
  apply Nat.ltb_ge in H. by rewrite take_ge.
Qed.

Lemma length_keep_max_entries (l : list JournalEntry.t) :
  (length (keep_max_entries l) <= MAX_ENTRIES)%nat.
Proof. rewrite keep_max_entries_take, length_take. lia. Qed.

Lemma length_set_first (e : JournalEntry.t) (l : list JournalEntry.t) :
  length (set_first e l) = Nat.max 1 (length l).
Proof. destruct l; simpl; lia. Qed.

Lemma save_writes_bound throws (entry : JournalEntry.t) (old : list JournalEntry.t) :
  Forall (fun j => length (entries j) <= MAX_ENTRIES)%nat (save_writes throws entry old).
Proof.
  unfold save_writes. apply Forall_app. split.
  - apply persist_writes_bound, length_keep_max_entries.
  - destruct (_ && _); [|constructor].
    apply persist_writes_bound. simpl. rewrite length_set_first.
    pose proof (persist_journal_bound throws MAX_ENTRIES
                  {| entries := keep_max_entries (entry :: old) |}
                  (length_keep_max_entries _)).
    unfold MAX_ENTRIES in *. lia.
Qed.

Lemma journal_read_bound (n : nat) (ls : LocalStorage) (old : list JournalEntry.t) :
  journal_read ls = Val old ->
  (length (stored_entries ls) <= n)%nat ->
  (length old <= n)%nat.
Proof.
  intros Hread Hn. destruct (journal_read_stored ls old Hread) as [-> | ->]; simpl; lia.
Qed.

(** No operation takes the journal above the capacity. *)
Lemma run_capacity (o : Op) (ls : LocalStorage) :
  (length (stored_entries ls) <= MAX_ENTRIES)%nat ->
  (length (stored_entries (run o ls)) <= MAX_ENTRIES)%nat.
Proof.
  intros Hls. destruct o; simpl.
  - change (saveJournalEntry b mode imageFileName analysis pair isConfluence)
      with (save {| arg_browser := b; arg_mode := mode;
                    arg_imageFileName := imageFileName; arg_analysis := analysis;
                    arg_pair := pair; arg_isConfluence := isConfluence |}).
    rewrite save_value. simpl.
    destruct (journal_read ls) as [old|]; [|done].
    apply with_writes_bound; [apply save_writes_bound | done].
  - rewrite updateJournalOutcome_value.
    destruct (journal_read ls) as [old|] eqn:Hread; [|done].
    destruct (findIndex_id id old) as [[i e]|]; [|done]. simpl.
    apply with_writes_bound; [|done].
    apply persist_writes_bound. simpl. rewrite length_insert.
    by eapply journal_read_bound.
  - rewrite updateJournalPair_value.
    destruct (journal_read ls) as [old|] eqn:Hread; [|done].
    destruct (findIndex_id id old) as [[i e]|]; [|done]. simpl.
    apply with_writes_bound; [|done].
    apply persist_writes_bound. simpl. rewrite length_insert.
    by eapply journal_read_bound.
  - rewrite deleteJournalEntry_value. simpl.
    destruct (journal_read ls) as [old|] eqn:Hread; [|done].
    apply with_writes_bound; [|done].
    apply persist_writes_bound. simpl.
    pose proof (filter_length_le
                  (fun e => negb (String.eqb (JournalEntry.id e) id)) old).
    pose proof (journal_read_bound _ _ _ Hread Hls). lia.
  - unfold clearJournal, try_catch, removeItem, ret.
    destruct (removeItem_throws ls); [done|].
    unfold stored_entries. simpl. lia.
Qed.

Lemma step_capacity (ls ls' : LocalStorage) :
  step ls ls' ->
  (length (stored_entries ls) <= MAX_ENTRIES)%nat ->
  (length (stored_entries ls') <= MAX_ENTRIES)%nat.
Proof.
  intros [o ls0|ls0 ls1 Hitem] Hls.
  - by apply run_capacity.
  - rewrite stored_entries_in in *. by rewrite Hitem.
Qed.

Lemma reachable_capacity (ls : LocalStorage) :
  reachable ls -> (length (stored_entries ls) <= MAX_ENTRIES)%nat.
Proof.
  intros (ls0 & Hfresh & Hsteps).
  assert (H0 : (length (stored_entries ls0) <= MAX_ENTRIES)%nat).
  { rewrite stored_entries_in, Hfresh. simpl. lia. }
  clear Hfresh. induction Hsteps as [|ls0 ls1 ls2 Hstep _ IH]; [done|].
  apply IH. by eapply step_capacity.
Qed.

Lemma take_app_take {A} (n : nat) (x y : list A) :
  take n (x ++ take n y) = take n (x ++ y).
Proof.
  rewrite !take_app, take_take. do 2 f_equal. lia.
Qed.

(** In a storage that accepts the write, one call leaves the new entry in
    front of the entries it found, cut to the capacity. *)
Lemma save_accepted (a : SaveArgs) (ls : LocalStorage) (old : list JournalEntry.t) :
  journal_read ls = Val old ->
  setItem_throws ls {| entries := take MAX_ENTRIES (entry_of a :: old) |} = None ->
  snd (save a ls)
  = with_writes ls [ {| entries := take MAX_ENTRIES (entry_of a :: old) |} ].
Proof.
  intros Hread Haccept. rewrite save_value, Hread.
  unfold snd, save_writes, persist_saved, persist_journal, persist_writes.
  rewrite keep_max_entries_take, Haccept. cbn [List.last]. rewrite Haccept.
  cbn [negb andb]. by rewrite app_nil_r.
Qed.


Lemma save_all_accepting (l : list SaveArgs) :
  forall ls,
    accepts_all ls ->
    item ls = ItemAbsent \/ (exists j, item ls = ItemJson (DocStore j)) ->
    (length (stored_entries ls) <= MAX_ENTRIES)%nat ->
    stored_entries (save_all l ls)
    = take MAX_ENTRIES (reverse (map entry_of l) ++ stored_entries ls).
Proof.
  induction l as [|a l IH]; intros ls [Hget Hset] Hshape Hcap.
  - simpl. by rewrite take_ge.
  - assert (Hread : journal_read ls = Val (stored_entries ls)).
    { rewrite journal_read_value, Hget. unfold stored_entries.
      by destruct Hshape as [-> | [j ->]]. }
    change (save_all (a :: l) ls) with (save_all l (snd (save a ls))).
    rewrite (save_accepted a ls _ Hread) by apply Hset.
    rewrite IH.
    + unfold with_writes at 1. unfold stored_entries at 1, item_after.
      cbn [item fold_left]. rewrite Hset. cbn [entries].
      rewrite take_app_take. simpl map. rewrite reverse_cons.
      by rewrite <- app_assoc.
    + split; [done|]. intros j. apply Hset.
    + right. simpl. rewrite Hset. eauto.
    + apply with_writes_bound; [|done].
      constructor; [|done]. cbn [entries]. rewrite length_take. lia.
Qed.

(** C5. The journal never holds more than 50 entries; every call of
    [saveJournalEntry] puts the new entry in front of the list and cuts the
    list to its first 50 entries, which drops the oldest ones; and 51 calls
    in a row, from a browser in which the journal was never written and
    whose storage accepts the writes, leave exactly 50 entries, the ones of
    the calls 2 to 51, newest first: the entry of the first call is gone. *)
Theorem journal_capacity :
  (forall ls, reachable ls -> (length (stored_entries ls) <= 50)%nat)
  /\ (forall (a : SaveArgs) (ls : LocalStorage) (old : list JournalEntry.t),
         journal_read ls = Val old ->
         let kept := take 50 (entry_of a :: old) in
         (exists more,
             setItem_calls (snd (save a ls))
             = setItem_calls ls ++ {| entries := kept |} :: more)
         /\ (setItem_throws ls {| entries := kept |} = None ->
             stored_entries (snd (save a ls)) = kept))
  /\ (forall (first : SaveArgs) (rest : list SaveArgs) (ls : LocalStorage),
         length rest = 50%nat ->
         item ls = ItemAbsent ->
         accepts_all ls ->
         let after := save_all (first :: rest) ls in
         stored_entries after = reverse (map entry_of rest)
         /\ length (stored_entries after) = 50%nat
         /\ (Forall (fun a => JournalEntry.id (entry_of a)
                              <> JournalEntry.id (entry_of first)) rest ->
             Forall (fun e => JournalEntry.id e <> JournalEntry.id (entry_of first))
                    (stored_entries after))).
Proof.
  split; [exact reachable_capacity|]. split.
  - intros a ls old Hread kept. split.
    + rewrite save_value, Hread.
      destruct (save_writes_head (setItem_throws ls) (entry_of a) old) as [more Hmore].
      exists more. unfold snd, with_writes. cbn [setItem_calls].
      by rewrite Hmore, keep_max_entries_take.
    + intros Haccept. subst kept. change 50%nat with MAX_ENTRIES in *.
      rewrite (save_accepted a ls old Hread Haccept).
      unfold stored_entries, with_writes, item_after. cbn [item fold_left].
      by rewrite Haccept.
  - intros first rest ls Hlen Hitem Haccept after.
    assert (Hafter : stored_entries after = reverse (map entry_of rest)).
    { subst after. rewrite save_all_accepting; try done.
      - rewrite stored_entries_in, Hitem. simpl. rewrite app_nil_r.
        rewrite reverse_cons, take_app_le.
        + apply take_ge. rewrite length_reverse, length_map. unfold MAX_ENTRIES. lia.
        + rewrite length_reverse, length_map. unfold MAX_ENTRIES. lia.
      - by left.
      - rewrite stored_entries_in, Hitem. simpl. lia. }
    rewrite Hafter. split; [done|]. split.
    + by rewrite length_reverse, length_map.
    + intros Hfresh. apply Forall_reverse.
      apply Forall_forall. intros e He.
      apply list_elem_of_In, in_map_iff in He as (a & <- & Ha).
      rewrite Forall_forall in Hfresh. by apply Hfresh, list_elem_of_In.
Qed.

(** 51 calls in a row on a fresh storage. *)
Lemma journal_capacity_witness :
  let after := save_all (nth_save 1 :: map nth_save (seq 2 50)) fresh_storage in
  stored_entries after = reverse (map entry_of (map nth_save (seq 2 50)))
  /\ length (stored_entries after) = 50%nat.
Proof.
  destruct (proj2 (proj2 journal_capacity)
              (nth_save 1) (map nth_save (seq 2 50)) fresh_storage)
    as (H1 & H2 & _).
  - reflexivity.
  - reflexivity.
  - split; [reflexivity | intros j; reflexivity].
  - split; [exact H1 | exact H2].
Defined.

(** *** Outcome counts *)

Lemma computeStats_counts (entries : list JournalEntry.t) :
  let stats := computeStats entries in
  total stats = length entries
  /\ winCount stats = count (outcome_is WIN) entries
  /\ lossCount stats = count (outcome_is LOSS) entries
  /\ breakEvenCount stats = count (outcome_is BREAKEVEN) entries
  /\ pendingCount stats = count is_pending entries.
Proof. done. Qed.


Lemma count_cons (p : JournalEntry.t -> bool) (e : JournalEntry.t)
      (l : list JournalEntry.t) :
  count p (e :: l) = ((if p e then 1 else 0) + count p l)%nat.
Proof. unfold count. simpl. by destruct (p e). Qed.

(** Every entry is counted once, under its outcome or as pending. *)
Lemma counts_partition (l : list JournalEntry.t) :
  length l
  = (count (outcome_is WIN) l + count (outcome_is LOSS) l
     + count (outcome_is BREAKEVEN) l + count is_pending l)%nat.
Proof.
  induction l as [|e l IH]; [done|].
  rewrite !count_cons. simpl length. rewrite IH.
  unfold is_pending, outcome_is.
  destruct (JournalEntry.outcome e) as [[]|]; simpl; lia.
Qed.

(** The entries that count as resolved for a mode are the ones with the
    outcome WIN, LOSS or BREAKEVEN. *)
Lemma count_is_resolved (l : list JournalEntry.t) :
  count is_resolved l
  = (count (outcome_is WIN) l + count (outcome_is LOSS) l
     + count (outcome_is BREAKEVEN) l)%nat.
Proof.
  induction l as [|e l IH]; [done|].
  rewrite !count_cons, IH.
  unfold is_resolved, outcome_is.
  destruct (JournalEntry.outcome e) as [[]|]; simpl; lia.
Qed.



(** *** Win rates *)

Lemma filter_mode_all (m : Mode) (l : list JournalEntry.t) :
  Forall (fun e => JournalEntry.mode e = m) l ->
  List.filter (mode_is m) l = l.
Proof.
  induction 1 as [|e l He _ IH]; [done|].
  simpl. rewrite IH. unfold mode_is. rewrite He. by destruct m.
Qed.

Lemma computeStats_rates (entries : list JournalEntry.t) :
  let stats := computeStats entries in
  let resolved l :=
    (count (outcome_is WIN) l + count (outcome_is LOSS) l
     + count (outcome_is BREAKEVEN) l)%nat in
  winRate stats = win_rate (count (outcome_is WIN) entries) (resolved entries)
  /\ (forall m,
         win_rate_of_mode m stats
         = win_rate (count (outcome_is WIN) (List.filter (mode_is m) entries))
                    (resolved (List.filter (mode_is m) entries))).
Proof.
  intros stats resolved. split; [done|].
  intros m. unfold resolved. rewrite <- count_is_resolved. by destruct m.
Qed.

Lemma single_mode_rates (m : Mode) (entries : list JournalEntry.t) :
  Forall (fun e => JournalEntry.mode e = m) entries ->
  winRate (computeStats entries) = win_rate_of_mode m (computeStats entries).
Proof.
  intros Hmode.
  pose proof (computeStats_rates entries) as H. cbv zeta in H.
  destruct H as [-> Hm].
  by rewrite Hm, filter_mode_all.
Qed.

(** No list of entries of a single mode has a global win rate that differs
    from the win rate of that mode. *)
Lemma no_single_mode_difference :
  ~ (exists (m : Mode) (entries : list JournalEntry.t),
        Forall (fun e => JournalEntry.mode e = m) entries
        /\ winRate (computeStats entries)
           <> win_rate_of_mode m (computeStats entries)).
Proof.
  intros (m & entries & Hmode & Hdiff). by apply Hdiff, single_mode_rates.
Qed.

(** C9, amended. The win rate of a mode has the same denominator as the
    global win rate: the entries of that mode with outcome WIN, LOSS or
    BREAKEVEN.  For a list of entries of a single mode the global win rate
    and the win rate of that mode are equal. *)
Theorem win_rate_denominators (entries : list JournalEntry.t) :
  let stats := computeStats entries in
  let resolved l :=
    (count (outcome_is WIN) l + count (outcome_is LOSS) l
     + count (outcome_is BREAKEVEN) l)%nat in
  winRate stats = win_rate (count (outcome_is WIN) entries) (resolved entries)
  /\ (forall m,
         win_rate_of_mode m stats
         = win_rate (count (outcome_is WIN) (List.filter (mode_is m) entries))
                    (resolved (List.filter (mode_is m) entries)))
  /\ (forall m,
         Forall (fun e => JournalEntry.mode e = m) entries ->
         winRate stats = win_rate_of_mode m stats).
Proof.
  intros stats resolved.
  pose proof (computeStats_rates entries) as H. cbv zeta in H.
  destruct H as [Hglobal Hmode].
  split; [done|]. split; [done|].
  intros m. apply single_mode_rates.
Qed.

(** Scalping entries, one of them BREAKEVEN: one win out of three resolved
    entries, for the journal and for the mode. *)
Lemma win_rate_denominators_witness :
  winRate (computeStats scalping_only)
  = win_rate_of_mode scalping (computeStats scalping_only)
  /\ winRateScalping (computeStats scalping_only) = win_rate 1 3.
Proof.
  split.
  - apply (proj2 (proj2 (win_rate_denominators scalping_only)) scalping).
    repeat constructor.
  - reflexivity.
Defined.

(** *** The streak *)

Lemma sort_insert_Permutation {A} (compareFn : A -> A -> Z) (x : A) (l : list A) :
  Permutation (sort_insert compareFn x l) (x :: l).
Proof.
  induction l as [|y l IH]; simpl; [done|].
  destruct (compareFn x y <=? 0)%Z; [done|].
  rewrite IH. apply perm_swap.
Qed.

(** Sorting rearranges the list and does nothing else. *)
Lemma sort_Permutation {A} (compareFn : A -> A -> Z) (l : list A) :
  Permutation (sort compareFn l) l.
Proof.
  induction l as [|x l IH]; simpl; [done|].
  by rewrite sort_insert_Permutation, IH.
Qed.

Lemma by_outcome_time_desc_le (a b : JournalEntry.t) :
  (by_outcome_time_desc a b <=? 0)%Z = true <-> later_first a b.
Proof. unfold by_outcome_time_desc, later_first. rewrite Z.leb_le. lia. Qed.

Lemma sort_insert_sorted (x : JournalEntry.t) (l : list JournalEntry.t) :
  StronglySorted later_first l ->
  StronglySorted later_first (sort_insert by_outcome_time_desc x l).
Proof.
  induction 1 as [|y l Hl IH Hy]; simpl.
  - repeat constructor.
  - destruct (by_outcome_time_desc x y <=? 0)%Z eqn:Hxy.
    + apply by_outcome_time_desc_le in Hxy.
      constructor; [by constructor|].
      constructor; [done|].
      eapply Forall_impl; [exact Hy|].
      unfold later_first in *. intros z Hz. lia.
    + constructor; [done|].
      rewrite sort_insert_Permutation. constructor; [|done].
      assert (~ later_first x y) as Hn by (rewrite <- by_outcome_time_desc_le; congruence).
      unfold later_first in *. lia.
Qed.

Lemma sort_sorted (l : list JournalEntry.t) :
  StronglySorted later_first (sort by_outcome_time_desc l).
Proof.
  induction l as [|x l IH]; simpl; [constructor|].
  by apply sort_insert_sorted.
Qed.

(** A list that is in order already is left as it is. *)
Lemma sort_of_sorted (l : list JournalEntry.t) :
  StronglySorted later_first l -> sort by_outcome_time_desc l = l.
Proof.
  induction 1 as [|x l Hl IH Hx]; simpl; [done|].
  rewrite IH. destruct l as [|y l]; simpl; [done|].
  apply Forall_inv in Hx. apply by_outcome_time_desc_le in Hx. by rewrite Hx.
Qed.

Lemma outcome_time_relevant (e : JournalEntry.t) :
  stamped_after_epoch e -> outcome_time e = relevant_time e.
Proof.
  unfold stamped_after_epoch, outcome_time, relevant_time.
  destruct (JournalEntry.outcomeUpdatedAt e) as [t|]; [|done].
  intros Ht. destruct (Z.eqb_spec t 0); [congruence | done].
Qed.

Lemma later_first_newest_first (l : list JournalEntry.t) :
  Forall stamped_after_epoch l ->
  StronglySorted later_first l <-> newest_first l.
Proof.
  intros Hl. unfold newest_first.
  induction l as [|x l IH]; [split; constructor|].
  apply Forall_cons in Hl as [Hx Hl].
  rewrite !StronglySorted_cons, (IH Hl).
  assert (Forall (later_first x) l
          <-> Forall (fun b => relevant_time b <= relevant_time x) l) as ->; [|done].
  rewrite !Forall_forall. unfold later_first.
  rewrite Forall_forall in Hl.
  split; intros H y Hy; specialize (H y Hy); specialize (Hl y Hy);
    rewrite ?outcome_time_relevant in * by done; done.
Qed.

Lemma is_win_or_loss_won_or_lost (e : JournalEntry.t) :
  is_win_or_loss e = true <-> won_or_lost e.
Proof.
  unfold is_win_or_loss, won_or_lost, outcome_is.
  destruct (JournalEntry.outcome e) as [[]|]; simpl; split; intros H;
    try done; try (by left); try (by right);
    destruct H as [H|H]; discriminate.
Qed.

Lemma outcome_strict_eq_true (x y : option TradeOutcome) :
  outcome_strict_eq x y = true <-> x = y.
Proof. destruct x as [[]|], y as [[]|]; simpl; split; done. Qed.

(** The loop counts the entries in front that share [firstOutcome] and
    stops at the first entry that does not. *)
Lemma streak_loop_run (firstOutcome : option TradeOutcome) (l : list JournalEntry.t) :
  forall n,
  exists run others,
    l = run ++ others
    /\ streak_loop firstOutcome l n = (n + length run)%nat
    /\ Forall (fun e => JournalEntry.outcome e = firstOutcome) run
    /\ (forall e, head others = Some e -> JournalEntry.outcome e <> firstOutcome).
Proof.
  induction l as [|e l IH]; intros n; simpl.
  - exists [], []. split; [done|]. split; [simpl; lia|]. by split.
  - destruct (outcome_strict_eq (JournalEntry.outcome e) firstOutcome) eqn:He.
    + apply outcome_strict_eq_true in He.
      destruct (IH (S n)) as (run & others & -> & Hn & Hrun & Hothers).
      exists (e :: run), others.
      split; [done|]. split; [simpl; lia|]. split; [by constructor | done].
    + exists [], (e :: l).
      split; [done|]. split; [simpl; lia|]. split; [constructor|].
      intros e' [= <-] Heq. apply outcome_strict_eq_true in Heq. congruence.
Qed.

Lemma computeStats_streak (entries : list JournalEntry.t) :
  let stats := computeStats entries in
  (currentStreak stats, streakType stats)
  = match sortedByOutcome entries with
    | [] => (0%nat, NONE)
    | first :: _ =>
        (streak_loop (JournalEntry.outcome first) (sortedByOutcome entries) 0,
         OfOutcome (JournalEntry.outcome first))
    end.
Proof. simpl. by destruct (sortedByOutcome entries). Qed.

Lemma sortedByOutcome_In (entries : list JournalEntry.t) (e : JournalEntry.t) :
  In e (sortedByOutcome entries) <-> In e entries /\ won_or_lost e.
Proof.
  unfold sortedByOutcome.
  rewrite <- is_win_or_loss_won_or_lost, <- filter_In.
  split; apply Permutation_in;
    [apply sort_Permutation | symmetry; apply sort_Permutation].
Qed.

Lemma sortedByOutcome_newest_first (entries : list JournalEntry.t) :
  Forall stamped_after_epoch entries ->
  newest_first (sortedByOutcome entries).
Proof.
  intros Hstamped. apply later_first_newest_first.
  - apply List.Forall_forall. intros e He.
    apply sortedByOutcome_In in He as [He _].
    by eapply List.Forall_forall in Hstamped.
  - apply sort_sorted.
Qed.

(** A win stamped 0 and a later-created loss: by [outcomeUpdatedAt] if
    present, else [timestamp], the loss is the most recent entry, so the
    streak would be of type LOSS; the code puts the win first and reports a
    streak of type WIN. *)
Lemma streak_with_zero_stamp :
  let sorted := sortedByOutcome zero_stamped in
  let stats := computeStats zero_stamped in
  ~ newest_first sorted
  /\ streakType stats = OfOutcome (Some WIN)
  /\ currentStreak stats = 1%nat
  /\ (forall l,
         Permutation l (List.filter is_win_or_loss zero_stamped) ->
         newest_first l ->
         exists first rest,
           l = first :: rest /\ JournalEntry.outcome first = Some LOSS).
Proof.
  cbv zeta. split; [|split; [done|split; [done|]]].
  - intros Hsorted. vm_compute in Hsorted.
    apply StronglySorted_inv in Hsorted as [_ Hfirst].
    apply Forall_inv in Hfirst. vm_compute in Hfirst. by apply Hfirst.
  - intros l Hperm Hnewest. symmetry in Hperm.
    apply Permutation_length_2_inv in Hperm as [-> | ->].
    + apply StronglySorted_inv in Hnewest as [_ Hfirst].
      apply Forall_inv in Hfirst. vm_compute in Hfirst. by destruct Hfirst.
    + by eexists _, _.
Qed.

(** C8, amended. The streak of [getJournalStats] looks at the entries with
    outcome WIN or LOSS only, the most recent first by [outcomeUpdatedAt]
    if present and not 0, else by [timestamp]; where no [outcomeUpdatedAt]
    is 0 this is the order by [outcomeUpdatedAt] if present, else by
    [timestamp].  When there is no such entry, the streak is 0 and its type
    NONE; otherwise the type is the outcome of the most recent entry and
    the streak is the length of the run of entries in front that share this
    outcome.  Outcomes WIN, WIN, LOSS, WIN, in that order, give the streak
    2 of type WIN. *)
Theorem streak_of_recent_outcomes :
  (forall e : JournalEntry.t,
      (JournalEntry.outcomeUpdatedAt e = None ->
       outcome_time e = JournalEntry.timestamp e)
      /\ (JournalEntry.outcomeUpdatedAt e = Some 0 ->
          outcome_time e = JournalEntry.timestamp e)
      /\ (forall t, JournalEntry.outcomeUpdatedAt e = Some t -> t <> 0 ->
                    outcome_time e = t))
  /\ (forall entries : list JournalEntry.t,
      let sorted := sortedByOutcome entries in
      let stats := computeStats entries in
      Permutation sorted (List.filter is_win_or_loss entries)
      /\ (forall e, In e sorted <-> In e entries /\ won_or_lost e)
      /\ StronglySorted later_first sorted
      /\ (Forall stamped_after_epoch entries -> newest_first sorted)
      /\ (sorted = [] -> currentStreak stats = 0%nat /\ streakType stats = NONE)
      /\ (forall first rest,
             sorted = first :: rest ->
             streakType stats = OfOutcome (JournalEntry.outcome first)
             /\ won_or_lost first
             /\ exists run others,
                 sorted = run ++ others
                 /\ currentStreak stats = length run
                 /\ (1 <= length run)%nat
                 /\ Forall (fun e => JournalEntry.outcome e = JournalEntry.outcome first) run
                 /\ (forall e, head others = Some e ->
                               JournalEntry.outcome e <> JournalEntry.outcome first)))
  /\ (forall l : list JournalEntry.t,
         StronglySorted later_first l ->
         map JournalEntry.outcome l = [Some WIN; Some WIN; Some LOSS; Some WIN] ->
         currentStreak (computeStats l) = 2%nat
         /\ streakType (computeStats l) = OfOutcome (Some WIN)).
Proof.
  split; [|split].
  - intros e. unfold outcome_time. split; [by intros ->|].
    split; [by intros ->|].
    intros t -> Ht. by destruct (Z.eqb_spec t 0).
  - intros entries sorted stats.
    pose proof (computeStats_streak entries) as Hstreak. cbv zeta in Hstreak.
    fold stats sorted in Hstreak.
    split; [apply sort_Permutation|].
    split; [apply sortedByOutcome_In|].
    split; [apply sort_sorted|].
    split; [apply sortedByOutcome_newest_first|].
    split.
    + intros Hnil. rewrite Hnil in Hstreak.
      pose proof (f_equal fst Hstreak) as Hcount.
      pose proof (f_equal snd Hstreak) as Htype.
      by cbn [fst snd] in Hcount, Htype.
    + intros first rest Hsorted. rewrite Hsorted in Hstreak.
      pose proof (f_equal fst Hstreak) as Hcount.
      pose proof (f_equal snd Hstreak) as Htype.
      cbn [fst snd] in Hcount, Htype.
      split; [done|]. split.
      { apply (sortedByOutcome_In entries first). fold sorted. rewrite Hsorted. by left. }
      destruct (streak_loop_run (JournalEntry.outcome first) (first :: rest) 0)
        as (run & others & Hsplit & Hloop & Hrun & Hothers).
      exists run, others. rewrite Hcount, Hloop.
      split; [by rewrite Hsorted|]. split; [done|]. split; [|done].
      destruct run as [|e run]; simpl; [|lia].
      simpl in Hsplit. subst others. by destruct (Hothers first).
  - intros l Horder Houtcomes.
    destruct l as [|e1 [|e2 [|e3 [|e4 [|e5 l]]]]]; try discriminate.
    injection Houtcomes as H1 H2 H3 H4.
    assert (Hsorted : sortedByOutcome [e1; e2; e3; e4] = [e1; e2; e3; e4]).
    { unfold sortedByOutcome. simpl. unfold is_win_or_loss, outcome_is.
      rewrite H1, H2, H3, H4. simpl.
      by apply (sort_of_sorted [e1; e2; e3; e4]). }
    pose proof (computeStats_streak [e1; e2; e3; e4]) as Hstreak. cbv zeta in Hstreak.
    rewrite Hsorted in Hstreak. simpl in Hstreak.
    rewrite H1, H2, H3 in Hstreak. simpl in Hstreak.
    pose proof (f_equal fst Hstreak) as Hcount.
    pose proof (f_equal snd Hstreak) as Htype.
    by cbn [fst snd] in Hcount, Htype.
Qed.

(** The four sample entries with outcomes WIN, WIN, LOSS, WIN. *)
Lemma streak_of_recent_outcomes_witness :
  currentStreak (computeStats four_outcomes) = 2%nat
  /\ streakType (computeStats four_outcomes) = OfOutcome (Some WIN).
Proof.
  apply (proj2 (proj2 streak_of_recent_outcomes) four_outcomes).
  - unfold four_outcomes.
    repeat constructor; vm_compute; discriminate.
  - reflexivity.
Defined.

(** Entries stored in another order, with a pending and a break-even entry
    in between: the streak is the same. *)
Example streak_ignores_storage_order :
  let stored :=
    [ sample_entry "a" 1700000000000 scalping (Some WIN) None;
      sample_entry "p" 1700000005000 swing (Some PENDING) None;
      sample_entry "d" 1700000003000 scalping (Some WIN) (Some 1700000009000);
      sample_entry "b" 1700000001000 scalping (Some LOSS) None;
      sample_entry "x" 1700000001500 scalping (Some BREAKEVEN) (Some 1700000008000);
      sample_entry "c" 1700000002000 swing (Some WIN) None ] in
  sortedByOutcome stored = four_outcomes
  /\ currentStreak (computeStats stored) = 2%nat
  /\ streakType (computeStats stored) = OfOutcome (Some WIN).
Proof. by vm_compute. Qed.

End JournalProofs.

(* ===================================================================== *)
(** ** Further properties *)
(* ===================================================================== *)

Module MoreProofs.
Import Retry RetrySpec RetryMessages Journal JournalSpec Views MoreSpec.
Import RetryProofs JournalProofs.

(** *** What the mutating operations never do *)

Lemma clearJournal_value (ls : LocalStorage) :
  clearJournal ls =
  (Val tt,
   match removeItem_throws ls with
   | Some _ => ls
   | None => {| item := ItemAbsent;
                getItem_throws := getItem_throws ls;
                setItem_throws := setItem_throws ls;
                removeItem_throws := removeItem_throws ls;
                setItem_calls := setItem_calls ls |}
   end).
Proof.
  unfold clearJournal, try_catch, removeItem, ret.
  by destruct (removeItem_throws ls).
Qed.

(** X1. None of [updateJournalOutcome], [updateJournalPair],
    [deleteJournalEntry], [clearJournal] and [saveJournalToStorage] throws,
    whatever the storage holds and however its calls behave. *)
Theorem mutators_never_throw (ls : LocalStorage) :
  (forall id outcome notes pnl now,
      exists ok, fst (updateJournalOutcome id outcome notes pnl now ls) = Val ok)
  /\ (forall id pair', exists ok, fst (updateJournalPair id pair' ls) = Val ok)
  /\ (forall id, fst (deleteJournalEntry id ls) = Val tt)
  /\ fst (clearJournal ls) = Val tt
  /\ (forall journal, exists r, fst (saveJournalToStorage journal ls) = Val r).
Proof.
  split; [|split; [|split; [|split]]].
  - intros. rewrite updateJournalOutcome_value.
    destruct (journal_read ls) as [old|]; [|by eexists].
    destruct (findIndex_id id old) as [[i e]|]; by eexists.
  - intros. rewrite updateJournalPair_value.
    destruct (journal_read ls) as [old|]; [|by eexists].
    destruct (findIndex_id id old) as [[i e]|]; by eexists.
  - intros. by rewrite deleteJournalEntry_value.
  - by rewrite clearJournal_value.
  - intros. rewrite saveJournalToStorage_value. by eexists.
Qed.

Lemma item_after_cases throws (writes : list JournalStore) :
  forall it,
    item_after throws writes it = it
    \/ exists journal,
        In journal writes /\ throws journal = None
        /\ item_after throws writes it = ItemJson (DocStore journal).
Proof.
  induction writes as [|j writes IH]; intros it; simpl; [by left|].
  destruct (throws j) eqn:Hj.
  - destruct (IH it) as [H|(j' & Hin & Hacc & H)]; [by left|].
    right. exists j'. auto.
  - destruct (IH (ItemJson (DocStore j))) as [H|(j' & Hin & Hacc & H)].
    + right. exists j. auto.
    + right. exists j'. auto.
Qed.

(** The writes of an operation other than [clearJournal]. *)
Lemma run_writes (o : Op) (ls : LocalStorage) :
  o <> ClearJournal ->
  exists writes, run o ls = with_writes ls writes.
Proof.
  intros Ho. destruct o; simpl; [| | | |done].
  - change (saveJournalEntry b mode imageFileName analysis pair isConfluence)
      with (save {| arg_browser := b; arg_mode := mode;
                    arg_imageFileName := imageFileName; arg_analysis := analysis;
                    arg_pair := pair; arg_isConfluence := isConfluence |}).
    rewrite save_value. simpl.
    destruct (journal_read ls); [by eexists|].
    exists []. by rewrite with_writes_nil.
  - rewrite updateJournalOutcome_value.
    destruct (journal_read ls) as [old|]; [|exists []; by rewrite with_writes_nil].
    destruct (findIndex_id id old) as [[i e]|]; [by eexists|].
    exists []. by rewrite with_writes_nil.
  - rewrite updateJournalPair_value.
    destruct (journal_read ls) as [old|]; [|exists []; by rewrite with_writes_nil].
    destruct (findIndex_id id old) as [[i e]|]; [by eexists|].
    exists []. by rewrite with_writes_nil.
  - rewrite deleteJournalEntry_value. simpl.
    destruct (journal_read ls); [by eexists|].
    exists []. by rewrite with_writes_nil.
Qed.

Lemma persist_saved_rejected throws (journal : JournalStore) :
  (forall j, throws j <> None) -> persist_saved throws journal = false.
Proof.
  intros Hrej. unfold persist_saved.
  destruct (throws (persist_journal throws journal)) eqn:H; [done|].
  by apply Hrej in H.
Qed.

(** X2. No write is ever half done: after any operation but
    [clearJournal], the journal's item is what it was before, or a journal
    that [setItem] accepted during the operation.  In a storage that
    refuses every write, the item stays as it is and the two update
    operations answer [false]. *)
Theorem no_torn_write (ls : LocalStorage) :
  (forall o,
      o <> ClearJournal ->
      item (run o ls) = item ls
      \/ exists journal,
          setItem_throws ls journal = None
          /\ In journal (setItem_calls (run o ls))
          /\ item (run o ls) = ItemJson (DocStore journal))
  /\ (rejects_all ls ->
      (forall o, o <> ClearJournal -> item (run o ls) = item ls)
      /\ (forall id outcome notes pnl now,
             fst (updateJournalOutcome id outcome notes pnl now ls) = Val false)
      /\ (forall id pair',
             fst (updateJournalPair id pair' ls) = Val false)).
Proof.
  assert (Hcases : forall o,
             o <> ClearJournal ->
             item (run o ls) = item ls
             \/ exists journal,
                 setItem_throws ls journal = None
                 /\ In journal (setItem_calls (run o ls))
                 /\ item (run o ls) = ItemJson (DocStore journal)).
  { intros o Ho. destruct (run_writes o ls Ho) as [writes Hrun].
    rewrite Hrun. unfold with_writes. cbn [item setItem_calls].
    destruct (item_after_cases (setItem_throws ls) writes (item ls))
      as [H|(j & Hin & Hacc & H)]; [by left|].
    right. exists j. split; [done|]. split; [|done].
    apply in_or_app. by right. }
  split; [exact Hcases|].
  intros Hrej. split; [|split].
  - intros o Ho. destruct (Hcases o Ho) as [H|(j & Hacc & _)]; [done|].
    by apply Hrej in Hacc.
  - intros. rewrite updateJournalOutcome_value.
    destruct (journal_read ls) as [old|]; [|done].
    destruct (findIndex_id id old) as [[i e]|]; [|done].
    simpl. by rewrite persist_saved_rejected.
  - intros. rewrite updateJournalPair_value.
    destruct (journal_read ls) as [old|]; [|done].
    destruct (findIndex_id id old) as [[i e]|]; [|done].
    simpl. by rewrite persist_saved_rejected.
Qed.

(** An update in a storage that refuses every write. *)
Lemma no_torn_write_witness :
  fst (updateJournalOutcome "older" WIN None None 1700000000000 readonly_storage)
  = Val false.
Proof.
  apply (proj2 (no_torn_write readonly_storage)).
  intros journal. discriminate.
Defined.


(** *** Identities of the stored entries *)

Lemma stored_with_writes (P : list JournalEntry.t -> Prop)
      (ls : LocalStorage) (writes : list JournalStore) :
  P (stored_entries ls) ->
  Forall (fun j => P (entries j)) writes ->
  P (stored_entries (with_writes ls writes)).
Proof.
  intros Hls Hw. unfold with_writes, stored_entries at 1. cbn [item].
  destruct (item_after_cases (setItem_throws ls) writes (item ls))
    as [-> |(j & Hin & _ & ->)]; [done|].
  rewrite Forall_forall in Hw. by apply Hw, list_elem_of_In.
Qed.

Lemma filter_sublist_of (p : JournalEntry.t -> bool) (l : list JournalEntry.t) :
  List.filter p l `sublist_of` l.
Proof.
  induction l as [|e l IH]; simpl; [constructor|].
  destruct (p e); by constructor.
Qed.

Lemma removelast_sublist_of (l : list JournalEntry.t) :
  removelast l `sublist_of` l.
Proof. rewrite removelast_firstn_len. apply sublist_take. Qed.

Lemma persist_writes_sublist throws (T : list (string * Z)) (journal : JournalStore) :
  identity <$> entries journal `sublist_of` T ->
  Forall (fun j => identity <$> entries j `sublist_of` T)
         (persist_writes throws journal).
Proof.
  intros Hj. unfold persist_writes.
  destruct (throws journal); [|by repeat constructor].
  destruct (_ && _); repeat constructor; try done.
  cbn [entries]. etrans; [|exact Hj].
  apply fmap_sublist, removelast_sublist_of.
Qed.

(** The journal that the persistence step leaves still starts with the
    entry it started with. *)
Lemma persist_journal_head throws (e : JournalEntry.t) (rest : list JournalEntry.t) :
  exists rest',
    entries (persist_journal throws {| entries := e :: rest |}) = e :: rest'
    /\ rest' `sublist_of` rest.
Proof.
  unfold persist_journal, persist_writes.
  destruct (throws {| entries := e :: rest |}); [|by exists rest].
  destruct (_ && _) eqn:H; cbn [List.last entries]; [|by exists rest].
  apply andb_true_iff in H as [_ Hlen]. cbn [entries] in Hlen.
  destruct rest as [|x rest]; [done|].
  exists (removelast (x :: rest)). split; [done|].
  apply removelast_sublist_of.
Qed.

Lemma save_writes_sublist throws (e : JournalEntry.t) (old : list JournalEntry.t) :
  Forall (fun j => identity <$> entries j `sublist_of` identity e :: (identity <$> old))
         (save_writes throws e old).
Proof.
  unfold save_writes. rewrite keep_max_entries_take.
  change (take MAX_ENTRIES (e :: old)) with (e :: take 49 old).
  apply Forall_app. split.
  - apply persist_writes_sublist. cbn [entries]. rewrite fmap_cons.
    constructor. apply fmap_sublist, sublist_take.
  - destruct (_ && _); [|constructor].
    apply persist_writes_sublist. cbn [entries].
    destruct (persist_journal_head throws e (take 49 old)) as (rest' & -> & Hrest).
    simpl. constructor. etrans; [by apply fmap_sublist|].
    apply fmap_sublist, sublist_take.
Qed.

Lemma insert_same_identity (old : list JournalEntry.t) (i : nat)
      (e e' : JournalEntry.t) :
  old !! i = Some e ->
  identity e' = identity e ->
  identity <$> <[i := e']> old = identity <$> old.
Proof.
  intros Hi He. rewrite list_fmap_insert, He.
  apply list_insert_id. by rewrite list_lookup_fmap, Hi.
Qed.

Lemma findIndex_id_Some (id : string) (old : list JournalEntry.t)
      (i : nat) (e : JournalEntry.t) :
  findIndex_id id old = Some (i, e) ->
  old !! i = Some e /\ JournalEntry.id e = id.
Proof. intros H. by apply list_find_Some in H as (Hi & Hid & _). Qed.

Lemma journal_read_sublist (ls : LocalStorage) (old : list JournalEntry.t) :
  journal_read ls = Val old ->
  identity <$> old `sublist_of` trail ls.
Proof.
  intros Hread. destruct (journal_read_stored ls old Hread) as [-> | ->].
  - done.
  - apply sublist_nil_l.
Qed.

Lemma run_trail (o : Op) (ls : LocalStorage) :
  trail (run o ls) `sublist_of` added_identity o ++ trail ls.
Proof.
  assert (Hbase : trail ls `sublist_of` added_identity o ++ trail ls)
    by apply sublist_inserts_l, reflexivity.
  destruct o; cbn [run].
  - change (saveJournalEntry b mode imageFileName analysis pair isConfluence)
      with (save {| arg_browser := b; arg_mode := mode;
                    arg_imageFileName := imageFileName; arg_analysis := analysis;
                    arg_pair := pair; arg_isConfluence := isConfluence |}).
    rewrite save_value. cbn [snd].
    destruct (journal_read ls) as [old|] eqn:Hread; [|done].
    unfold trail at 1.
    apply (stored_with_writes
             (fun l => identity <$> l `sublist_of` _)); [done|].
    eapply Forall_impl; [apply save_writes_sublist|].
    intros j Hj. cbn beta in Hj. etrans; [exact Hj|].
    cbn [added_identity app]. constructor. by apply journal_read_sublist.
  - rewrite updateJournalOutcome_value.
    destruct (journal_read ls) as [old|] eqn:Hread; [|done].
    destruct (findIndex_id id old) as [[i e]|] eqn:Hfind; [|done].
    apply findIndex_id_Some in Hfind as [Hi _]. cbn [snd].
    unfold trail at 1.
    apply (stored_with_writes
             (fun l => identity <$> l `sublist_of` _)); [done|].
    apply persist_writes_sublist. cbn [entries].
    rewrite (insert_same_identity old i e) by done.
    by apply journal_read_sublist.
  - rewrite updateJournalPair_value.
    destruct (journal_read ls) as [old|] eqn:Hread; [|done].
    destruct (findIndex_id id old) as [[i e]|] eqn:Hfind; [|done].
    apply findIndex_id_Some in Hfind as [Hi _]. cbn [snd].
    unfold trail at 1.
    apply (stored_with_writes
             (fun l => identity <$> l `sublist_of` _)); [done|].
    apply persist_writes_sublist. cbn [entries].
    rewrite (insert_same_identity old i e) by done.
    by apply journal_read_sublist.
  - rewrite deleteJournalEntry_value. cbn [snd].
    destruct (journal_read ls) as [old|] eqn:Hread; [|done].
    unfold trail at 1.
    apply (stored_with_writes
             (fun l => identity <$> l `sublist_of` _)); [done|].
    apply persist_writes_sublist. cbn [entries].
    etrans; [apply fmap_sublist, filter_sublist_of|].
    by apply journal_read_sublist.
  - rewrite clearJournal_value. cbn [snd].
    destruct (removeItem_throws ls); [done|].
    apply sublist_nil_l.
Qed.

(** X4. No operation invents, repeats or reorders entries: the ids and
    creation times of the stored entries after an operation are those
    before it with some left out, in the same order; only
    [saveJournalEntry] can add one, in front, and it is the id and time it
    read from the browser.  This holds however the storage behaves. *)
Theorem operations_keep_identities (o : Op) (ls : LocalStorage) :
  trail (run o ls) `sublist_of` added_identity o ++ trail ls.
Proof. apply run_trail. Qed.

Lemma Forall_sublist {A} (P : A -> Prop) (l1 l2 : list A) :
  l1 `sublist_of` l2 -> Forall P l2 -> Forall P l1.
Proof.
  induction 1 as [|x l1 l2 Hsub IH|x l1 l2 Hsub IH]; intros Hl2; [done| |].
  - apply Forall_cons in Hl2 as [Hx Hl2]. constructor; auto.
  - apply Forall_cons in Hl2 as [_ Hl2]. auto.
Qed.

Lemma StronglySorted_sublist {A} (R : A -> A -> Prop) (l1 l2 : list A) :
  l1 `sublist_of` l2 -> StronglySorted R l2 -> StronglySorted R l1.
Proof.
  induction 1 as [|x l1 l2 Hsub IH|x l1 l2 Hsub IH]; intros Hsorted; [done| |].
  - apply StronglySorted_cons in Hsorted as [Hx Hl2].
    apply StronglySorted_cons. split; [|by apply IH].
    by eapply Forall_sublist.
  - apply StronglySorted_cons in Hsorted as [_ Hl2]. by apply IH.
Qed.

Lemma ids_of_trail (ls : LocalStorage) :
  JournalEntry.id <$> stored_entries ls = fst <$> trail ls.
Proof. unfold trail. by rewrite <- list_fmap_compose. Qed.

Lemma timestamps_of_trail (ls : LocalStorage) :
  JournalEntry.timestamp <$> stored_entries ls = snd <$> trail ls.
Proof. unfold trail. by rewrite <- list_fmap_compose. Qed.

(** X5. Ids stay unique: when the stored entries have distinct ids and the
    id that [saveJournalEntry] gets from [crypto.randomUUID()] is not among
    them, the stored entries have distinct ids after any operation,
    however the storage behaves. *)
Theorem ids_stay_unique (o : Op) (ls : LocalStorage) :
  NoDup (JournalEntry.id <$> stored_entries ls) ->
  Forall (fun t => fst t ∉ JournalEntry.id <$> stored_entries ls) (added_identity o) ->
  NoDup (JournalEntry.id <$> stored_entries (run o ls)).
Proof.
  intros Hnodup Hfresh. rewrite ids_of_trail in *.
  pose proof (run_trail o ls) as Hsub. apply (fmap_sublist fst) in Hsub.
  refine (sublist_NoDup _ _ _ Hsub). clear Hsub.
  destruct o; cbn [added_identity app] in *; try done.
  apply Forall_cons in Hfresh as [Hfresh _].
  rewrite fmap_cons. by constructor.
Qed.

(** A new entry with an id of its own, added to the two sample entries. *)
Lemma ids_stay_unique_witness :
  NoDup (JournalEntry.id <$> stored_entries (snd (save (nth_save 3) tight_storage))).
Proof.
  apply (ids_stay_unique
           (SaveEntry (arg_browser (nth_save 3)) scalping "chart.png"
                      sample_analysis (Some "BTCUSD") None) tight_storage).
  - apply NoDup_ListNoDup. repeat constructor; simpl; intuition discriminate.
  - repeat constructor. simpl. intros H.
    apply list_elem_of_In in H. simpl in H. intuition discriminate.
Defined.

(** X6. The newest entry stays first: when the stored entries are in
    non-increasing order of creation time and the clock read by
    [saveJournalEntry] is not behind any of them, they are in that order
    after any operation, however the storage behaves. *)
Theorem creation_order_kept (o : Op) (ls : LocalStorage) :
  StronglySorted (fun a b => b <= a) (JournalEntry.timestamp <$> stored_entries ls) ->
  Forall (fun t => Forall (fun ts => ts <= snd t)
                          (JournalEntry.timestamp <$> stored_entries ls))
         (added_identity o) ->
  StronglySorted (fun a b => b <= a)
                 (JournalEntry.timestamp <$> stored_entries (run o ls)).
Proof.
  intros Hsorted Hclock. rewrite timestamps_of_trail in *.
  pose proof (run_trail o ls) as Hsub. apply (fmap_sublist snd) in Hsub.
  apply (StronglySorted_sublist _ _ _ Hsub). clear Hsub.
  destruct o; cbn [added_identity app] in *; try done.
  apply Forall_cons in Hclock as [Hclock _].
  rewrite fmap_cons. by constructor.
Qed.

(** A new entry stamped after the two sample entries. *)
Lemma creation_order_kept_witness :
  StronglySorted (fun a b => b <= a)
    (JournalEntry.timestamp <$> stored_entries (snd (save (nth_save 3) tight_storage))).
Proof.
  apply (creation_order_kept
           (SaveEntry (arg_browser (nth_save 3)) scalping "chart.png"
                      sample_analysis (Some "BTCUSD") None) tight_storage).
  - repeat constructor. by vm_compute.
  - repeat constructor; by vm_compute.
Defined.

(** *** Deleting, clearing, renaming *)

Lemma without_id_In (id : string) (l : list JournalEntry.t) (e : JournalEntry.t) :
  In e (without_id id l) <-> In e l /\ JournalEntry.id e <> id.
Proof.
  unfold without_id. rewrite filter_In, negb_true_iff, String.eqb_neq. done.
Qed.

Lemma without_id_absent (id : string) (l : list JournalEntry.t) :
  Forall (fun e => JournalEntry.id e <> id) l -> without_id id l = l.
Proof.
  induction 1 as [|e l He _ IH]; [done|].
  unfold without_id in *. simpl. rewrite IH.
  apply String.eqb_neq in He. by rewrite He.
Qed.

Lemma without_id_gone (id : string) (l : list JournalEntry.t) :
  Forall (fun e => JournalEntry.id e <> id) (without_id id l).
Proof.
  apply List.Forall_forall. intros e He. by apply without_id_In in He as [_ He].
Qed.

Lemma accepted_write (ls : LocalStorage) (journal : JournalStore) :
  setItem_throws ls journal = None ->
  with_writes ls (persist_writes (setItem_throws ls) journal)
  = with_writes ls [journal]
  /\ item (with_writes ls [journal]) = ItemJson (DocStore journal).
Proof.
  intros Haccept. unfold persist_writes. rewrite Haccept. split; [done|].
  unfold with_writes, item_after. cbn [item fold_left]. by rewrite Haccept.
Qed.

(** What is read after an accepted write: the journal written, or nothing
    when [getItem] throws. *)
Lemma journal_read_after_write (ls : LocalStorage) (journal : JournalStore) :
  setItem_throws ls journal = None ->
  journal_read (with_writes ls [journal])
  = Val (match getItem_throws ls with
         | Some _ => []
         | None => entries journal
         end).
Proof.
  intros Haccept. rewrite journal_read_value.
  destruct (accepted_write ls journal Haccept) as [_ ->].
  unfold with_writes. cbn [getItem_throws].
  by destruct (getItem_throws ls).
Qed.

Lemma journal_read_unreadable (ls : LocalStorage) (old : list JournalEntry.t) (e : JsError) :
  getItem_throws ls = Some e -> journal_read ls = Val old -> old = [].
Proof. intros Hget. rewrite journal_read_value, Hget. by intros [= <-]. Qed.

(** The entries left by an accepted delete. *)
Lemma deleteJournalEntry_removed_entries (id : string) (ls : LocalStorage)
      (old : list JournalEntry.t) :
  journal_read ls = Val old ->
  setItem_throws ls {| entries := without_id id old |} = None ->
  stored_entries (snd (deleteJournalEntry id ls)) = without_id id old.
Proof.
  intros Hread Haccept. rewrite deleteJournalEntry_value, Hread. cbn [snd].
  fold (without_id id old).
  destruct (accepted_write ls _ Haccept) as [-> Hitem].
  unfold stored_entries. by rewrite Hitem.
Qed.

(** X7. When the storage accepts the write, [deleteJournalEntry] leaves
    exactly the entries whose id differs, in their order; with an id that no
    entry has, the entries are as before.  After it, [updateJournalOutcome]
    with that id answers [false], and deleting again changes nothing. *)
Theorem deleteJournalEntry_removes (id : string) (ls : LocalStorage)
        (old : list JournalEntry.t) :
  journal_read ls = Val old ->
  setItem_throws ls {| entries := without_id id old |} = None ->
  let after := snd (deleteJournalEntry id ls) in
  stored_entries after = without_id id old
  /\ (forall e, In e (stored_entries after) <-> In e old /\ JournalEntry.id e <> id)
  /\ stored_entries after `sublist_of` old
  /\ (Forall (fun e => JournalEntry.id e <> id) old -> stored_entries after = old)
  /\ (forall outcome notes pnl now,
         fst (updateJournalOutcome id outcome notes pnl now after) = Val false)
  /\ stored_entries (snd (deleteJournalEntry id after)) = stored_entries after.
Proof.
  intros Hread Haccept after.
  assert (Hafter : after = with_writes ls [ {| entries := without_id id old |} ]).
  { subst after. rewrite deleteJournalEntry_value, Hread. cbn [snd].
    fold (without_id id old).
    by destruct (accepted_write ls _ Haccept) as [-> _]. }
  assert (Hstored : stored_entries after = without_id id old).
  { rewrite Hafter. unfold stored_entries.
    by destruct (accepted_write ls _ Haccept) as [_ ->]. }
  assert (Hread' : journal_read after = Val (without_id id old)).
  { rewrite Hafter, journal_read_after_write by done.
    destruct (getItem_throws ls) as [e|] eqn:Hget; [|done].
    pose proof (journal_read_unreadable _ _ _ Hget Hread). by subst old. }
  assert (Hsame : without_id id (without_id id old) = without_id id old)
    by apply without_id_absent, without_id_gone.
  assert (Haccept' : setItem_throws after {| entries := without_id id old |} = None)
    by (by rewrite Hafter).
  rewrite Hstored.
  split; [done|]. split; [intros e; apply without_id_In|].
  split; [apply filter_sublist_of|]. split; [apply without_id_absent|]. split.
  - intros. rewrite updateJournalOutcome_value, Hread'.
    rewrite findIndex_id_absent; [done|]. apply without_id_gone.
  - rewrite deleteJournalEntry_value, Hread'. cbn [snd].
    fold (without_id id (without_id id old)). rewrite Hsame.
    destruct (accepted_write after _ Haccept') as [-> Hitem].
    unfold stored_entries. by rewrite Hitem.
Qed.

(** Deleting the older of the two sample entries. *)
Lemma deleteJournalEntry_removes_witness :
  stored_entries (snd (deleteJournalEntry "older" roomy_storage)) = [newer].
Proof.
  apply (deleteJournalEntry_removes "older" roomy_storage [newer; older]).
  - reflexivity.
  - reflexivity.
Defined.

(** X8. Saving an entry and deleting it again gives back the journal: in a
    storage whose calls never throw, holding fewer than 50 entries none of
    which has the new id, the stored entries after [saveJournalEntry]
    followed by [deleteJournalEntry] of the new id are the ones before.  In
    between, the new entry is stored in front of them. *)
Theorem save_then_delete (a : SaveArgs) (ls : LocalStorage)
        (old : list JournalEntry.t) :
  accepts_all ls ->
  journal_read ls = Val old ->
  (length old < 50)%nat ->
  Forall (fun e => JournalEntry.id e <> randomUUID (arg_browser a)) old ->
  stored_entries (snd (save a ls)) = entry_of a :: old
  /\ stored_entries
       (snd (deleteJournalEntry (randomUUID (arg_browser a)) (snd (save a ls))))
     = old.
Proof.
  intros [Hget Hset] Hread Hlen Hfresh.
  assert (Hkeep : take MAX_ENTRIES (entry_of a :: old) = entry_of a :: old).
  { apply take_ge. simpl. unfold MAX_ENTRIES. lia. }
  assert (Hsaved : snd (save a ls) = with_writes ls [ {| entries := entry_of a :: old |} ]).
  { rewrite (save_accepted a ls old Hread) by apply Hset. by rewrite Hkeep. }
  assert (Hstored : stored_entries (snd (save a ls)) = entry_of a :: old).
  { rewrite Hsaved. unfold stored_entries.
    by destruct (accepted_write ls {| entries := entry_of a :: old |} (Hset _)) as [_ ->]. }
  split; [done|].
  assert (Hwithout : without_id (randomUUID (arg_browser a)) (entry_of a :: old) = old).
  { unfold without_id. simpl. rewrite String.eqb_refl. simpl.
    by apply without_id_absent. }
  rewrite (deleteJournalEntry_removed_entries _ _ (entry_of a :: old)); [done| |].
  - rewrite Hsaved, journal_read_after_write by apply Hset. by rewrite Hget.
  - rewrite Hsaved. apply Hset.
Qed.

(** A new entry saved next to the two sample entries, then deleted. *)
Lemma save_then_delete_witness :
  stored_entries (snd (save (nth_save 3) roomy_storage))
  = [entry_of (nth_save 3); newer; older]
  /\ stored_entries
       (snd (deleteJournalEntry (randomUUID (arg_browser (nth_save 3)))
                                (snd (save (nth_save 3) roomy_storage))))
     = [newer; older].
Proof.
  apply (save_then_delete (nth_save 3) roomy_storage [newer; older]).
  - split; [reflexivity | intros j; reflexivity].
  - reflexivity.
  - simpl. lia.
  - repeat constructor; discriminate.
Defined.

(** *** Statistics that do not look at a change *)

Lemma JournalStats_eq (s s' : JournalStats) :
  total s = total s' -> winCount s = winCount s' -> lossCount s = lossCount s' ->
  breakEvenCount s = breakEvenCount s' -> pendingCount s = pendingCount s' ->
  winRate s = winRate s' -> winRateScalping s = winRateScalping s' ->
  winRateSwing s = winRateSwing s' ->
  (currentStreak s, streakType s) = (currentStreak s', streakType s') ->
  totalPnl s = totalPnl s' -> avgPnl s = avgPnl s' ->
  s = s'.
Proof. destruct s, s'; simpl; intros; simplify_eq; done. Qed.

Lemma computeStats_pnl (entries : list JournalEntry.t) :
  let stats := computeStats entries in
  let withPnl := List.filter has_pnl entries in
  totalPnl stats = fold_left (fun sum e => (sum + pnl_or_0 e)%Q) withPnl 0%Q
  /\ avgPnl stats
     = if (0 <? length withPnl)%nat
       then (totalPnl stats / inject_Z (Z.of_nat (length withPnl)))%Q
       else 0%Q.
Proof. done. Qed.

Section SameForStats.
Variables (p : JournalEntry.t -> bool).
Hypothesis p_same : forall e e', same_for_stats e e' -> p e = p e'.

Lemma filter_same (l l' : list JournalEntry.t) :
  Forall2 same_for_stats l l' ->
  Forall2 same_for_stats (List.filter p l) (List.filter p l').
Proof.
  induction 1 as [|e e' l l' He _ IH]; simpl; [constructor|].
  rewrite <- (p_same e e' He). destruct (p e); [by constructor | done].
Qed.

Lemma count_same (l l' : list JournalEntry.t) :
  Forall2 same_for_stats l l' -> count p l = count p l'.
Proof. intros H. unfold count. by eapply Forall2_length, filter_same. Qed.
End SameForStats.

Lemma outcome_is_same (lit : TradeOutcome) (e e' : JournalEntry.t) :
  same_for_stats e e' -> outcome_is lit e = outcome_is lit e'.
Proof. intros (H & _). unfold outcome_is. by rewrite H. Qed.

Lemma is_pending_same (e e' : JournalEntry.t) :
  same_for_stats e e' -> is_pending e = is_pending e'.
Proof. intros (H & _). unfold is_pending, outcome_is. by rewrite H. Qed.

Lemma is_resolved_same (e e' : JournalEntry.t) :
  same_for_stats e e' -> is_resolved e = is_resolved e'.
Proof. intros (H & _). unfold is_resolved, outcome_is. by rewrite H. Qed.

Lemma is_win_or_loss_same (e e' : JournalEntry.t) :
  same_for_stats e e' -> is_win_or_loss e = is_win_or_loss e'.
Proof. intros (H & _). unfold is_win_or_loss, outcome_is. by rewrite H. Qed.

Lemma mode_is_same (m : Mode) (e e' : JournalEntry.t) :
  same_for_stats e e' -> mode_is m e = mode_is m e'.
Proof. intros (_ & H & _). unfold mode_is. by rewrite H. Qed.

Lemma has_pnl_same (e e' : JournalEntry.t) :
  same_for_stats e e' -> has_pnl e = has_pnl e'.
Proof. intros (_ & _ & _ & _ & H). unfold has_pnl. by rewrite H. Qed.

Lemma outcome_time_same (e e' : JournalEntry.t) :
  same_for_stats e e' -> outcome_time e = outcome_time e'.
Proof. intros (_ & _ & H1 & H2 & _). unfold outcome_time. by rewrite H1, H2. Qed.

Lemma sort_insert_same (x x' : JournalEntry.t) (l l' : list JournalEntry.t) :
  same_for_stats x x' ->
  Forall2 same_for_stats l l' ->
  Forall2 same_for_stats (sort_insert by_outcome_time_desc x l)
                         (sort_insert by_outcome_time_desc x' l').
Proof.
  intros Hx. induction 1 as [|y y' l l' Hy Hl IH]; simpl.
  - constructor; [done | constructor].
  - unfold by_outcome_time_desc at 1 3.
    rewrite (outcome_time_same x x' Hx), (outcome_time_same y y' Hy).
    destruct (_ <=? 0)%Z.
    + constructor; [done|]. by constructor.
    + by constructor.
Qed.

Lemma sort_same (l l' : list JournalEntry.t) :
  Forall2 same_for_stats l l' ->
  Forall2 same_for_stats (sort by_outcome_time_desc l) (sort by_outcome_time_desc l').
Proof.
  induction 1 as [|x x' l l' Hx _ IH]; simpl; [constructor|].
  by apply sort_insert_same.
Qed.

Lemma streak_loop_same (first : option TradeOutcome) (l l' : list JournalEntry.t) :
  Forall2 same_for_stats l l' ->
  forall n, streak_loop first l n = streak_loop first l' n.
Proof.
  induction 1 as [|x x' l l' (Hx & _) _ IH]; intros n; simpl; [done|].
  rewrite Hx. destruct (outcome_strict_eq _ _); [apply IH | done].
Qed.

Lemma total_pnl_same (l l' : list JournalEntry.t) :
  Forall2 same_for_stats l l' ->
  forall q, fold_left (fun sum e => (sum + pnl_or_0 e)%Q) l q
            = fold_left (fun sum e => (sum + pnl_or_0 e)%Q) l' q.
Proof.
  induction 1 as [|x x' l l' (_ & _ & _ & _ & Hx) _ IH]; intros q; simpl; [done|].
  unfold pnl_or_0 at 2 4. rewrite Hx. apply IH.
Qed.

(** Entries that agree on outcome, mode, times and pnl have the same
    statistics. *)
Lemma computeStats_same (l l' : list JournalEntry.t) :
  Forall2 same_for_stats l l' -> computeStats l = computeStats l'.
Proof.
  intros H.
  pose proof (computeStats_counts l) as Hc. pose proof (computeStats_counts l') as Hc'.
  pose proof (computeStats_rates l) as Hr. pose proof (computeStats_rates l') as Hr'.
  pose proof (computeStats_streak l) as Hs. pose proof (computeStats_streak l') as Hs'.
  pose proof (computeStats_pnl l) as Hp. pose proof (computeStats_pnl l') as Hp'.
  cbv zeta in *.
  destruct Hc as (C1 & C2 & C3 & C4 & C5), Hc' as (C1' & C2' & C3' & C4' & C5').
  destruct Hr as (Hg & Hm), Hr' as (Hg' & Hm').
  destruct Hp as (Ht & Ha), Hp' as (Ht' & Ha').
  assert (Hwl : forall lit, count (outcome_is lit) l = count (outcome_is lit) l')
    by (intros lit; apply count_same; [apply outcome_is_same | done]).
  assert (Hmode : forall m,
             Forall2 same_for_stats (List.filter (mode_is m) l) (List.filter (mode_is m) l'))
    by (intros m; apply filter_same; [apply mode_is_same | done]).
  assert (Hwlm : forall m lit,
             count (outcome_is lit) (List.filter (mode_is m) l)
             = count (outcome_is lit) (List.filter (mode_is m) l'))
    by (intros m lit; apply count_same; [apply outcome_is_same | done]).
  assert (Hpnl : Forall2 same_for_stats (List.filter has_pnl l) (List.filter has_pnl l'))
    by (apply filter_same; [apply has_pnl_same | done]).
  assert (Hsorted : Forall2 same_for_stats (sortedByOutcome l) (sortedByOutcome l'))
    by (apply sort_same, filter_same; [apply is_win_or_loss_same | done]).
  apply JournalStats_eq.
  - rewrite C1, C1'. by eapply Forall2_length.
  - rewrite C2, C2'. apply Hwl.
  - rewrite C3, C3'. apply Hwl.
  - rewrite C4, C4'. apply Hwl.
  - rewrite C5, C5'. apply count_same; [apply is_pending_same | done].
  - by rewrite Hg, Hg', !Hwl.
  - pose proof (Hm scalping) as H1. pose proof (Hm' scalping) as H2.
    cbn [win_rate_of_mode] in H1, H2. by rewrite H1, H2, !Hwlm.
  - pose proof (Hm swing) as H1. pose proof (Hm' swing) as H2.
    cbn [win_rate_of_mode] in H1, H2. by rewrite H1, H2, !Hwlm.
  - rewrite Hs, Hs'.
    destruct Hsorted as [|x x' r r' Hx Hrest]; [done|].
    destruct Hx as (Hx & Hx'). rewrite Hx. f_equal.
    apply streak_loop_same. constructor; [by split | done].
  - rewrite Ht, Ht'. by apply total_pnl_same.
  - rewrite Ha, Ha', Ht, Ht'.
    rewrite (Forall2_length _ _ _ Hpnl).
    by rewrite (total_pnl_same _ _ Hpnl).
Qed.

Lemma same_for_stats_refl (e : JournalEntry.t) : same_for_stats e e.
Proof. by repeat split. Qed.

Lemma insert_same_for_stats (old : list JournalEntry.t) (i : nat)
      (e e' : JournalEntry.t) :
  old !! i = Some e ->
  same_for_stats e e' ->
  Forall2 same_for_stats old (<[i := e']> old).
Proof.
  revert i. induction old as [|x old IH]; intros [|i] Hi He; simpl in *; try done.
  - injection Hi as ->. constructor; [done|].
    apply Forall2_same_length_lookup_2; [done|].
    intros j a b Ha Hb. rewrite Ha in Hb. injection Hb as <-. apply same_for_stats_refl.
  - constructor; [apply same_for_stats_refl | by apply IH].
Qed.

(** X9. [updateJournalPair] with an id present in the journal, in a storage
    that accepts the write, answers [true] and stores the list in which the
    first entry with that id has the new pair and is otherwise as before,
    every other entry untouched; the statistics of the journal are the same
    as before.  With an absent id it answers [false] and leaves the storage
    as it is. *)
Theorem updateJournalPair_frame (ls : LocalStorage) (id pair' : string)
        (old : list JournalEntry.t) :
  journal_read ls = Val old ->
  (forall (i : nat) (e : JournalEntry.t),
      old !! i = Some e ->
      JournalEntry.id e = id ->
      (forall j e', (j < i)%nat -> old !! j = Some e' -> JournalEntry.id e' <> id) ->
      setItem_throws ls {| entries := <[i := with_pair e pair']> old |} = None ->
      let r := updateJournalPair id pair' ls in
      fst r = Val true
      /\ stored_entries (snd r) = <[i := with_pair e pair']> old
      /\ JournalEntry.pair (with_pair e pair') = Some pair'
      /\ identity (with_pair e pair') = identity e
      /\ JournalEntry.imageThumbnail (with_pair e pair') = JournalEntry.imageThumbnail e
      /\ JournalEntry.analysis (with_pair e pair') = JournalEntry.analysis e
      /\ JournalEntry.notes (with_pair e pair') = JournalEntry.notes e
      /\ same_for_stats e (with_pair e pair')
      /\ computeStats (stored_entries (snd r)) = computeStats old)
  /\ (Forall (fun e => JournalEntry.id e <> id) old ->
      updateJournalPair id pair' ls = (Val false, ls)).
Proof.
  intros Hread. split.
  - intros i e Hi Hid Hfirst Haccept r. subst r.
    rewrite updateJournalPair_value, Hread.
    rewrite (findIndex_id_first id old i e) by done. cbn [fst snd].
    destruct (accepted_write ls _ Haccept) as [-> Hitem].
    unfold persist_saved, persist_journal, persist_writes.
    rewrite Haccept. cbn [List.last]. rewrite Haccept.
    unfold stored_entries. rewrite Hitem. cbn [entries].
    repeat split.
    symmetry. apply computeStats_same, (insert_same_for_stats old i e); [done|].
    by repeat split.
  - intros Habsent. rewrite updateJournalPair_value, Hread.
    by rewrite findIndex_id_absent.
Qed.

(** Naming the pair of the older sample entry. *)
Lemma updateJournalPair_frame_witness :
  fst (updateJournalPair "older" "ETHUSD" roomy_storage) = Val true
  /\ stored_entries (snd (updateJournalPair "older" "ETHUSD" roomy_storage))
     = [newer; with_pair older "ETHUSD"].
Proof.
  destruct (proj1 (updateJournalPair_frame roomy_storage "older" "ETHUSD"
                     [newer; older] eq_refl) 1%nat older)
    as (H1 & H2 & _).
  - reflexivity.
  - reflexivity.
  - intros [|j] e' Hj He'; [|lia]. injection He' as <-. discriminate.
  - reflexivity.
  - split; [exact H1 | exact H2].
Defined.

(** X10. [clearJournal] repairs any journal: when [removeItem] works, the
    item is gone afterwards, [getJournal] returns the empty list and
    [getJournalStats] returns all-zero statistics with streak type NONE,
    whatever the item was before, a corrupt one included; when
    [removeItem] throws, the storage is left as it is.  Nothing is thrown
    either way. *)
Theorem clearJournal_resets (ls : LocalStorage) :
  fst (clearJournal ls) = Val tt
  /\ (removeItem_throws ls = None ->
      item (snd (clearJournal ls)) = ItemAbsent
      /\ fst (getJournal (snd (clearJournal ls))) = Val (DocStore {| entries := [] |})
      /\ fst (getJournalStats (snd (clearJournal ls))) = Val no_stats)
  /\ (removeItem_throws ls <> None -> snd (clearJournal ls) = ls).
Proof.
  rewrite clearJournal_value. cbn [fst snd]. split; [done|]. split.
  - intros ->. split; [done|].
    rewrite getJournalStats_value, journal_read_value, getJournal_value.
    cbn [fst item getItem_throws]. by destruct (getItem_throws ls).
  - by destruct (removeItem_throws ls).
Qed.

(** Clearing a storage whose item is the text [{}]: the statistics threw
    before and are all zero after. *)
Lemma clearJournal_resets_witness :
  fst (getJournalStats corrupt_storage) = Exn TypeError
  /\ fst (getJournalStats (snd (clearJournal corrupt_storage))) = Val no_stats.
Proof.
  split; [reflexivity|].
  apply (proj1 (proj2 (clearJournal_resets corrupt_storage))). reflexivity.
Defined.

(** X11. A saved entry starts as pending and moves nothing else: when the
    journal has fewer than 50 entries and the storage accepts the write,
    the statistics after [saveJournalEntry] are those before with the total
    and the pending count one higher; the counts of wins, losses and
    break-evens, the three win rates, the streak and the P&L figures are
    the same. *)
Theorem save_adds_one_pending (a : SaveArgs) (ls : LocalStorage)
        (old : list JournalEntry.t) :
  journal_read ls = Val old ->
  (length old < 50)%nat ->
  setItem_throws ls {| entries := entry_of a :: old |} = None ->
  computeStats (stored_entries (snd (save a ls))) = one_more_pending (computeStats old)
  /\ JournalEntry.outcome (entry_of a) = Some PENDING.
Proof.
  intros Hread Hlen Haccept.
  assert (Hkeep : take MAX_ENTRIES (entry_of a :: old) = entry_of a :: old).
  { apply take_ge. simpl. unfold MAX_ENTRIES. lia. }
  rewrite (save_accepted a ls old Hread) by (by rewrite Hkeep).
  rewrite Hkeep. unfold stored_entries.
  destruct (accepted_write ls _ Haccept) as [_ ->]. cbn [entries].
  split; [|done].
  unfold computeStats, one_more_pending. cbn [total winCount lossCount breakEvenCount
    pendingCount winRate winRateScalping winRateSwing currentStreak streakType
    totalPnl avgPnl].
  unfold sortedByOutcome. cbn [List.filter length].
  assert (Hw : forall lit, lit <> PENDING -> outcome_is lit (entry_of a) = false)
    by (by intros []).
  rewrite !Hw by done.
  assert (is_pending (entry_of a) = true) as -> by done.
  assert (is_win_or_loss (entry_of a) = false) as -> by done.
  assert (has_pnl (entry_of a) = false) as -> by done.
  destruct (mode_is scalping (entry_of a)), (mode_is swing (entry_of a));
    cbn [List.filter length];
    rewrite ?Hw by done;
    assert (is_resolved (entry_of a) = false) as Hres by done;
    rewrite ?Hres; reflexivity.
Qed.

(** A new entry saved next to the two sample entries. *)
Lemma save_adds_one_pending_witness :
  computeStats (stored_entries (snd (save (nth_save 3) roomy_storage)))
  = one_more_pending (computeStats [newer; older]).
Proof.
  apply (save_adds_one_pending (nth_save 3) roomy_storage [newer; older]).
  - reflexivity.
  - simpl. lia.
  - reflexivity.
Defined.

(** *** Counts, rates, streak and P&L *)

Lemma count_insert (p : JournalEntry.t -> bool) (l : list JournalEntry.t)
      (i : nat) (e x : JournalEntry.t) :
  l !! i = Some e ->
  (count p (<[i := x]> l) + indicator (p e) = count p l + indicator (p x))%nat.
Proof.
  revert i. induction l as [|y l IH]; intros [|i] Hi; simpl in *; try done.
  - injection Hi as ->. rewrite !count_cons. unfold indicator.
    destruct (p e), (p x); lia.
  - rewrite !count_cons. specialize (IH i Hi). lia.
Qed.

(** X12. Setting an outcome moves exactly one entry between the counts: in
    a storage that accepts the write, after [updateJournalOutcome] of an
    entry the total is unchanged, and each of the WIN, LOSS, BREAKEVEN and
    PENDING counts is the one before, less one if the entry was counted
    there, plus one if the new outcome is counted there. *)
Theorem outcome_update_moves_one_count (ls : LocalStorage) (id : string)
        (outcome : TradeOutcome) (notes : option string) (pnl : option Q) (now : Z)
        (old : list JournalEntry.t) (i : nat) (e : JournalEntry.t) :
  journal_read ls = Val old ->
  old !! i = Some e ->
  JournalEntry.id e = id ->
  (forall j e', (j < i)%nat -> old !! j = Some e' -> JournalEntry.id e' <> id) ->
  setItem_throws ls
    {| entries := <[i := with_outcome e outcome notes pnl now]> old |} = None ->
  let before := computeStats old in
  let after :=
    computeStats (stored_entries (snd (updateJournalOutcome id outcome notes pnl now ls))) in
  total after = total before
  /\ (winCount after + indicator (outcome_is WIN e)
      = winCount before + indicator (TradeOutcome_eqb outcome WIN))%nat
  /\ (lossCount after + indicator (outcome_is LOSS e)
      = lossCount before + indicator (TradeOutcome_eqb outcome LOSS))%nat
  /\ (breakEvenCount after + indicator (outcome_is BREAKEVEN e)
      = breakEvenCount before + indicator (TradeOutcome_eqb outcome BREAKEVEN))%nat
  /\ (pendingCount after + indicator (is_pending e)
      = pendingCount before + indicator (TradeOutcome_eqb outcome PENDING))%nat.
Proof.
  intros Hread Hi Hid Hfirst Haccept before after.
  assert (Hstored :
    stored_entries (snd (updateJournalOutcome id outcome notes pnl now ls))
    = <[i := with_outcome e outcome notes pnl now]> old).
  { rewrite updateJournalOutcome_value, Hread.
    rewrite (findIndex_id_first id old i e) by done. cbn [snd].
    destruct (accepted_write ls _ Haccept) as [-> Hitem].
    unfold stored_entries. by rewrite Hitem. }
  subst before after. rewrite Hstored.
  pose proof (computeStats_counts old) as Hc.
  pose proof (computeStats_counts (<[i := with_outcome e outcome notes pnl now]> old)) as Hc'.
  cbv zeta in Hc, Hc'.
  destruct Hc as (-> & -> & -> & -> & ->), Hc' as (-> & -> & -> & -> & ->).
  split; [apply length_insert|].
  assert (Hlit : forall lit,
             outcome_is lit (with_outcome e outcome notes pnl now)
             = TradeOutcome_eqb outcome lit) by done.
  split; [|split; [|split]].
  - rewrite <- Hlit. by apply count_insert.
  - rewrite <- Hlit. by apply count_insert.
  - rewrite <- Hlit. by apply count_insert.
  - replace (TradeOutcome_eqb outcome PENDING)
      with (is_pending (with_outcome e outcome notes pnl now)) by done.
    by apply count_insert.
Qed.

(** The older sample entry, a win, is set to a loss. *)
Lemma outcome_update_moves_one_count_witness :
  let after :=
    computeStats (stored_entries
      (snd (updateJournalOutcome "older" LOSS None None 1700000000000 roomy_storage))) in
  total after = total (computeStats [newer; older])
  /\ (winCount after + indicator (outcome_is WIN older)
      = winCount (computeStats [newer; older]) + indicator (TradeOutcome_eqb LOSS WIN))%nat.
Proof.
  destruct (outcome_update_moves_one_count roomy_storage "older" LOSS None None
              1700000000000 [newer; older] 1%nat older) as (H1 & H2 & _).
  - reflexivity.
  - reflexivity.
  - reflexivity.
  - intros [|j] e' Hj He'; [|lia]. injection He' as <-. discriminate.
  - reflexivity.
  - split; [exact H1 | exact H2].
Defined.

(** A win rate computed from no more wins than resolved entries lies
    between 0 and 100. *)
Lemma win_rate_bounds (wins resolved : nat) :
  (wins <= resolved)%nat ->
  (0 <= win_rate wins resolved /\ win_rate wins resolved <= 100)%Q.
Proof.
  intros Hle. unfold win_rate.
  destruct (0 <? resolved)%nat eqn:Hpos; [|split; lra].
  apply Nat.ltb_lt in Hpos.
  assert (Hr : (0 < inject_Z (Z.of_nat resolved))%Q).
  { change 0%Q with (inject_Z 0). rewrite <- Zlt_Qlt. lia. }
  assert (Hw : (0 <= inject_Z (Z.of_nat wins))%Q).
  { change 0%Q with (inject_Z 0). rewrite <- Zle_Qle. lia. }
  assert (Hwr : (inject_Z (Z.of_nat wins) <= inject_Z (Z.of_nat resolved))%Q).
  { rewrite <- Zle_Qle. lia. }
  assert (H0 : (0 <= inject_Z (Z.of_nat wins) / inject_Z (Z.of_nat resolved))%Q).
  { apply Qle_shift_div_l; [done|]. lra. }
  assert (H1 : (inject_Z (Z.of_nat wins) / inject_Z (Z.of_nat resolved) <= 1)%Q).
  { apply Qle_shift_div_r; [done|]. lra. }
  split; lra.
Qed.

(** X13. Every win rate that [getJournalStats] returns, the global one and
    the two per mode, lies between 0 and 100, so the clamp
    [Math.min(winRate, 100)] of the statistics panel never changes the
    value it draws; and the "resolved trades" the panel shows are the
    entries that are not pending. *)
Theorem win_rates_are_percentages (entries : list JournalEntry.t) :
  let stats := computeStats entries in
  (0 <= winRate stats /\ winRate stats <= 100)%Q
  /\ (0 <= winRateScalping stats /\ winRateScalping stats <= 100)%Q
  /\ (0 <= winRateSwing stats /\ winRateSwing stats <= 100)%Q
  /\ bar_width stats = winRate stats
  /\ (resolvedTrades stats + pendingCount stats = total stats)%nat.
Proof.
  intros stats. subst stats.
  pose proof (computeStats_rates entries) as H. cbv zeta in H.
  destruct H as [Hg Hm].
  assert (Hglobal : (0 <= winRate (computeStats entries)
                     /\ winRate (computeStats entries) <= 100)%Q).
  { rewrite Hg. apply win_rate_bounds. lia. }
  assert (Hmode : forall m,
             (0 <= win_rate_of_mode m (computeStats entries)
              /\ win_rate_of_mode m (computeStats entries) <= 100)%Q).
  { intros m. rewrite Hm. apply win_rate_bounds. lia. }
  split; [done|]. split; [apply (Hmode scalping)|]. split; [apply (Hmode swing)|].
  split.
  - unfold bar_width, Qmin, GenericMinMax.gmin.
    destruct Hglobal as [_ Hle].
    pose proof (proj1 (Qle_alt _ _) Hle) as Hcmp.
    destruct (winRate (computeStats entries) ?= 100)%Q eqn:E; congruence.
  - unfold resolvedTrades.
    pose proof (computeStats_counts entries) as Hc. cbv zeta in Hc.
    destruct Hc as (-> & -> & -> & -> & ->).
    symmetry. apply counts_partition.
Qed.

Lemma count_Permutation (p : JournalEntry.t -> bool) (l l' : list JournalEntry.t) :
  Permutation l l' -> count p l = count p l'.
Proof.
  induction 1 as [|x l l' _ IH|x y l|l l' l'' _ IH1 _ IH2];
    rewrite ?count_cons; try done; lia.
Qed.

Lemma count_app (p : JournalEntry.t -> bool) (l l' : list JournalEntry.t) :
  count p (l ++ l') = (count p l + count p l')%nat.
Proof. unfold count. by rewrite List.filter_app, length_app. Qed.

Lemma count_all (p : JournalEntry.t -> bool) (l : list JournalEntry.t) :
  Forall (fun e => p e = true) l -> count p l = length l.
Proof.
  induction 1 as [|e l He _ IH]; [done|]. rewrite count_cons, He, IH. done.
Qed.

Lemma count_filter_win_or_loss (lit : TradeOutcome) (l : list JournalEntry.t) :
  lit = WIN \/ lit = LOSS ->
  count (outcome_is lit) (List.filter is_win_or_loss l) = count (outcome_is lit) l.
Proof.
  intros Hlit. induction l as [|e l IH]; [done|].
  simpl. destruct (is_win_or_loss e) eqn:Hwl.
  - by rewrite !count_cons, IH.
  - rewrite count_cons, IH.
    assert (outcome_is lit e = false) as ->; [|done].
    unfold is_win_or_loss, outcome_is in *.
    destruct (JournalEntry.outcome e) as [[]|], Hlit as [-> | ->]; done.
Qed.

Lemma length_filter_win_or_loss (l : list JournalEntry.t) :
  length (List.filter is_win_or_loss l)
  = (count (outcome_is WIN) l + count (outcome_is LOSS) l)%nat.
Proof.
  induction l as [|e l IH]; [done|].
  simpl. rewrite !count_cons.
  destruct (is_win_or_loss e) eqn:Hwl; simpl; rewrite IH;
    unfold is_win_or_loss, outcome_is in *;
    destruct (JournalEntry.outcome e) as [[]|]; simpl in *;
    first [lia | discriminate].
Qed.

Lemma sortedByOutcome_count (lit : TradeOutcome) (l : list JournalEntry.t) :
  lit = WIN \/ lit = LOSS ->
  count (outcome_is lit) (sortedByOutcome l) = count (outcome_is lit) l.
Proof.
  intros Hlit. unfold sortedByOutcome.
  rewrite (count_Permutation _ _ _ (sort_Permutation _ _)).
  by apply count_filter_win_or_loss.
Qed.

Lemma sortedByOutcome_length (l : list JournalEntry.t) :
  length (sortedByOutcome l)
  = (count (outcome_is WIN) l + count (outcome_is LOSS) l)%nat.
Proof.
  unfold sortedByOutcome.
  rewrite (Permutation_length (sort_Permutation _ _)).
  apply length_filter_win_or_loss.
Qed.

(** The streak and its type, from the sorted list. *)
Lemma streak_facts (entries : list JournalEntry.t) :
  let stats := computeStats entries in
  (sortedByOutcome entries = []
   /\ currentStreak stats = 0%nat /\ streakType stats = NONE)
  \/ exists lit,
      (lit = WIN \/ lit = LOSS)
      /\ streakType stats = OfOutcome (Some lit)
      /\ (1 <= currentStreak stats <= count (outcome_is lit) entries)%nat.
Proof.
  intros stats. subst stats.
  pose proof (computeStats_streak entries) as Hs. cbv zeta in Hs.
  destruct (sortedByOutcome entries) as [|first rest] eqn:Hsorted.
  - left. split; [done|].
    pose proof (f_equal fst Hs) as H1. pose proof (f_equal snd Hs) as H2.
    by cbn [fst snd] in H1, H2.
  - right.
    pose proof (f_equal fst Hs) as H1. pose proof (f_equal snd Hs) as H2.
    cbn [fst snd] in H1, H2.
    assert (Hfirst : won_or_lost first).
    { apply (sortedByOutcome_In entries first). rewrite Hsorted. by left. }
    assert (exists lit, (lit = WIN \/ lit = LOSS)
                        /\ JournalEntry.outcome first = Some lit) as (lit & Hlit & Hout).
    { destruct Hfirst as [H|H]; eauto. }
    exists lit. split; [done|]. split; [by rewrite H2, Hout|].
    destruct (streak_loop_run (JournalEntry.outcome first) (first :: rest) 0)
      as (run & others & Hsplit & Hloop & Hrun & Hothers).
    rewrite H1, Hloop. split.
    + destruct run as [|e run]; simpl; [|lia].
      simpl in Hsplit. subst others. by destruct (Hothers first).
    + rewrite <- (sortedByOutcome_count lit entries Hlit), Hsorted, Hsplit, count_app.
      rewrite (count_all (outcome_is lit) run); [lia|].
      eapply Forall_impl; [exact Hrun|]. intros e He. cbn beta in He.
      unfold outcome_is. rewrite He, Hout. by destruct lit.
Qed.

(** X14. The streak never exceeds what the counts allow: its type is NONE,
    WIN or LOSS; it is NONE exactly when the streak is 0, which is exactly
    when the journal has neither a win nor a loss; a WIN streak is at
    least 1 and at most the number of wins, a LOSS streak at least 1 and at
    most the number of losses. *)
Theorem streak_within_counts (entries : list JournalEntry.t) :
  let stats := computeStats entries in
  (streakType stats = NONE
   \/ streakType stats = OfOutcome (Some WIN)
   \/ streakType stats = OfOutcome (Some LOSS))
  /\ (streakType stats = NONE <-> currentStreak stats = 0%nat)
  /\ (currentStreak stats = 0%nat <-> (winCount stats + lossCount stats = 0)%nat)
  /\ (streakType stats = OfOutcome (Some WIN) ->
      (1 <= currentStreak stats <= winCount stats)%nat)
  /\ (streakType stats = OfOutcome (Some LOSS) ->
      (1 <= currentStreak stats <= lossCount stats)%nat).
Proof.
  intros stats.
  pose proof (streak_facts entries) as H. cbv zeta in H. fold stats in H.
  pose proof (sortedByOutcome_length entries) as Hlen.
  pose proof (computeStats_counts entries) as Hc. cbv zeta in Hc. fold stats in Hc.
  destruct Hc as (_ & Hw & Hl & _).
  assert (Hsome : forall lit,
             (1 <= count (outcome_is lit) entries)%nat ->
             lit = WIN \/ lit = LOSS ->
             (winCount stats + lossCount stats <> 0)%nat).
  { intros lit H1 [-> | ->]; rewrite Hw, Hl; lia. }
  destruct H as [(Hnil & H0 & Hnone)|(lit & Hlit & Htype & Hrange)].
  - rewrite Hnil in Hlen. simpl in Hlen. rewrite H0, Hnone, Hw, Hl.
    split; [by left|]. split; [done|]. split; [split; intros; lia|].
    split; intros; discriminate.
  - rewrite Htype.
    split; [destruct Hlit as [-> | ->]; auto|].
    split; [split; [discriminate | lia]|].
    split; [split; [lia|]|].
    { intros Hzero. exfalso. apply (Hsome lit); [lia | done | done]. }
    split; intros [= ->]; rewrite ?Hw, ?Hl; lia.
Qed.

(** The four sample entries: a WIN streak of 2, with 3 wins in all. *)
Lemma streak_within_counts_witness :
  (1 <= currentStreak (computeStats four_outcomes)
     <= winCount (computeStats four_outcomes))%nat.
Proof.
  apply (proj1 (proj2 (proj2 (proj2 (streak_within_counts four_outcomes))))).
  reflexivity.
Defined.

(** X16. The journal panel and the statistics agree: the list shown under
    the filter ALL has [total] entries, and the lists shown under WIN,
    LOSS, BREAKEVEN and PENDING have [winCount], [lossCount],
    [breakEvenCount] and [pendingCount] entries, entries without outcome
    being shown under PENDING; each shown list keeps the entries' order. *)
Theorem filters_match_counts (entries : list JournalEntry.t) :
  let stats := computeStats entries in
  length (filteredEntries entries ALL) = total stats
  /\ length (filteredEntries entries (Only WIN)) = winCount stats
  /\ length (filteredEntries entries (Only LOSS)) = lossCount stats
  /\ length (filteredEntries entries (Only BREAKEVEN)) = breakEvenCount stats
  /\ length (filteredEntries entries (Only PENDING)) = pendingCount stats
  /\ (forall filter, filteredEntries entries filter `sublist_of` entries)
  /\ (forall e, JournalEntry.outcome e = None ->
                In e entries -> In e (filteredEntries entries (Only PENDING))).
Proof.
  intros stats.
  pose proof (computeStats_counts entries) as Hc. cbv zeta in Hc. fold stats in Hc.
  destruct Hc as (-> & -> & -> & -> & ->).
  assert (Hlit : forall lit, lit <> PENDING ->
             List.filter (fun e => TradeOutcome_eqb (outcome_or_pending e) lit) entries
             = List.filter (outcome_is lit) entries).
  { intros lit Hlit. apply filter_ext. intros e.
    unfold outcome_or_pending, outcome_is.
    destruct (JournalEntry.outcome e) as [o|]; [done|]. by destruct lit. }
  assert (Hpending :
            List.filter (fun e => TradeOutcome_eqb (outcome_or_pending e) PENDING) entries
            = List.filter is_pending entries).
  { apply filter_ext. intros e. unfold outcome_or_pending, is_pending, outcome_is.
    by destruct (JournalEntry.outcome e) as [o|]. }
  unfold filteredEntries, count.
  rewrite !Hlit, Hpending by done.
  repeat split.
  - intros [|f]; [done | apply filter_sublist_of].
  - intros e He Hin. apply filter_In. split; [done|].
    unfold is_pending. by rewrite He.
Qed.

Lemma fold_pnl_sum (l : list JournalEntry.t) :
  forall q,
    (fold_left (fun sum e => sum + pnl_or_0 e) (List.filter has_pnl l) q
     == q + Qsum (defined_pnls l))%Q.
Proof.
  induction l as [|e l IH]; intros q; simpl.
  - unfold Qsum. simpl. ring.
  - unfold has_pnl, defined_pnls, pnl_or_0 at 1. simpl.
    destruct (JournalEntry.pnl e) as [x|] eqn:He; simpl.
    + rewrite IH. unfold pnl_or_0. rewrite He. unfold Qsum. simpl.
      change (omap JournalEntry.pnl l) with (defined_pnls l). ring.
    + apply IH.
Qed.

Lemma Qsum_app (l l' : list Q) :
  (Qsum (l ++ l') == Qsum l + Qsum l')%Q.
Proof.
  unfold Qsum. induction l as [|x l IH]; simpl; [ring|].
  rewrite IH. ring.
Qed.

Lemma Qsum_sign (l : list Q) :
  (Forall (fun p => 0 <= p)%Q l -> 0 <= Qsum l)%Q
  /\ (Forall (fun p => p <= 0)%Q l -> Qsum l <= 0)%Q.
Proof.
  unfold Qsum. split; induction 1 as [|x l Hx _ IH]; simpl; lra.
Qed.

Lemma defined_pnls_app (l l' : list JournalEntry.t) :
  defined_pnls (l ++ l') = defined_pnls l ++ defined_pnls l'.
Proof. apply omap_app. Qed.

Lemma defined_pnls_cons (e : JournalEntry.t) (l : list JournalEntry.t) :
  defined_pnls (e :: l)
  = match JournalEntry.pnl e with
    | Some p => p :: defined_pnls l
    | None => defined_pnls l
    end.
Proof. done. Qed.

Lemma Qsum_cons (x : Q) (l : list Q) : (Qsum (x :: l) == x + Qsum l)%Q.
Proof. done. Qed.

Lemma totalPnl_sum (l : list JournalEntry.t) :
  (totalPnl (computeStats l) == Qsum (defined_pnls l))%Q.
Proof.
  pose proof (computeStats_pnl l) as Hl. cbv zeta in Hl.
  destruct Hl as [-> _]. rewrite fold_pnl_sum. ring.
Qed.

Lemma avgPnl_quotient (l : list JournalEntry.t) :
  avgPnl (computeStats l)
  = if (0 <? count has_pnl l)%nat
    then (totalPnl (computeStats l) / inject_Z (Z.of_nat (count has_pnl l)))%Q
    else 0%Q.
Proof. done. Qed.

Lemma one_le_inject (n : nat) : (0 < n)%nat -> (1 <= inject_Z (Z.of_nat n))%Q.
Proof.
  intros Hn. change 1%Q with (inject_Z 1). rewrite <- Zle_Qle. lia.
Qed.

(** X15. The P&L figures, in what does not turn on rounding or on the
    order of a sum.  With no entry that has a [pnl], [totalPnl] and
    [avgPnl] are 0.  Both depend only on the entries that have a [pnl], in
    their order: entries without one can come and go.  An entry whose [pnl]
    is 0 leaves [totalPnl] as it is and counts in the average, which is
    then the total over one more entry.  When no [pnl] is negative,
    [avgPnl] lies between 0 and [totalPnl]; when none is positive, between
    [totalPnl] and 0. *)
Theorem pnl_figures (entries : list JournalEntry.t) :
  let stats := computeStats entries in
  let n := count has_pnl entries in
  (n = 0%nat -> totalPnl stats = 0%Q /\ avgPnl stats = 0%Q)
  /\ (forall entries',
         List.filter has_pnl entries' = List.filter has_pnl entries ->
         totalPnl (computeStats entries') = totalPnl stats
         /\ avgPnl (computeStats entries') = avgPnl stats)
  /\ (forall before after e0,
         entries = before ++ after ->
         JournalEntry.pnl e0 = Some 0%Q ->
         let stats' := computeStats (before ++ e0 :: after) in
         (totalPnl stats' == totalPnl stats)%Q
         /\ (avgPnl stats' == totalPnl stats / inject_Z (Z.of_nat (S n)))%Q)
  /\ (Forall (fun p => 0 <= p)%Q (defined_pnls entries) ->
      (0 <= avgPnl stats)%Q /\ (avgPnl stats <= totalPnl stats)%Q)
  /\ (Forall (fun p => p <= 0)%Q (defined_pnls entries) ->
      (totalPnl stats <= avgPnl stats)%Q /\ (avgPnl stats <= 0)%Q).
Proof.
  intros stats n.
  pose proof (computeStats_pnl entries) as H. cbv zeta in H. fold stats in H.
  destruct H as [Ht Ha].
  pose proof (totalPnl_sum entries) as Hsum. fold stats in Hsum.
  pose proof (avgPnl_quotient entries) as Havg. fold stats n in Havg.
  split; [|split; [|split; [|split]]].
  - intros Hn. subst n. unfold count in Hn.
    apply length_zero_iff_nil in Hn. by rewrite Ha, Ht, Hn.
  - intros entries' Hsame.
    pose proof (computeStats_pnl entries') as H'. cbv zeta in H'.
    destruct H' as [Ht' Ha'].
    assert (totalPnl (computeStats entries') = totalPnl stats) as Htotal
      by (by rewrite Ht', Ht, Hsame).
    split; [done|]. by rewrite Ha', Ha, Htotal, Hsame.
  - intros before after e0 -> He0 stats'.
    assert (Htotal' : (totalPnl stats' == totalPnl stats)%Q).
    { unfold stats', stats. rewrite !totalPnl_sum, !defined_pnls_app.
      rewrite defined_pnls_cons, He0, !Qsum_app, Qsum_cons. ring. }
    split; [done|].
    unfold stats'. rewrite avgPnl_quotient. fold stats'.
    assert (count has_pnl (before ++ e0 :: after) = S n) as ->.
    { unfold n. rewrite !count_app, count_cons. unfold has_pnl at 2.
      rewrite He0. simpl. lia. }
    cbn [Nat.ltb Nat.leb]. by rewrite Htotal'.
  - intros Hsign. apply Qsum_sign in Hsign. rewrite <- Hsum in Hsign.
    rewrite Havg. destruct (0 <? n)%nat eqn:Hn; [|split; [done|lra]].
    apply Nat.ltb_lt, one_le_inject in Hn.
    split.
    + apply Qle_shift_div_l; lra.
    + apply Qle_shift_div_r; [lra|]. nra.
  - intros Hsign. apply Qsum_sign in Hsign. rewrite <- Hsum in Hsign.
    rewrite Havg. destruct (0 <? n)%nat eqn:Hn; [|split; [lra|done]].
    apply Nat.ltb_lt, one_le_inject in Hn.
    split.
    + apply Qle_shift_div_l; [lra|]. nra.
    + apply Qle_shift_div_r; lra.
Qed.

(** The older sample entry with a gain of 2.5 percent, the newer one with
    a pnl of 0: the average lies between 0 and the total. *)
Lemma pnl_figures_witness :
  let l := [ with_outcome newer LOSS None (Some 0%Q) 1700000000000;
             with_outcome older WIN None (Some (5 # 2)%Q) 1700000000000 ] in
  (0 <= avgPnl (computeStats l))%Q
  /\ (avgPnl (computeStats l) <= totalPnl (computeStats l))%Q.
Proof.
  apply (proj1 (proj2 (proj2 (proj2 (pnl_figures
           [ with_outcome newer LOSS None (Some 0%Q) 1700000000000;
             with_outcome older WIN None (Some (5 # 2)%Q) 1700000000000 ]))))).
  repeat constructor; discriminate.
Defined.

(** *** The retry wrapper, once more *)

Lemma stops_or_fails {St T : Type} (attempt : nat) (r : (ErrValue + T) * St) :
  stops_at attempt r \/ fails_retryably r.
Proof.
  unfold stops_at, fails_retryably. destruct (fst r) as [e|v]; [|by left].
  destruct (isRetryableError e) eqn:He; [right; eauto | left; by left].
Qed.

Lemma stops_at_last {St T : Type} (r : (ErrValue + T) * St) :
  stops_at (MAX_RETRIES RETRY_CONFIG) r.
Proof. unfold stops_at. destruct (fst r); [by right | done]. Qed.

Lemma exists_deciding_attempt {St T : Type}
      (operation : St -> (ErrValue + T) * St) (s : St) :
  exists k,
    (k <= 3)%nat
    /\ (forall j, (j < k)%nat -> fails_retryably (nth_call operation j s))
    /\ stops_at k (nth_call operation k s).
Proof.
  destruct (stops_or_fails 0 (nth_call operation 0 s)) as [H0|F0].
  { exists 0%nat. repeat split; [lia | intros; lia | done]. }
  destruct (stops_or_fails 1 (nth_call operation 1 s)) as [H1|F1].
  { exists 1%nat. repeat split; [lia | | done].
    intros [|j] Hj; [done | lia]. }
  destruct (stops_or_fails 2 (nth_call operation 2 s)) as [H2|F2].
  { exists 2%nat. repeat split; [lia | | done].
    intros [|[|j]] Hj; [done | done | lia]. }
  exists 3%nat. repeat split; [lia | | apply stops_at_last].
  intros [|[|[|j]]] Hj; [done | done | done | lia].
Qed.

(** X17. Every run of [withRetry] is decided by one attempt [k] among the
    first four: the attempts before it failed with retryable errors,
    attempt [k] succeeded, failed with an error that is not retryable, or
    was the fourth; the run ends as that attempt ended, with the
    operation's state after [k+1] invocations, and has paused for 0, 2, 6
    or 14 seconds in all, never longer. *)
Theorem withRetry_decided {St T : Type}
        (operation : St -> (ErrValue + T) * St) (s : St) :
  exists k,
    (k <= 3)%nat
    /\ Forall (fun j => fails_retryably (nth_call operation j s)) (seq 0 k)
    /\ stops_at k (nth_call operation k s)
    /\ outcome (withRetry operation s) = settle (nth_call operation k s)
    /\ final (withRetry operation s) = snd (nth_call operation k s)
    /\ calls (trace (withRetry operation s)) = (k + 1)%nat
    /\ total_sleep (trace (withRetry operation s)) = nth k [0; 2000; 6000; 14000] 0
    /\ total_sleep (trace (withRetry operation s)) <= 14000.
Proof.
  destruct (exists_deciding_attempt operation s) as (k & Hk & Hfail & Hstop).
  destruct (withRetry_stops operation s k Hk Hfail Hstop) as (Ho & Hf & Hc).
  exists k. split; [done|]. split.
  { apply List.Forall_forall. intros j Hj. apply in_seq in Hj. apply Hfail. lia. }
  split; [done|]. split; [done|]. split; [done|]. split; [done|].
  destruct (withRetry_trace operation s) as (retries & Hle & Htrace & _).
  rewrite Htrace in Hc |- *.
  assert (calls (retry_trace retries) = S retries) as Hcalls
    by (destruct retries as [|[|[|[|retries]]]]; [done..|lia]).
  assert (retries = k) as -> by lia.
  destruct k as [|[|[|[|k]]]]; [by vm_compute..|lia].
Qed.

(** *** The message shown for an error *)

Lemma getErrorMessage_object (status : option Z) (msg : option string) :
  getErrorMessage (EObj status msg) =
  if status_is status 429 then
    if includes (lower_message msg) "daily"
    then "API quota exceeded for today. Please try again tomorrow or enable billing in Google AI Studio."
    else "Rate limit exceeded. System is retrying automatically..."
  else if status_is status 503 then
    "Gemini service temporarily unavailable. Retrying automatically..."
  else match msg with
       | Some m => if truthy m then m else "Analysis request failed"
       | None => "Analysis request failed"
       end.
Proof. done. Qed.

(** X18. [getErrorMessage] never returns the empty text.  For an error
    with status 429 or 503 it returns one of three fixed texts, whatever
    the error's message, and such an error is retryable; a 429 gets the
    daily-quota text exactly when its message contains "daily", letter
    case ignored.  An error that is not retryable is shown with its own
    message, or with a fixed fallback when it has none. *)
Theorem getErrorMessage_classes (e : ErrValue) :
  getErrorMessage e <> EmptyString
  /\ (has_status e 429 \/ has_status e 503 ->
      isRetryableError e = true
      /\ (getErrorMessage e
          = "API quota exceeded for today. Please try again tomorrow or enable billing in Google AI Studio."
          \/ getErrorMessage e = "Rate limit exceeded. System is retrying automatically..."
          \/ getErrorMessage e
             = "Gemini service temporarily unavailable. Retrying automatically..."))
  /\ (forall m,
         getErrorMessage (EObj (Some 429) (Some m))
         = "API quota exceeded for today. Please try again tomorrow or enable billing in Google AI Studio."
         <-> contains_ignoring_case m "daily")
  /\ (isRetryableError e = false ->
      (exists status m,
          e = EObj status (Some m) /\ m <> EmptyString /\ getErrorMessage e = m)
      \/ getErrorMessage e = "Analysis request failed"
      \/ getErrorMessage e = "Unknown error occurred").
Proof.
  split; [|split; [|split]].
  - destruct e as [p|status msg]; [done|].
    rewrite getErrorMessage_object.
    destruct (status_is status 429); [by destruct (includes _ _)|].
    destruct (status_is status 503); [done|].
    destruct msg as [[|c m]|]; done.
  - intros [[msg ->]|[msg ->]].
    + split; [by rewrite isRetryableError_object|].
      rewrite getErrorMessage_object. simpl.
      destruct (includes _ _); auto.
    + split; [by rewrite isRetryableError_object|].
      rewrite getErrorMessage_object. simpl. auto.
  - intros m. rewrite getErrorMessage_object. simpl status_is. cbv iota.
    rewrite <- (includes_toLowerCase m "daily") by done.
    change (lower_message (Some m)) with (toLowerCase m).
    destruct (includes (toLowerCase m) "daily"); split; done.
  - intros Hnot. destruct e as [p|status msg]; [by right; right|].
    rewrite isRetryableError_object in Hnot.
    apply orb_false_iff in Hnot as [Hst _].
    apply orb_false_iff in Hst as [H429 H503].
    rewrite getErrorMessage_object, H429, H503.
    destruct msg as [[|c m]|]; simpl; [by right; left | | by right; left].
    left. by exists status, (String c m).
Qed.

(** An error with status 429 whose message speaks of the daily limit. *)
Lemma getErrorMessage_classes_witness :
  isRetryableError (EObj (Some 429) (Some "Daily Limit Exceeded")) = true
  /\ (getErrorMessage (EObj (Some 429) (Some "Daily Limit Exceeded"))
      = "API quota exceeded for today. Please try again tomorrow or enable billing in Google AI Studio."
      \/ getErrorMessage (EObj (Some 429) (Some "Daily Limit Exceeded"))
         = "Rate limit exceeded. System is retrying automatically..."
      \/ getErrorMessage (EObj (Some 429) (Some "Daily Limit Exceeded"))
         = "Gemini service temporarily unavailable. Retrying automatically...").
Proof.
  apply (proj1 (proj2 (getErrorMessage_classes
                         (EObj (Some 429) (Some "Daily Limit Exceeded"))))).
  left. by eexists.
Defined.

End MoreProofs.

(* ===================================================================== *)
(** ** Properties of the analysis route *)
(* ===================================================================== *)

Module RouteProofs.
Import Retry RetrySpec RetryMessages Route MoreSpec RouteSpec.
Import RetryProofs MoreProofs.

Lemma getErrorMessage_not_empty (e : ErrValue) : getErrorMessage e <> EmptyString.
Proof.
  destruct e as [p|status msg]; [done|].
  rewrite getErrorMessage_object.
  destruct (status_is status 429); [by destruct (includes _ _)|].
  destruct (status_is status 503); [done|].
  destruct msg as [[|c m]|]; done.
Qed.

Lemma truthy_false (s : string) : truthy s = false <-> s = EmptyString.
Proof. by destruct s. Qed.

Lemma truthy_true (s : string) : truthy s = true <-> s <> EmptyString.
Proof. by destruct s. Qed.

Section Handler.
Context {St : Type}.
Variable generateContent : Prompt -> list ImagePart -> St -> (ErrValue + string) * St.
Variable parse : string -> option Analysis.AnalysisResponse.

(** A run of [withRetry] calls the operation between one and four times
    and pauses for at most fourteen seconds. *)
Lemma withRetry_effort {T : Type} (operation : St -> (ErrValue + T) * St) (s : St) :
  (1 <= calls (trace (withRetry operation s)) <= 4)%nat
  /\ 0 <= total_sleep (trace (withRetry operation s)) <= 14000.
Proof.
  destruct (withRetry_trace operation s) as (retries & Hle & -> & _).
  destruct retries as [|[|[|[|retries]]]]; [..|lia];
    (split;
     [ set (c := calls _); vm_compute in c; subst c; lia
     | set (t := total_sleep _); vm_compute in t; subst t; lia ]).
Qed.

(** A run that throws a retryable error has called the operation four
    times. *)
Lemma withRetry_gives_up {T : Type} (operation : St -> (ErrValue + T) * St)
      (s : St) (e : ErrValue) :
  outcome (withRetry operation s) = Thrown e ->
  isRetryableError e = true ->
  calls (trace (withRetry operation s)) = 4%nat.
Proof.
  intros Hout Hretry.
  destruct (exists_deciding_attempt operation s) as (k & Hk & Hfail & Hstop).
  destruct (withRetry_stops operation s k Hk Hfail Hstop) as (Ho & _ & Hc).
  rewrite Hc. rewrite Ho in Hout. unfold settle in Hout. unfold stops_at in Hstop.
  destruct (fst (nth_call operation k s)) as [e'|v]; [|done].
  injection Hout as ->. destruct Hstop as [Hno| ->]; [congruence | done].
Qed.

(** The ways in which the handler ends. *)
Lemma POST_cases (env : Env) (req : option FormData) (s : St) :
  let h := POST generateContent parse env req s in
  h = internal_error s
  \/ (exists form,
         req = Some form /\ complete form = false
         /\ h = {| response := NextResponse_json
                                 (ErrorBody "Missing required image or mode.") (Some 400);
                   events := []; after := s |})
  \/ (exists form,
         req = Some form /\ complete form = true /\ isDemoMode env = true
         /\ events h = [Sleep 2000] /\ after h = s
         /\ status (response h) = 200
         /\ (body (response h) = AnalysisBody MOCK_RESPONSE_MULTI
             \/ body (response h) = AnalysisBody MOCK_RESPONSE_SINGLE))
  \/ (exists form,
         req = Some form /\ complete form = true /\ isDemoMode env = false
         /\ no_apiKey env = true
         /\ h = {| response := NextResponse_json
                                 (ErrorBody "API key not configured.") (Some 500);
                   events := []; after := s |})
  \/ (exists form prompt parts,
         let run := withRetry (generateContent prompt parts) s in
         req = Some form /\ complete form = true /\ isDemoMode env = false
         /\ no_apiKey env = false
         /\ events h = trace run /\ after h = final run
         /\ ((exists e,
                 outcome run = Thrown e
                 /\ response h = NextResponse_json (ErrorBody (getErrorMessage e))
                                                   (Some 503))
             \/ (outcome run = Returned EmptyString
                 /\ response h = NextResponse_json (ErrorBody "Unknown error occurred")
                                                   (Some 503))
             \/ (exists text,
                    outcome run = Returned text /\ text <> EmptyString
                    /\ parse text = None
                    /\ response h = NextResponse_json
                                      (ErrorBody "Failed to parse AI response.")
                                      (Some 500))
             \/ (exists text analysis,
                    outcome run = Returned text /\ text <> EmptyString
                    /\ parse text = Some analysis
                    /\ response h = NextResponse_json (AnalysisBody analysis) None))).
Proof.
  intros h. subst h. unfold POST. destruct req as [form|]; [|by left].
  destruct (js_truthy (js_or (form "image") (form "image_htf"))) eqn:Himg;
    cbn [negb orb andb];
    [|right; left; exists form; unfold complete; by rewrite Himg].
  destruct (js_truthy (form "mode")) eqn:Hmode;
    cbn [negb orb andb];
    [|right; left; exists form; unfold complete; by rewrite Himg, Hmode].
  assert (complete form = true) as Hc by (unfold complete; by rewrite Himg, Hmode).
  destruct (isDemoMode env) eqn:Hdemo.
  { right; right; left. exists form. cbn [events after response].
    do 6 (split; [done|]). destruct (js_truthy (form "image_ltf")); auto. }
  destruct (no_apiKey env) eqn:Hkey.
  { right; right; right; left. by exists form. }
  destruct (arrayBuffer (js_or (form "image") (form "image_htf"))) as [part1|];
    [|by left].
  match goal with
  | |- context [match ?parts with Some _ => _ | None => internal_error s end] =>
      destruct parts as [imageParts|]; [|by left]
  end.
  right; right; right; right.
  match goal with
  | |- context [withRetry (generateContent ?p imageParts) s] =>
      exists form, p, imageParts
  end.
  cbv zeta. do 4 (split; [done|]).
  match goal with
  | |- context [outcome ?r] => destruct (outcome r) as [text|e] eqn:Hout
  end.
  - destruct text as [|c text]; cbn [truthy negb].
    + do 2 (split; [done|]). right; left. done.
    + destruct (parse (String c text)) as [analysis|] eqn:Hparse.
      * do 2 (split; [done|]). right; right; right.
        by exists (String c text), analysis.
      * do 2 (split; [done|]). right; right; left.
        by exists (String c text).
  - cbn [truthy negb]. do 2 (split; [done|]). left. by exists e.
Qed.

(** X19. The handler answers with status 200, 400, 500 or 503.  The status
    is 400 exactly when the request is a form that lacks an image or a
    mode, whatever the environment says; it is 200 exactly when the body
    is an analysis; and the body of every other answer is an error with a
    text that is not empty. *)
Theorem POST_status_codes (env : Env) (req : option FormData) (s : St) :
  let h := POST generateContent parse env req s in
  In (status (response h)) [200; 400; 500; 503]
  /\ (status (response h) = 400 <->
      exists form, req = Some form /\ complete form = false)
  /\ (status (response h) = 200 <->
      exists analysis, body (response h) = AnalysisBody analysis)
  /\ (status (response h) <> 200 <->
      exists error, body (response h) = ErrorBody error /\ error <> EmptyString).
Proof.
  intros h.
  destruct (POST_cases env req s) as
    [H|[(form & -> & Hc & H)|[(form & -> & Hc & Hdemo & _ & _ & Hst & Hbody)
       |[(form & -> & Hc & _ & _ & H)|(form & p & parts & Hrun)]]]];
    fold h in H || fold h in Hst, Hbody || fold h in Hrun.
  - rewrite H. cbn. split; [tauto|]. split; [|split].
    + split; [done|]. intros (form & -> & Hc).
      revert H. unfold h, POST. fold (complete form). 
      unfold complete in Hc. apply andb_false_iff in Hc.
      destruct Hc as [-> | ->]; cbn [negb orb]; [done|].
      by rewrite orb_true_r.
    + split; [done|]. by intros (? & ?).
    + split; [|done]. intros _. by eexists.
  - rewrite H. cbn. split; [tauto|]. split; [|split].
    + split; [by exists form|done].
    + split; [done|]. by intros (? & ?).
    + split; [|done]. intros _. by eexists.
  - rewrite Hst. split; [cbn; tauto|]. split; [|split].
    + split; [done|]. intros (form' & [= <-] & Hc'). congruence.
    + split; [|done]. intros _. destruct Hbody as [-> | ->]; by eexists.
    + split; [done|]. intros (m & Hm & _). destruct Hbody; congruence.
  - rewrite H. cbn. split; [tauto|]. split; [|split].
    + split; [done|]. intros (form' & [= <-] & Hc'). congruence.
    + split; [done|]. by intros (? & ?).
    + split; [|done]. intros _. by eexists.
  - cbv zeta in Hrun.
    destruct Hrun as (-> & Hc & _ & _ & _ & _ & Hresp).
    destruct Hresp as [(e & _ & ->)|[(_ & ->)|[(t & _ & _ & _ & ->)
                                              |(t & a & _ & _ & _ & ->)]]].
    + cbn. split; [tauto|]. split; [|split].
      * split; [done|]. intros (form' & [= <-] & Hc'). congruence.
      * split; [done|]. by intros (? & ?).
      * split; [|done]. intros _. eexists. split; [done|].
        apply getErrorMessage_not_empty.
    + cbn. split; [tauto|]. split; [|split].
      * split; [done|]. intros (form' & [= <-] & Hc'). congruence.
      * split; [done|]. by intros (? & ?).
      * split; [|done]. intros _. by eexists.
    + cbn. split; [tauto|]. split; [|split].
      * split; [done|]. intros (form' & [= <-] & Hc'). congruence.
      * split; [done|]. by intros (? & ?).
      * split; [|done]. intros _. by eexists.
    + cbn. split; [tauto|]. split; [|split].
      * split; [done|]. intros (form' & [= <-] & Hc'). congruence.
      * split; [|done]. intros _. by eexists.
      * split; [done|]. by intros (? & ? & _).
Qed.

Lemma getErrorMessage_fixed_or_own (e : ErrValue) :
  In (getErrorMessage e) fixed_messages
  \/ exists status, e = EObj status (Some (getErrorMessage e)).
Proof.
  destruct e as [p|status msg]; [left; cbn; tauto|].
  rewrite getErrorMessage_object.
  destruct (status_is status 429);
    [destruct (includes _ _); left; cbn; tauto|].
  destruct (status_is status 503); [left; cbn; tauto|].
  destruct msg as [[|c m]|]; cbn [truthy]; [left; cbn; tauto| |left; cbn; tauto].
  right. by exists status.
Qed.

(** X20. Handling one request calls the model at most four times and
    pauses for at most fourteen seconds.  The model is called only for a
    form that has an image and a mode, outside demo mode and with an API
    key configured; a request that does not reach the model leaves the
    state of the service as it was. *)
Theorem POST_calls_of_the_model (env : Env) (req : option FormData) (s : St) :
  let h := POST generateContent parse env req s in
  (calls (events h) <= 4)%nat
  /\ 0 <= total_sleep (events h) <= 14000
  /\ ((1 <= calls (events h))%nat ->
      exists form,
        req = Some form /\ complete form = true
        /\ isDemoMode env = false /\ no_apiKey env = false)
  /\ (calls (events h) = 0%nat -> after h = s).
Proof.
  intros h.
  destruct (POST_cases env req s) as
    [H|[(form & -> & Hc & H)|[(form & -> & Hc & Hdemo & Hev & Haft & _)
       |[(form & -> & Hc & _ & _ & H)|(form & p & parts & Hrun)]]]];
    fold h in H || fold h in Hev, Haft || fold h in Hrun.
  - rewrite H. cbn. repeat split; (lia || done).
  - rewrite H. cbn. repeat split; (lia || done).
  - rewrite Hev, Haft. cbn. repeat split; (lia || done).
  - rewrite H. cbn. repeat split; (lia || done).
  - cbv zeta in Hrun.
    destruct Hrun as (-> & Hc & Hdemo & Hkey & -> & -> & _).
    destruct (withRetry_effort (generateContent p parts) s) as [Hcalls Hsleep].
    split; [lia|]. split; [lia|]. split; [|lia].
    intros _. by exists form.
Qed.

(** X21. An answer with status 503 comes from a run of [withRetry] that
    called the model between one and four times and either threw or
    returned the empty text.  The text of the answer is the one
    [getErrorMessage] gives for what was thrown, hence one of five fixed
    texts or the message of the error itself, and "Unknown error occurred"
    for the empty text.  When the error thrown is retryable the model has
    been called four times. *)
Theorem POST_service_unavailable (env : Env) (req : option FormData) (s : St) :
  let h := POST generateContent parse env req s in
  status (response h) = 503 ->
  (1 <= calls (events h) <= 4)%nat
  /\ exists prompt parts,
      let run := withRetry (generateContent prompt parts) s in
      events h = trace run /\ after h = final run
      /\ ((outcome run = Returned EmptyString
           /\ body (response h) = ErrorBody "Unknown error occurred")
          \/ (exists e,
                 outcome run = Thrown e
                 /\ body (response h) = ErrorBody (getErrorMessage e)
                 /\ (In (getErrorMessage e) fixed_messages
                     \/ exists st, e = EObj st (Some (getErrorMessage e)))
                 /\ (isRetryableError e = true -> calls (events h) = 4%nat))).
Proof.
  intros h Hst.
  destruct (POST_cases env req s) as
    [H|[(form & -> & Hc & H)|[(form & -> & Hc & Hdemo & _ & _ & Hst' & _)
       |[(form & -> & Hc & _ & _ & H)|(form & p & parts & Hrun)]]]];
    fold h in H || fold h in Hst' || fold h in Hrun;
    try (rewrite H in Hst; discriminate); try congruence.
  cbv zeta in Hrun.
  destruct Hrun as (-> & Hc & Hdemo & Hkey & Hev & Haft & Hresp).
  destruct (withRetry_effort (generateContent p parts) s) as [Hcalls _].
  rewrite Hev. split; [done|]. exists p, parts. cbv zeta.
  split; [done|]. split; [done|].
  destruct Hresp as [(e & Hout & Hr)|[(Hout & Hr)|[(t & _ & _ & _ & Hr)
                                                  |(t & a & _ & _ & _ & Hr)]]];
    try (rewrite Hr in Hst; discriminate).
  - right. exists e. split; [done|]. split; [by rewrite Hr|].
    split; [apply getErrorMessage_fixed_or_own|].
    intros Hretry. by apply withRetry_gives_up with e.
  - left. split; [done|]. by rewrite Hr.
Qed.

(** X22. The handler does not check what the mode is beyond its being
    there: two requests that differ only in their mode, neither of them
    empty, are handled alike unless exactly one of the two modes is
    "scalping". *)
Theorem POST_mode_not_validated (env : Env) (form : FormData)
        (mode1 mode2 : option FormValue) (s : St) :
  js_truthy mode1 = true ->
  js_truthy mode2 = true ->
  is_scalping mode1 = is_scalping mode2 ->
  POST generateContent parse env (Some (with_mode mode1 form)) s
  = POST generateContent parse env (Some (with_mode mode2 form)) s.
Proof.
  intros H1 H2 Hsame. unfold POST, with_mode. cbn [String.eqb Ascii.eqb Bool.eqb].
  by rewrite H1, H2, Hsame.
Qed.
End Handler.

(** A request that lacks a mode reaches no model. *)
Lemma POST_calls_of_the_model_witness :
  calls (events (POST overloaded rejects production (Some upload_without_mode) 7%nat))
  = 0%nat
  /\ after (POST overloaded rejects production (Some upload_without_mode) 7%nat) = 7%nat.
Proof.
  split; [reflexivity|].
  apply (proj2 (proj2 (proj2 (POST_calls_of_the_model
                                overloaded rejects production
                                (Some upload_without_mode) 7%nat)))).
  reflexivity.
Defined.

(** The model is overloaded at each of the four calls. *)
Lemma POST_service_unavailable_witness :
  status (response (POST overloaded rejects production (Some upload) 0%nat)) = 503
  /\ (1 <= calls (events (POST overloaded rejects production (Some upload) 0%nat))
      <= 4)%nat.
Proof.
  split; [reflexivity|].
  apply (POST_service_unavailable overloaded rejects production (Some upload) 0%nat).
  reflexivity.
Defined.

(** The modes "swing" and "position". *)
Lemma POST_mode_not_validated_witness :
  POST chatty rejects production
       (Some (with_mode (Some (FText "swing")) upload)) 0%nat
  = POST chatty rejects production
         (Some (with_mode (Some (FText "position")) upload)) 0%nat.
Proof.
  apply (POST_mode_not_validated chatty rejects production upload
                                 (Some (FText "swing")) (Some (FText "position")));
    reflexivity.
Defined.

End RouteProofs.

(* ===================================================================== *)
(** ** Properties of the image compression *)
(* ===================================================================== *)

Module ImageProofs.
Import RetryMessages ImageCompression ImageSpec.

Lemma Math_round_div_nearest (a b : Z) :
  0 < b ->
  let q := Math_round_div a b in
  - b <= 2 * (a - q * b) < b.
Proof.
  intros Hb q. subst q. unfold Math_round_div.
  pose proof (Z.div_mod (2 * a + b) (2 * b) ltac:(lia)) as Hdiv.
  pose proof (Z.mod_pos_bound (2 * a + b) (2 * b) ltac:(lia)) as Hmod.
  nia.
Qed.

(** X23. The canvas is never wider than 1920 pixels and never larger than
    the image.  An image that fits is drawn at its own size.  A wider one
    is drawn 1920 wide, its height being the integer nearest to the height
    that keeps the proportions; that height is 0 when the image is more
    than 3840 times as wide as it is high. *)
Theorem canvas_size_fits (width height : Z) :
  0 <= height ->
  let size := canvas_size width height in
  fst size = Z.min width 1920
  /\ 0 <= snd size <= height
  /\ (width <= 1920 -> size = (width, height))
  /\ (1920 < width ->
      Z.abs (2 * (height * 1920 - snd size * width)) <= width
      /\ (snd size = 0 <-> 3840 * height < width)).
Proof.
  intros Hh size. subst size. unfold canvas_size, MAX_WIDTH.
  destruct (Z.gtb_spec width 1920) as [Hw|Hw]; cbn [fst snd].
  - pose proof (Math_round_div_nearest (height * 1920) width ltac:(lia)) as Hq.
    cbv zeta in Hq. set (q := Math_round_div (height * 1920) width) in *.
    split; [lia|]. split; [nia|]. split; [lia|]. intros _. split; [lia|].
    split; [intros Hq0; rewrite Hq0 in Hq; lia | nia].
  - split; [lia|]. split; [lia|]. split; [done|]. lia.
Qed.

(** A chart of 3840 by 2160 pixels. *)
Lemma canvas_size_fits_witness :
  canvas_size 3840 2160 = (1920, 1080)
  /\ fst (canvas_size 3840 2160) = Z.min 3840 1920.
Proof.
  split; [reflexivity|].
  apply (canvas_size_fits 3840 2160). lia.
Defined.

Lemma all_chars_app (p : ascii -> bool) (a b : string) :
  all_chars p (a +:+ b) = all_chars p a && all_chars p b.
Proof.
  induction a as [|c a IH]; [done|].
  change (String c a +:+ b) with (String c (a +:+ b)).
  cbn [all_chars]. by rewrite IH, andb_assoc.
Qed.

Lemma is_extension_inside (c : ascii) (stem ext : string) :
  is_extension ext = true ->
  is_extension (String c (stem +:+ ext)) = false.
Proof.
  intros Hext. destruct ext as [|d ext]; [done|].
  cbn in Hext. apply andb_prop in Hext as [Hext _].
  apply andb_prop in Hext as [Hd _].
  apply Ascii.eqb_eq in Hd as ->.
  cbn [is_extension]. rewrite all_chars_app. cbn.
  by rewrite !andb_false_r.
Qed.

Lemma strip_extension_app (stem ext : string) :
  is_extension ext = true ->
  strip_extension (stem +:+ ext) = stem.
Proof.
  intros Hext. induction stem as [|c stem IH].
  - change (EmptyString +:+ ext) with ext. destruct ext as [|d ext]; [done|].
    cbn [strip_extension]. by rewrite Hext.
  - change (String c stem +:+ ext) with (String c (stem +:+ ext)).
    cbn [strip_extension]. rewrite is_extension_inside by done.
    by rewrite IH.
Qed.

Lemma strip_extension_split (name : string) :
  exists ext,
    name = strip_extension name +:+ ext
    /\ (ext = EmptyString \/ is_extension ext = true).
Proof.
  induction name as [|c name (ext & IH & Hext)].
  - exists EmptyString. auto.
  - cbn [strip_extension].
    destruct (is_extension (String c name)) eqn:His.
    + exists (String c name). auto.
    + exists ext. split; [|done].
      change (String c (strip_extension name) +:+ ext)
        with (String c (strip_extension name +:+ ext)).
      by rewrite <- IH.
Qed.

(** X24. The name of the compressed file is the name of the file with its
    extension replaced by [.jpg]: a final dot followed by one or more
    characters other than a dot and a slash is cut off, and nothing else
    is.  A name that already ends in [.jpg] is kept, so naming twice is
    naming once. *)
Theorem compressed_name_replaces_extension (name : string) :
  (exists ext,
      name = strip_extension name +:+ ext
      /\ (ext = EmptyString \/ is_extension ext = true))
  /\ (forall stem ext,
         ext <> EmptyString -> all_chars not_slash_or_dot ext = true ->
         compressed_name (stem +:+ "." +:+ ext) = stem +:+ ".jpg")
  /\ compressed_name (name +:+ ".jpg") = name +:+ ".jpg"
  /\ compressed_name (compressed_name name) = compressed_name name.
Proof.
  split; [apply strip_extension_split|]. split; [|split].
  - intros stem ext Hne Hall. unfold compressed_name.
    rewrite strip_extension_app; [done|].
    change ("." +:+ ext) with (String "." ext).
    cbn [is_extension]. rewrite Hall. by destruct ext.
  - unfold compressed_name. by rewrite strip_extension_app.
  - unfold compressed_name. by rewrite strip_extension_app.
Qed.

(** The name of a screenshot with two dots. *)
Lemma compressed_name_replaces_extension_witness :
  compressed_name ("btc.4h" +:+ "." +:+ "png") = "btc.4h" +:+ ".jpg".
Proof.
  apply (proj1 (proj2 (compressed_name_replaces_extension EmptyString)));
    [discriminate | reflexivity].
Defined.

(** X25. [compressImage] gives back a file of less than 1 MiB as it is,
    whatever the browser does.  For a larger file it resolves only with a
    JPEG that bears the compressed name and was made from a canvas at most
    1920 pixels wide, and it never settles exactly when the file is read
    but its image fails to load. *)
Theorem compressImage_outcomes (browser : Browser) (file : File) :
  (file_size file < 1024 * 1024 -> compressImage browser file = Resolved file)
  /\ (1024 * 1024 <= file_size file ->
      forall compressed,
        compressImage browser file = Resolved compressed ->
        file_type compressed = "image/jpeg"
        /\ file_name compressed = compressed_name (file_name file)
        /\ compressed_name (file_name compressed) = file_name compressed
        /\ lastModified compressed = Date_now browser
        /\ exists width height,
            image_size browser = Some (width, height)
            /\ toBlob browser (Z.min width 1920) (snd (canvas_size width height))
               = Some (file_size compressed))
  /\ (compressImage browser file = Pending <->
      1024 * 1024 <= file_size file
      /\ reader_loads browser = true
      /\ image_size browser = None).
Proof.
  unfold compressImage.
  destruct (Z.ltb_spec (file_size file) (1024 * 1024)) as [Hsmall|Hlarge].
  { split; [done|]. split; [lia|]. split; [done|]. lia. }
  split; [lia|].
  destruct (reader_loads browser); cbn [negb].
  2: { split; [done|]. split; [done|]. by intros (_ & ? & _). }
  destruct (image_size browser) as [[width height]|].
  2: { split; [done|]. done. }
  destruct (has_context browser); cbn [negb].
  2: { split; [done|]. split; [done|]. by intros (_ & _ & ?). }
  destruct (toBlob browser _ _) as [blob_size|] eqn:Hblob.
  2: { split; [done|]. split; [done|]. by intros (_ & _ & ?). }
  split; [|split; [done|by intros (_ & _ & ?)]].
  intros _ compressed [= <-]. cbn.
  split; [done|]. split; [done|].
  split; [unfold compressed_name; by rewrite strip_extension_app|].
  split; [done|]. exists width, height. split; [done|].
  rewrite <- Hblob. f_equal.
  unfold canvas_size, MAX_WIDTH. destruct (Z.gtb_spec width 1920); cbn; lia.
Qed.

(** A screenshot of three megabytes, 3840 by 2160 pixels. *)
Lemma compressImage_outcomes_witness :
  compressImage (working_browser 3840 2160) screenshot
  = Resolved {| file_name := "btc.4h.jpg"; file_type := "image/jpeg";
                file_size := 207360; lastModified := 1700000000000 |}
  /\ file_type {| file_name := "btc.4h.jpg"; file_type := "image/jpeg";
                  file_size := 207360; lastModified := 1700000000000 |}
     = "image/jpeg".
Proof.
  split; [reflexivity|].
  apply (proj1 (proj2 (compressImage_outcomes (working_browser 3840 2160) screenshot))
               ltac:(cbn; lia) _ eq_refl).
Defined.

End ImageProofs.
